(** * Communication layer of the DrawBot VS Code extension

    A shallow embedding of the two classes that make up the client-side
    communication layer:

    - [TypeSafeAPIClient] (src/communication/api-client.ts): request
      deduplication and the response interceptor with its rate-limit retry;
    - [TypeSafeWebSocketManager] (the WebSocket manager, part_007): the
      per-key connection table, reconnection with backoff, heartbeat,
      message queue and inbound dispatch.

    JavaScript runs these classes on a single thread: every method body and
    every event handler runs to completion before the next one starts.  A
    handler is therefore a function from state to state, and a run of the
    program is a list of actions folded over the state. *)

From Stdlib Require Import ZArith List Lia Ascii String.
From stdpp Require Import base option list gmap strings.

Local Open Scope Z_scope.

(* ================================================================== *)
(** * The request client *)
(* ================================================================== *)

Module TypeSafeAPIClient.

(** ** Request deduplication

    [requestDeduplication] is the [Map<string, Promise<any>>] of the class.
    A promise is identified by the order in which [requestFn()] created it:
    the table [promises] holds, for each call of [requestFn], the key of the
    [deduplicatedRequest] activation that made the call (the [key] captured
    by its [finally] block) and the settlement of the promise, if any.  One
    entry of [promises] is one call that reached the transport. *)

Section Deduplication.

Context {T E : Type}.

Inductive Settlement :=
  | Fulfilled (value : T)
  | Rejected (error : E).

Record Client := mkClient {
  requestDeduplication : gmap string nat;
  promises : list (string * option Settlement);
  cleanupTimers : list string
}.

Definition newClient : Client :=
  {| requestDeduplication := ∅; promises := []; cleanupTimers := [] |}.

(** [deduplicatedRequest key requestFn]: the promise whose settlement the
    caller observes, and the client afterwards.  In the first branch the
    caller gets [this.requestDeduplication.get(key)]; in the second it awaits
    the promise it has just created. *)
Definition deduplicatedRequest (key : string) (c : Client) : nat * Client :=
  match requestDeduplication c !! key with
  | Some promise => (promise, c)
  | None =>
      let promise := length (promises c) in
      (promise,
       {| requestDeduplication := <[key := promise]> (requestDeduplication c);
          promises := promises c ++ [(key, None)];
          cleanupTimers := cleanupTimers c |})
  end.

(** The transport settles promise [p].  The activation that awaits it runs
    its [finally] block, which arms [setTimeout(() => delete(key), 1000)]. *)
Definition settle (p : nat) (o : Settlement) (c : Client) : Client :=
  match promises c !! p with
  | Some (key, None) =>
      {| requestDeduplication := requestDeduplication c;
         promises := <[p := (key, Some o)]> (promises c);
         cleanupTimers := cleanupTimers c ++ [key] |}
  | _ => c
  end.

(** The [i]-th pending clean-up timer fires. *)
Definition fireCleanup (i : nat) (c : Client) : Client :=
  match cleanupTimers c !! i with
  | Some key =>
      {| requestDeduplication := delete key (requestDeduplication c);
         promises := promises c;
         cleanupTimers := delete i (cleanupTimers c) |}
  | None => c
  end.

Definition clearCache (c : Client) : Client :=
  {| requestDeduplication := ∅;
     promises := promises c;
     cleanupTimers := cleanupTimers c |}.

Definition dispose (c : Client) : Client := clearCache c.

(** What a holder of promise [p] has observed so far. *)
Definition settlementOf (c : Client) (p : nat) : option Settlement :=
  match promises c !! p with
  | Some (_, o) => o
  | None => None
  end.

Inductive Event :=
  | Request (key : string)
  | Settle (p : nat) (o : Settlement)
  | FireCleanup (i : nat)
  | ClearCache.

Definition step (e : Event) (c : Client) : Client :=
  match e with
  | Request key => snd (deduplicatedRequest key c)
  | Settle p o => settle p o c
  | FireCleanup i => fireCleanup i c
  | ClearCache => clearCache c
  end.

Definition run (es : list Event) (c : Client) : Client :=
  foldl (fun c e => step e c) c es.

Definition isClear (e : Event) : bool :=
  match e with ClearCache => true | _ => false end.

(** The number of calls that reached the transport for [key]. *)
Definition transportCalls (key : string) (c : Client) : nat :=
  length (filter (fun entry => entry.1 = key) (promises c)).

(** Invariant of a client whose map has never been cleared. *)
Record Coherent (c : Client) : Prop := {
  entry_key : forall k p,
    requestDeduplication c !! k = Some p ->
    exists o, promises c !! p = Some (k, o);
  pending_listed : forall p k,
    promises c !! p = Some (k, None) ->
    requestDeduplication c !! k = Some p;
  timer_settled : forall i k,
    cleanupTimers c !! i = Some k ->
    exists p o, requestDeduplication c !! k = Some p /\
                promises c !! p = Some (k, Some o);
  timers_nodup : NoDup (cleanupTimers c)
}.

End Deduplication.

Arguments Settlement : clear implicits.
Arguments Client : clear implicits.
Arguments Event : clear implicits.

(** ** Response interceptor and rate-limit retry *)

(** The part of an error body that [enhanceError] reads
    ([responseData.error], [.message], [.code]); a field that is missing or
    not a string is [None]. *)
Record ErrorBody := mkErrorBody {
  bodyError : option string;
  bodyMessage : option string;
  bodyCode : option string
}.

(** [error.response]: [data] is [Some] exactly when the body is a non-null
    object. *)
Record AxiosResponse := mkResponse {
  status : Z;
  statusText : string;
  retryAfter : option string;   (* headers['retry-after'] *)
  data : option ErrorBody
}.

(** What one call of the transport yields. *)
Inductive TransportReply :=
  | Reply (response : AxiosResponse)
  | NoResponse (message : string) (code : option string)  (* error.request only *)
  | SetupFailure (message : string).                      (* neither *)

Inductive ErrorCode :=
  | UNKNOWN_ERROR
  | NETWORK_ERROR
  | HTTP (status : Z)            (* `HTTP_${status}` *)
  | ServerCode (code : string).  (* responseData.code *)

Record APIError := mkAPIError {
  code : ErrorCode;
  message : string;
  detailsStatus : option Z;      (* details.status *)
  detailsTimeout : option bool   (* details.timeout *)
}.

(** JavaScript [a || b] on possibly missing strings: the empty string is
    falsy. *)
Definition truthy (s : option string) : option string :=
  match s with
  | Some EmptyString => None
  | other => other
  end.

Definition orElse (a : option string) (b : string) : string :=
  default b (truthy a).

Definition enhanceError (error : TransportReply) (errorMessage : string) : APIError :=
  match error with
  | Reply response =>
      let httpCode := HTTP (status response) in
      match data response with
      | Some responseData =>
          {| code := match truthy (bodyCode responseData) with
                     | Some c => ServerCode c
                     | None => httpCode
                     end;
             message := orElse (bodyError responseData)
                          (orElse (bodyMessage responseData) errorMessage);
             detailsStatus := Some (status response);
             detailsTimeout := None |}
      | None =>
          {| code := httpCode; message := errorMessage;
             detailsStatus := Some (status response); detailsTimeout := None |}
      end
  | NoResponse _ errCode =>
      {| code := NETWORK_ERROR; message := "No response from server";
         detailsStatus := None;
         detailsTimeout := Some (bool_decide (errCode = Some "ECONNABORTED"%string)) |}
  | SetupFailure _ =>
      {| code := UNKNOWN_ERROR; message := errorMessage;
         detailsStatus := None; detailsTimeout := None |}
  end.

(** [error.message] as axios sets it. *)
Definition errorMessageOf (error : TransportReply) : string :=
  match error with
  | Reply response => "Request failed with status code"
  | NoResponse m _ => m
  | SetupFailure m => m
  end.

(** *** [parseInt] (no radix argument), on ASCII input.  [None] is [NaN]. *)

Definition isWhiteSpace (a : ascii) : bool :=
  let n := nat_of_ascii a in
  bool_decide (n = 32 \/ n = 9 \/ n = 10 \/ n = 11 \/ n = 12 \/ n = 13)%nat.

Fixpoint trimStart (s : string) : string :=
  match s with
  | String a rest => if isWhiteSpace a then trimStart rest else s
  | EmptyString => s
  end.

Definition digitValue (a : ascii) : option Z :=
  let n := Z.of_nat (nat_of_ascii a) in
  if (48 <=? n) && (n <=? 57) then Some (n - 48)
  else if (97 <=? n) && (n <=? 122) then Some (n - 87)
  else if (65 <=? n) && (n <=? 90) then Some (n - 55)
  else None.

Fixpoint parseDigits (radix : Z) (s : string) (acc : option Z) : option Z :=
  match s with
  | String a rest =>
      match digitValue a with
      | Some d =>
          if d <? radix
          then parseDigits radix rest (Some (default 0 acc * radix + d))
          else acc
      | None => acc
      end
  | EmptyString => acc
  end.

Definition parseUnsigned (s : string) : option Z :=
  match s with
  | String "0" (String "x" rest) | String "0" (String "X" rest) =>
      parseDigits 16 rest None
  | _ => parseDigits 10 s None
  end.

Definition parseInt (s : string) : option Z :=
  match trimStart s with
  | String "-" rest => Z.opp <$> parseUnsigned rest
  | String "+" rest => parseUnsigned rest
  | rest => parseUnsigned rest
  end.

(** The delay computed by [handleRateLimit], as passed to [setTimeout]:
    [retryAfter ? parseInt(retryAfter) * 1000 : Math.pow(2, 1) * 1000].
    [None] is [NaN]. *)
Definition rateLimitDelay (response : AxiosResponse) : option Z :=
  match truthy (retryAfter response) with
  | Some header => (fun seconds => seconds * 1000) <$> parseInt header
  | None => Some (2 ^ 1 * 1000)
  end.

Inductive Effect :=
  | TransportCall                 (* a request handed to the HTTP adapter *)
  | Wait (delay : option Z)       (* await setTimeout(resolve, delay) *)
  | TriggerFallbackMode.

(** What the response interceptor does with one reply: settle the caller's
    promise, or hand over to [handleRateLimit]. *)
Inductive Intercepted :=
  | Resolve (response : AxiosResponse)
  | Reject (error : APIError)
  | RateLimited (delay : option Z).

(** axios resolves with the response when [validateStatus] holds
    (200 <= status < 300) and rejects otherwise. *)
Definition validateStatus (st : Z) : bool := (200 <=? st) && (st <? 300).

Definition responseInterceptor (reply : TransportReply) : list Effect * Intercepted :=
  match reply with
  | Reply response =>
      if validateStatus (status response) then ([], Resolve response)
      else
        let enhancedError := enhanceError reply (errorMessageOf reply) in
        if status response =? 503 then ([TriggerFallbackMode], Reject enhancedError)
        else if status response =? 429 then ([], RateLimited (rateLimitDelay response))
        else ([], Reject enhancedError)
  | _ => ([], Reject (enhanceError reply (errorMessageOf reply)))
  end.

(** [this.client.request(config)]: the request goes to the transport and its
    reply through the response interceptor; [handleRateLimit] waits and calls
    [this.client.request] again, on the same client and so through the same
    interceptor.  The transport answers successive calls with the successive
    elements of [replies]; [None] means the last call is never answered. *)
Fixpoint request (replies : list TransportReply)
  : list Effect * option (AxiosResponse + APIError) :=
  match replies with
  | [] => ([TransportCall], None)
  | reply :: later =>
      match responseInterceptor reply with
      | (effects, Resolve response) => (TransportCall :: effects, Some (inl response))
      | (effects, Reject error) => (TransportCall :: effects, Some (inr error))
      | (effects, RateLimited delay) =>
          let (more, outcome) := request later in
          (TransportCall :: effects ++ Wait delay :: more, outcome)
      end
  end.

Definition isTransportCall (e : Effect) : bool :=
  match e with TransportCall => true | _ => false end.

Definition transportCallCount (effects : list Effect) : nat :=
  length (filter (fun e => isTransportCall e = true) effects).

Definition isRateLimited (reply : TransportReply) : bool :=
  match reply with
  | Reply response => bool_decide (status response = 429)
  | _ => false
  end.

(** The settlement of a reply that is not rate limited. *)
Definition surfaced (reply : TransportReply) : AxiosResponse + APIError :=
  match responseInterceptor reply with
  | (_, Resolve response) => inl response
  | (_, Reject error) => inr error
  | (_, RateLimited _) => inr (enhanceError reply (errorMessageOf reply))
  end.

(** A decimal numeral, most significant digit first, and its value. *)
Fixpoint numeral (digits : list nat) : string :=
  match digits with
  | [] => EmptyString
  | d :: rest => String (ascii_of_nat (48 + d)) (numeral rest)
  end.

Definition numeralValue (digits : list nat) : Z :=
  foldl (fun acc d => acc * 10 + Z.of_nat d) 0 digits.

Definition rateLimitedResponse (header : option string) : AxiosResponse :=
  {| status := 429; statusText := "Too Many Requests";
     retryAfter := header; data := None |}.

Definition okResponse : AxiosResponse :=
  {| status := 200; statusText := "OK"; retryAfter := None; data := None |}.

Definition isFallback (e : Effect) : bool :=
  match e with TriggerFallbackMode => true | _ => false end.

(** The number of times fallback mode was triggered. *)
Definition fallbackCount (effects : list Effect) : nat :=
  length (filter (fun e => isFallback e = true) effects).

(** ** Request hash *)

(** [ToInt32]: the signed 32-bit value of an integer. *)
Definition toInt32 (z : Z) : Z := (z + 2 ^ 31) mod 2 ^ 32 - 2 ^ 31.

(** [a << n] for a shift count below 32. *)
Definition shiftLeft (a n : Z) : Z := toInt32 (Z.shiftl (toInt32 a) n).

(** [a & b] *)
Definition bitAnd (a b : Z) : Z := toInt32 (Z.land (toInt32 a) (toInt32 b)).

(** The body of the loop of [generateRequestHash]:
    [hash = ((hash << 5) - hash) + char; hash = hash & hash]. *)
Definition hashStep (hash char : Z) : Z :=
  let hash := (shiftLeft hash 5 - hash) + char in
  bitAnd hash hash.

(** The number [generateRequestHash] has computed when its loop ends;
    [codes] are the UTF-16 code units ([charCodeAt]) of
    [JSON.stringify(data)]. *)
Definition requestHashNumber (codes : list Z) : Z := foldl hashStep 0 codes.

Definition digit36 (d : Z) : ascii :=
  ascii_of_nat (Z.to_nat (if d <? 10 then 48 + d else 87 + d)).

Fixpoint render36 (fuel : nat) (n : Z) (acc : string) : string :=
  match fuel with
  | O => acc
  | S fuel =>
      let acc := String (digit36 (n mod 36)) acc in
      if n / 36 =? 0 then acc else render36 fuel (n / 36) acc
  end.

(** [n.toString(36)] for a 32-bit integer (at most seven digits). *)
Definition toString36 (n : Z) : string :=
  if n <? 0 then String "-" (render36 7 (- n) EmptyString)
  else render36 7 n EmptyString.

(** [generateRequestHash] *)
Definition generateRequestHash (codes : list Z) : string :=
  toString36 (requestHashNumber codes).

(** The polynomial the loop evaluates, without wrap-around. *)
Definition polynomial31 (codes : list Z) : Z :=
  foldl (fun acc char => 31 * acc + char) 0 codes.

(** ** Session information *)

(** [getSessionInfo().activeRequests] *)
Definition activeRequests {T E : Type} (c : Client T E) : nat :=
  size (requestDeduplication c).

Definition isPending {T E : Type} (entry : string * option (Settlement T E)) : bool :=
  match entry.2 with None => true | Some _ => false end.

(** The calls that have reached the transport and are not settled. *)
Definition inFlight {T E : Type} (c : Client T E) : nat :=
  length (filter (fun entry => isPending entry = true) (promises c)).

(** ** The deduplicated endpoints *)

(** [Array.prototype.join] *)
Fixpoint join (separator : string) (items : list string) : string :=
  match items with
  | [] => EmptyString
  | [item] => item
  | item :: rest => (item +:+ separator +:+ join separator rest)%string
  end.

Inductive Category := CategoryUser | CategoryExample | CategoryTemplate.

Definition categoryName (c : Category) : string :=
  match c with
  | CategoryUser => "user"
  | CategoryExample => "example"
  | CategoryTemplate => "template"
  end.

(** The keys under which the endpoints deduplicate. *)
Definition healthKey : string := "health".

Definition sketchListKey (category : option Category) : string :=
  ("sketches-" +:+ default "all" (categoryName <$> category))%string.

Definition executeKey (name : string) : string := ("execute-" +:+ name)%string.

Definition batchKey (sketches : list string) : string :=
  ("batch-" +:+ join "-" sketches)%string.

(** [getHealth], [getSketchList], [executeSketch] and [executeBatch] as
    seen by the deduplication map. *)
Definition getHealth {T E : Type} (c : Client T E) : nat * Client T E :=
  deduplicatedRequest healthKey c.

Definition getSketchList {T E : Type} (category : option Category) (c : Client T E)
  : nat * Client T E :=
  deduplicatedRequest (sketchListKey category) c.

Definition executeSketch {T E : Type} (name : string) (c : Client T E)
  : nat * Client T E :=
  deduplicatedRequest (executeKey name) c.

Definition executeBatch {T E : Type} (sketches : list string) (c : Client T E)
  : nat * Client T E :=
  deduplicatedRequest (batchKey sketches) c.

(** ** Batch results *)

(** [ExecutionResult]; the optional [metadata] is not read by the client. *)
Record ExecutionResult := mkExecutionResult {
  success : bool;
  executionTime : Z;
  outputPath : option string;
  errorMessage : option string;
  pages : Z;
  previewUrl : option string
}.

(** The [APIError] that [executeBatch] builds for a failed sketch. *)
Record BatchFailure := mkBatchFailure {
  failureCode : string;
  failureMessage : string;
  failureTimestamp : Z
}.

(** [BatchExecutionResult]; [totalTime = None] is [-Infinity], the value of
    [Math.max()] without arguments. *)
Record BatchExecutionResult := mkBatchResult {
  results : gmap string ExecutionResult;
  failures : gmap string BatchFailure;
  totalTime : option Z
}.

(** [Math.max(...values)] *)
Definition maxOf (values : list Z) : option Z :=
  foldr (fun v acc => Some (match acc with Some m => Z.max v m | None => v end))
        None values.

(** The body of the loop of [executeBatch] over
    [Object.entries(response.data)]; [now] is the value of [Date.now()]. *)
Definition classify (now : Z)
    (maps : gmap string ExecutionResult * gmap string BatchFailure)
    (entry : string * ExecutionResult)
  : gmap string ExecutionResult * gmap string BatchFailure :=
  let '(sketchName, result) := entry in
  if success result
  then (<[sketchName := result]> maps.1, maps.2)
  else (maps.1,
        <[sketchName :=
            {| failureCode := "EXECUTION_FAILED";
               failureMessage := orElse (errorMessage result) "Unknown execution error";
               failureTimestamp := now |}]> maps.2).

(** What [executeBatch] makes of [response.data]. *)
Definition processBatch (entries : list (string * ExecutionResult)) (now : Z)
  : BatchExecutionResult :=
  let maps := foldl (classify now) (∅, ∅) entries in
  {| results := maps.1;
     failures := maps.2;
     totalTime := maxOf (executionTime <$> entries.*2) |}.

End TypeSafeAPIClient.

(* ================================================================== *)
(** * The WebSocket manager *)
(* ================================================================== *)

Module TypeSafeWebSocketManager.

(** The manager is an event emitter that owns six maps.  Its environment --
    the sockets of the [ws] library, the timers of the runtime, the
    subscribers and the console -- is part of the state here, so that what
    the manager does to it can be read off: which frames went out on which
    socket, which timers were armed with which delay, which notifications
    were emitted, in which order.  The numbers of the configuration are
    integers.  Subscribers are taken not to throw out of [emit]; the one
    place where the class catches such a throw, the reconnect timer, takes
    it as an input. *)

(** ** Data *)

#[local] Set Warnings "-register-all".

(** A parsed frame: what [JSON.parse] returns.  [JObj] lists the own
    properties of the object, each name once. *)
Inductive Json :=
  | JNull
  | JBool (b : bool)
  | JNum (n : Z)
  | JStr (s : string)
  | JArr (items : list Json)
  | JObj (fields : list (string * Json)).

(** An outbound message after [sendMessage] has stamped it.  The frame put
    on the wire is [JSON.stringify] of it, identified here with the message. *)
Record Message := mkMessage {
  msgType : string;
  msgPayload : Json;
  timestamp : Z;
  messageId : string
}.

Inductive ConnectionStatus :=
  | DISCONNECTED
  | CONNECTING
  | CONNECTED
  | RECONNECTING
  | FAILED.

Record WebSocketConfig := mkConfig {
  maxReconnectAttempts : Z;
  reconnectInterval : Z;
  maxReconnectInterval : Z;
  reconnectBackoffMultiplier : Z;
  heartbeatInterval : Z;
  messageQueueMaxSize : Z
}.

Definition defaultConfig : WebSocketConfig :=
  {| maxReconnectAttempts := 5;
     reconnectInterval := 1000;
     maxReconnectInterval := 30000;
     reconnectBackoffMultiplier := 2;
     heartbeatInterval := 30000;
     messageQueueMaxSize := 100 |}.

(** [ws.readyState] *)
Inductive ReadyState := WS_CONNECTING | WS_OPEN | WS_CLOSING | WS_CLOSED.

(** A [WebSocket] object of the [ws] library.  [sockKey] and [sockUrl] are
    the [key] and [url] its handlers close over, [sent] the frames handed to
    [ws.send] so far, and [acceptSend] the environment's answer to whether
    [ws.send] returns ([true]) or throws, given the frames sent so far. *)
Record Socket := mkSocket {
  sockKey : string;
  sockUrl : string;
  readyState : ReadyState;
  sent : list Message;
  acceptSend : list Message -> Message -> bool
}.

(** What [this.emit] hands to subscribers.  A field read from a frame is
    [None] when it is [undefined]. *)
Inductive Notification :=
  | EvStatusChanged (connectionKey : string) (status : ConnectionStatus)
  | EvConnected (key url : string)
  | EvInvalidMessageFormat (key : string)           (* 'error', ws.on('message') *)
  | EvConnectionError (connectionKey error : string) (* 'error', handleConnectionError *)
  | EvServerError (connectionKey : string) (code message details : option Json)
  | EvDisconnected (connectionKey : string) (code : Z) (reason : string)
  | EvConnectionFailed (connectionKey : string) (attempts : nat)
  | EvReconnectRequested (connectionKey : string) (attempts : nat)
  | EvSketchUpdated (connectionKey : string)
      (sketchName lastModified hasErrors : option Json)
  | EvExecutionComplete (connectionKey : string)
      (sketchName success executionTime previewUrl errorMessage : option Json)
  | EvServerStatus (connectionKey : string)
      (status memoryUsage activeConnections : option Json)
  | EvMessage (connectionKey : string) (message : Json).

(** One constructor for each [console] call of the class. *)
Inductive ConsoleLine :=
  | LogConnected (key : string)
  | ErrorParseFailed (key : string)
  | LogClosed (key : string) (code : Z) (reason : string)
  | ErrorSocket (key : string)
  | WarnUnknownType (type : option Json)
  | ErrorSendFailed (key : string)
  | LogFlushing (count : nat) (key : string)
  | ErrorQueuedSendFailed
  | LogReconnecting (key : string) (delay : Z) (attempt : nat) (max : Z)
  | ErrorReconnectionFailed (key : string)
  | ErrorHeartbeatFailed (key : string).

Inductive TimerKind :=
  | ReconnectTimer (key : string) (attempt : nat)  (* setTimeout in handleReconnection *)
  | HeartbeatTimer (key : string)                  (* setInterval in startHeartbeat *)
  | ConnectionTimeout (key : string) (ws : nat).   (* setTimeout in createConnection *)

(** A timer handle is its position in [timers].  [timerActive] is cleared by
    [clearTimeout]/[clearInterval] and when a one-shot timer has fired. *)
Record Timer := mkTimer {
  timerKind : TimerKind;
  timerDelay : Z;
  timerActive : bool
}.

(** The six maps and the configuration of the class, followed by the world
    it acts on: the sockets it has constructed (a socket is identified by its
    position), the timers it has armed, the notifications it has emitted and
    the console. *)
Record Manager := mkManager {
  connections : gmap string nat;
  connectionStatus : gmap string ConnectionStatus;
  reconnectAttempts : gmap string nat;
  reconnectTimers : gmap string nat;
  heartbeatTimers : gmap string nat;
  messageQueues : gmap string (list Message);
  config : WebSocketConfig;
  sockets : list Socket;
  timers : list Timer;
  emitted : list Notification;
  console : list ConsoleLine
}.

(** [constructor(config?: Partial<WebSocketConfig>)] *)
Record PartialConfig := mkPartial {
  maxReconnectAttempts' : option Z;
  reconnectInterval' : option Z;
  maxReconnectInterval' : option Z;
  reconnectBackoffMultiplier' : option Z;
  heartbeatInterval' : option Z;
  messageQueueMaxSize' : option Z
}.

Definition mergeConfig (p : PartialConfig) : WebSocketConfig :=
  {| maxReconnectAttempts := default 5 (maxReconnectAttempts' p);
     reconnectInterval := default 1000 (reconnectInterval' p);
     maxReconnectInterval := default 30000 (maxReconnectInterval' p);
     reconnectBackoffMultiplier := default 2 (reconnectBackoffMultiplier' p);
     heartbeatInterval := default 30000 (heartbeatInterval' p);
     messageQueueMaxSize := default 100 (messageQueueMaxSize' p) |}.

Definition newManager (cfg : WebSocketConfig) : Manager :=
  {| connections := ∅; connectionStatus := ∅; reconnectAttempts := ∅;
     reconnectTimers := ∅; heartbeatTimers := ∅; messageQueues := ∅;
     config := cfg; sockets := []; timers := []; emitted := []; console := [] |}.

(** ** Field updates *)

Definition setConnections (v : gmap string nat) (s : Manager) : Manager :=
  mkManager v (connectionStatus s) (reconnectAttempts s) (reconnectTimers s)
    (heartbeatTimers s) (messageQueues s) (config s) (sockets s) (timers s)
    (emitted s) (console s).

Definition setStatusMap (v : gmap string ConnectionStatus) (s : Manager) : Manager :=
  mkManager (connections s) v (reconnectAttempts s) (reconnectTimers s)
    (heartbeatTimers s) (messageQueues s) (config s) (sockets s) (timers s)
    (emitted s) (console s).

Definition setReconnectAttempts (v : gmap string nat) (s : Manager) : Manager :=
  mkManager (connections s) (connectionStatus s) v (reconnectTimers s)
    (heartbeatTimers s) (messageQueues s) (config s) (sockets s) (timers s)
    (emitted s) (console s).

Definition setReconnectTimers (v : gmap string nat) (s : Manager) : Manager :=
  mkManager (connections s) (connectionStatus s) (reconnectAttempts s) v
    (heartbeatTimers s) (messageQueues s) (config s) (sockets s) (timers s)
    (emitted s) (console s).

Definition setHeartbeatTimers (v : gmap string nat) (s : Manager) : Manager :=
  mkManager (connections s) (connectionStatus s) (reconnectAttempts s)
    (reconnectTimers s) v (messageQueues s) (config s) (sockets s) (timers s)
    (emitted s) (console s).

Definition setMessageQueues (v : gmap string (list Message)) (s : Manager) : Manager :=
  mkManager (connections s) (connectionStatus s) (reconnectAttempts s)
    (reconnectTimers s) (heartbeatTimers s) v (config s) (sockets s) (timers s)
    (emitted s) (console s).

Definition setSockets (v : list Socket) (s : Manager) : Manager :=
  mkManager (connections s) (connectionStatus s) (reconnectAttempts s)
    (reconnectTimers s) (heartbeatTimers s) (messageQueues s) (config s) v
    (timers s) (emitted s) (console s).

Definition setTimers (v : list Timer) (s : Manager) : Manager :=
  mkManager (connections s) (connectionStatus s) (reconnectAttempts s)
    (reconnectTimers s) (heartbeatTimers s) (messageQueues s) (config s)
    (sockets s) v (emitted s) (console s).

(** [this.emit(...)] *)
Definition emit (n : Notification) (s : Manager) : Manager :=
  mkManager (connections s) (connectionStatus s) (reconnectAttempts s)
    (reconnectTimers s) (heartbeatTimers s) (messageQueues s) (config s)
    (sockets s) (timers s) (emitted s ++ [n]) (console s).

(** [console.log], [console.warn], [console.error] *)
Definition print (line : ConsoleLine) (s : Manager) : Manager :=
  mkManager (connections s) (connectionStatus s) (reconnectAttempts s)
    (reconnectTimers s) (heartbeatTimers s) (messageQueues s) (config s)
    (sockets s) (timers s) (emitted s) (console s ++ [line]).

(** ** Timers and sockets *)

(** [setTimeout]/[setInterval]: the new handle is [length (timers s)]. *)
Definition armTimer (kind : TimerKind) (delay : Z) (s : Manager) : Manager :=
  setTimers (timers s ++ [mkTimer kind delay true]) s.

Definition disarm (t : Timer) : Timer :=
  mkTimer (timerKind t) (timerDelay t) false.

(** [clearTimeout]/[clearInterval] *)
Definition clearTimer (handle : nat) (s : Manager) : Manager :=
  setTimers (alter disarm handle (timers s)) s.

Definition withReadyState (r : ReadyState) (sock : Socket) : Socket :=
  mkSocket (sockKey sock) (sockUrl sock) r (sent sock) (acceptSend sock).

Definition withSent (frames : list Message) (sock : Socket) : Socket :=
  mkSocket (sockKey sock) (sockUrl sock) (readyState sock) frames (acceptSend sock).

(** [ws.send(frame)]: [None] when it throws. *)
Definition wsSend (frame : Message) (sock : Socket) : option Socket :=
  if acceptSend sock (sent sock) frame
  then Some (withSent (sent sock ++ [frame]) sock)
  else None.

(** [ws.close(...)]: starts the closing handshake. *)
Definition wsClose (sock : Socket) : Socket :=
  match readyState sock with
  | WS_CLOSED => sock
  | _ => withReadyState WS_CLOSING sock
  end.

Definition isOpen (s : Manager) (ws : nat) : bool :=
  match sockets s !! ws with
  | Some sock => match readyState sock with WS_OPEN => true | _ => false end
  | None => false
  end.

(** ** Status and attempts *)

(** [isConnected(connectionKey)] *)
Definition isConnected (s : Manager) (connectionKey : string) : bool :=
  match connections s !! connectionKey with
  | Some ws => isOpen s ws
  | None => false
  end.

(** [getConnectionStatus]: [get(key) || DISCONNECTED]; every status is a
    non-empty string and so truthy. *)
Definition getConnectionStatus (s : Manager) (connectionKey : string) : ConnectionStatus :=
  default DISCONNECTED (connectionStatus s !! connectionKey).

Definition setConnectionStatus (connectionKey : string) (status : ConnectionStatus)
    (s : Manager) : Manager :=
  emit (EvStatusChanged connectionKey status)
    (setStatusMap (<[connectionKey := status]> (connectionStatus s)) s).

(** [getReconnectAttempts]: [get(key) || 0] *)
Definition getReconnectAttempts (s : Manager) (connectionKey : string) : nat :=
  default 0%nat (reconnectAttempts s !! connectionKey).

Definition statusIs (a b : ConnectionStatus) : bool :=
  match a, b with
  | DISCONNECTED, DISCONNECTED | CONNECTING, CONNECTING | CONNECTED, CONNECTED
  | RECONNECTING, RECONNECTING | FAILED, FAILED => true
  | _, _ => false
  end.

(** ** Heartbeat *)

(** [stopHeartbeat] *)
Definition stopHeartbeat (connectionKey : string) (s : Manager) : Manager :=
  match heartbeatTimers s !! connectionKey with
  | Some timer =>
      let s := clearTimer timer s in
      setHeartbeatTimers (delete connectionKey (heartbeatTimers s)) s
  | None => s
  end.

(** [startHeartbeat] *)
Definition startHeartbeat (connectionKey : string) (s : Manager) : Manager :=
  let timer := length (timers s) in
  let s := armTimer (HeartbeatTimer connectionKey) (heartbeatInterval (config s)) s in
  setHeartbeatTimers (<[connectionKey := timer]> (heartbeatTimers s)) s.

Definition pingMessage (uuid : string) (now : Z) : Message :=
  {| msgType := "ping"; msgPayload := JObj []; timestamp := now; messageId := uuid |}.

(** The callback of the heartbeat interval. *)
Definition heartbeatTick (connectionKey uuid : string) (now : Z) (s : Manager) : Manager :=
  match connections s !! connectionKey with
  | Some ws =>
      match sockets s !! ws with
      | Some sock =>
          match readyState sock with
          | WS_OPEN =>
              match wsSend (pingMessage uuid now) sock with
              | Some sock' => setSockets (<[ws := sock']> (sockets s)) s
              | None =>
                  stopHeartbeat connectionKey
                    (print (ErrorHeartbeatFailed connectionKey) s)
              end
          | _ => stopHeartbeat connectionKey s
          end
      | None => stopHeartbeat connectionKey s
      end
  | None => stopHeartbeat connectionKey s
  end.

(** ** The message queue *)

(** [queueMessage]: [push], then [shift] when the length exceeds the limit.
    The array is the one stored in the map, so the map sees both. *)
Definition queueMessage (connectionKey : string) (message : Message) (s : Manager) : Manager :=
  let queue := default [] (messageQueues s !! connectionKey) in
  let queue := queue ++ [message] in
  let queue :=
    if Z.of_nat (length queue) >? messageQueueMaxSize (config s)
    then tail queue
    else queue in
  setMessageQueues (<[connectionKey := queue]> (messageQueues s)) s.

(** The [while (queue.length > 0)] loop of [flushMessageQueue]: the socket
    and the queue when the loop ends, and whether a send threw. *)
Fixpoint flushLoop (sock : Socket) (queue : list Message) : Socket * list Message * bool :=
  match queue with
  | [] => (sock, [], false)
  | message :: rest =>            (* queue.shift() *)
      match wsSend message sock with
      | Some sock' => flushLoop sock' rest
      | None => (sock, message :: rest, true)   (* queue.unshift(message); break *)
      end
  end.

(** [flushMessageQueue] *)
Definition flushMessageQueue (connectionKey : string) (s : Manager) : Manager :=
  match messageQueues s !! connectionKey with
  | None | Some [] => s
  | Some queue =>
      match connections s !! connectionKey with
      | None => s
      | Some ws =>
          match sockets s !! ws with
          | None => s
          | Some sock =>
              match readyState sock with
              | WS_OPEN =>
                  let s := print (LogFlushing (length queue) connectionKey) s in
                  let '(sock', remaining, threw) := flushLoop sock queue in
                  let s := if threw : bool then print ErrorQueuedSendFailed s else s in
                  let s := setSockets (<[ws := sock']> (sockets s)) s in
                  setMessageQueues (<[connectionKey := remaining]> (messageQueues s)) s
              | _ => s
              end
          end
      end
  end.

Inductive Completion := Returned | Threw.

(** [sendMessage]: stamps the message, then sends it when the stored socket
    is open and queues it otherwise.  [uuid] and [now] are the values of
    [uuidv4()] and [Date.now()]. *)
Definition sendMessage (connectionKey type : string) (payload : Json)
    (uuid : string) (now : Z) (s : Manager) : Completion * Manager :=
  let fullMessage :=
    {| msgType := type; msgPayload := payload; timestamp := now; messageId := uuid |} in
  match connections s !! connectionKey with
  | Some ws =>
      match sockets s !! ws with
      | Some sock =>
          match readyState sock with
          | WS_OPEN =>
              match wsSend fullMessage sock with
              | Some sock' => (Returned, setSockets (<[ws := sock']> (sockets s)) s)
              | None => (Threw, print (ErrorSendFailed connectionKey) s)
              end
          | _ => (Returned, queueMessage connectionKey fullMessage s)
          end
      | None => (Returned, queueMessage connectionKey fullMessage s)
      end
  | None => (Returned, queueMessage connectionKey fullMessage s)
  end.

(** ** Reconnection *)

(** [handleReconnection] *)
Definition handleReconnection (connectionKey : string) (s : Manager) : Manager :=
  let attempts := getReconnectAttempts s connectionKey in
  if Z.of_nat attempts >=? maxReconnectAttempts (config s) then
    emit (EvConnectionFailed connectionKey attempts)
      (setConnectionStatus connectionKey FAILED s)
  else
    let s := setConnectionStatus connectionKey RECONNECTING s in
    let s := setReconnectAttempts
               (<[connectionKey := (attempts + 1)%nat]> (reconnectAttempts s)) s in
    let delay :=
      Z.min (reconnectInterval (config s)
             * reconnectBackoffMultiplier (config s) ^ Z.of_nat attempts)
            (maxReconnectInterval (config s)) in
    let s := print (LogReconnecting connectionKey delay (attempts + 1)
                      (maxReconnectAttempts (config s))) s in
    let timer := length (timers s) in
    let s := armTimer (ReconnectTimer connectionKey (attempts + 1)) delay s in
    setReconnectTimers (<[connectionKey := timer]> (reconnectTimers s)) s.

(** The callback of the reconnect timer.  [listenerThrows] says whether a
    subscriber of 'reconnectRequested' throws, which is what the [catch]
    of the callback handles. *)
Definition reconnectTick (connectionKey : string) (attempt : nat)
    (listenerThrows : bool) (s : Manager) : Manager :=
  let s := setReconnectTimers (delete connectionKey (reconnectTimers s)) s in
  let s := emit (EvReconnectRequested connectionKey attempt) s in
  if listenerThrows
  then handleReconnection connectionKey
         (print (ErrorReconnectionFailed connectionKey) s)
  else s.

(** [handleConnectionClose] *)
Definition handleConnectionClose (connectionKey : string) (code : Z) (reason : string)
    (s : Manager) : Manager :=
  let s := setConnections (delete connectionKey (connections s)) s in
  let s := stopHeartbeat connectionKey s in
  if (code =? 1000)
     || (Z.of_nat (getReconnectAttempts s connectionKey)
           >=? maxReconnectAttempts (config s))
  then emit (EvDisconnected connectionKey code reason)
         (setConnectionStatus connectionKey DISCONNECTED s)
  else handleReconnection connectionKey s.

(** [handleConnectionError] *)
Definition handleConnectionError (connectionKey error : string) (s : Manager) : Manager :=
  let s := emit (EvConnectionError connectionKey error) s in
  if statusIs (getConnectionStatus s connectionKey) CONNECTED
  then handleReconnection connectionKey s
  else s.

(** ** Inbound messages *)

(** [v.name] on a value that is neither [null] nor [undefined]: [None] is
    [undefined]. *)
Definition property (name : string) (v : Json) : option Json :=
  match v with
  | JObj fields => snd <$> find (fun f => String.eqb (fst f) name) fields
  | _ => None
  end.

(** [v.name] on any value: the outer [None] is the [TypeError] of reading a
    property of [null] or [undefined]. *)
Definition member (name : string) (v : option Json) : option (option Json) :=
  match v with
  | None | Some JNull => None
  | Some j => Some (property name j)
  end.

(** [t === name] *)
Definition typeIs (t : option Json) (name : string) : bool :=
  match t with
  | Some (JStr s) => String.eqb s name
  | _ => false
  end.

(** [handleMessage].  [None]: a [TypeError] was thrown; this happens while
    the argument of [emit] is being built, before anything has changed. *)
Definition handleMessage (connectionKey : string) (message : Json) (s : Manager)
  : option Manager :=
  type ← member "type" (Some message);
  if typeIs type "pong" then Some s
  else
    let payload := property "payload" message in
    let field name := member name payload in
    s ←
      (if typeIs type "sketch_updated" then
         sketchName ← field "sketchName";
         lastModified ← field "lastModified";
         hasErrors ← field "hasErrors";
         Some (emit (EvSketchUpdated connectionKey sketchName lastModified hasErrors) s)
       else if typeIs type "execution_complete" then
         sketchName ← field "sketchName";
         success ← field "success";
         executionTime ← field "executionTime";
         previewUrl ← field "previewUrl";
         errorMessage ← field "errorMessage";
         Some (emit (EvExecutionComplete connectionKey sketchName success
                       executionTime previewUrl errorMessage) s)
       else if typeIs type "server_status" then
         status ← field "status";
         memoryUsage ← field "memoryUsage";
         activeConnections ← field "activeConnections";
         Some (emit (EvServerStatus connectionKey status memoryUsage
                       activeConnections) s)
       else if typeIs type "error" then
         code ← field "code";
         message ← field "message";
         details ← field "details";
         Some (emit (EvServerError connectionKey code message details) s)
       else Some (print (WarnUnknownType type) s));
    Some (emit (EvMessage connectionKey message) s).

(** The [ws.on('message')] handler; [data] is [None] when [JSON.parse]
    throws. *)
Definition onMessage (key : string) (data : option Json) (s : Manager) : Manager :=
  let failed := emit (EvInvalidMessageFormat key) (print (ErrorParseFailed key) s) in
  match data with
  | Some message => default failed (handleMessage key message s)
  | None => failed
  end.

(** ** Opening connections *)

(** [encodeURIComponent] on a string read as UTF-8 bytes: the unreserved
    characters stay, every other byte becomes [%XX]. *)
Definition isUnreserved (a : ascii) : bool :=
  let n := Z.of_nat (nat_of_ascii a) in
  ((48 <=? n) && (n <=? 57)) || ((65 <=? n) && (n <=? 90))
  || ((97 <=? n) && (n <=? 122))
  || bool_decide (a ∈ ["-"; "_"; "."; "!"; "~"; "*"; "'"; "("; ")"]%char).

Definition hexDigit (n : nat) : ascii :=
  ascii_of_nat (if (n <? 10)%nat then 48 + n else 55 + n)%nat.

Fixpoint encodeURIComponent (s : string) : string :=
  match s with
  | EmptyString => EmptyString
  | String a rest =>
      if isUnreserved a then String a (encodeURIComponent rest)
      else
        let n := nat_of_ascii a in
        String "%" (String (hexDigit (n / 16)) (String (hexDigit (n mod 16))
          (encodeURIComponent rest)))
  end.

(** What a connect call hands back: the socket already stored for the key,
    or the promise of a socket it has just constructed ([Rejected]: the
    constructor threw). *)
Inductive Handle :=
  | Existing (ws : nat)
  | Created (ws : nat)
  | ConstructorThrew.

(** [createConnection].  [behaviour] is the environment's side of
    [new WebSocket(url, ...)]: [None] when the constructor throws, else how
    the new socket will answer [send]. *)
Definition createConnection (key url : string)
    (behaviour : option (list Message -> Message -> bool)) (s : Manager)
  : Handle * Manager :=
  let s := setConnectionStatus key CONNECTING s in
  match behaviour with
  | Some accept =>
      let ws := length (sockets s) in
      let s := setSockets (sockets s ++ [mkSocket key url WS_CONNECTING [] accept]) s in
      (Created ws, armTimer (ConnectionTimeout key ws) 10000 s)
  | None => (ConstructorThrew, s)
  end.

(** [connectToSketch] *)
Definition connectToSketch (sketchName baseUrl : string)
    (behaviour : option (list Message -> Message -> bool)) (s : Manager)
  : Handle * Manager :=
  let connectionKey := ("sketch-" +:+ sketchName)%string in
  match (if isConnected s connectionKey then connections s !! connectionKey else None) with
  | Some ws => (Existing ws, s)
  | None =>
      createConnection connectionKey
        (baseUrl +:+ "/ws/sketches/" +:+ encodeURIComponent sketchName)%string
        behaviour s
  end.

(** [connectToServer] *)
Definition connectToServer (baseUrl : string)
    (behaviour : option (list Message -> Message -> bool)) (s : Manager)
  : Handle * Manager :=
  let connectionKey := "server"%string in
  match (if isConnected s connectionKey then connections s !! connectionKey else None) with
  | Some ws => (Existing ws, s)
  | None => createConnection connectionKey (baseUrl +:+ "/ws/server")%string behaviour s
  end.

(** ** Socket event handlers

    Each handler closes over the [key], [url] and [ws] of the
    [createConnection] activation that installed it. *)

(** [ws.on('open')] *)
Definition onOpen (ws : nat) (key url : string) (s : Manager) : Manager :=
  let s := print (LogConnected key) s in
  let s := setConnectionStatus key CONNECTED s in
  let s := setConnections (<[key := ws]> (connections s)) s in
  let s := setReconnectAttempts (<[key := 0%nat]> (reconnectAttempts s)) s in
  let s := startHeartbeat key s in
  let s := flushMessageQueue key s in
  emit (EvConnected key url) s.

(** [ws.on('close')] *)
Definition onClose (key : string) (code : Z) (reason : string) (s : Manager) : Manager :=
  handleConnectionClose key code reason (print (LogClosed key code reason) s).

(** [ws.on('error')]; the [reject] that follows changes no state. *)
Definition onError (key error : string) (s : Manager) : Manager :=
  handleConnectionError key error (print (ErrorSocket key) s).

(** The callback of the 10 s connection timeout. *)
Definition connectionTimeoutTick (key : string) (ws : nat) (s : Manager) : Manager :=
  if statusIs (getConnectionStatus s key) CONNECTING
  then setSockets (alter wsClose ws (sockets s)) s
  else s.

(** ** Closing *)

(** [cleanup] *)
Definition cleanup (connectionKey : string) (s : Manager) : Manager :=
  let s := setConnections (delete connectionKey (connections s)) s in
  let s := setStatusMap (delete connectionKey (connectionStatus s)) s in
  let s := setReconnectAttempts (delete connectionKey (reconnectAttempts s)) s in
  let s := setMessageQueues (delete connectionKey (messageQueues s)) s in
  let s := stopHeartbeat connectionKey s in
  match reconnectTimers s !! connectionKey with
  | Some reconnectTimer =>
      let s := clearTimer reconnectTimer s in
      setReconnectTimers (delete connectionKey (reconnectTimers s)) s
  | None => s
  end.

(** [closeConnection] *)
Definition closeConnection (connectionKey : string) (s : Manager) : Manager :=
  let s :=
    match connections s !! connectionKey with
    | Some ws => setSockets (alter wsClose ws (sockets s)) s
    | None => s
    end in
  cleanup connectionKey s.

(** [closeAllConnections]: [closeConnection] for every key of
    [connections].  (The source visits the keys in insertion order; the
    handlers of distinct keys touch distinct entries.) *)
Definition closeAllConnections (s : Manager) : Manager :=
  foldr closeConnection s (fst <$> map_to_list (connections s)).

(** [dispose]; [removeAllListeners] changes none of the modelled state. *)
Definition dispose (s : Manager) : Manager := closeAllConnections s.

(** ** Runs *)

(** Everything that can happen to a manager: a call of its public API, an
    event of one of its sockets, or a timer that fires. *)
Inductive Action :=
  | ConnectToSketch (sketchName baseUrl : string)
      (behaviour : option (list Message -> Message -> bool))
  | ConnectToServer (baseUrl : string)
      (behaviour : option (list Message -> Message -> bool))
  | SendMessage (connectionKey type : string) (payload : Json) (uuid : string) (now : Z)
  | CloseConnection (connectionKey : string)
  | CloseAllConnections
  | Dispose
  | WsOpen (ws : nat)
  | WsMessage (ws : nat) (data : option Json)
  | WsClose (ws : nat) (code : Z) (reason : string)
  | WsError (ws : nat) (error : string)
  | TimerFires (handle : nat) (uuid : string) (now : Z) (listenerThrows : bool).

(** A timer that fires: one-shot timers are spent, intervals stay armed. *)
Definition fireTimer (handle : nat) (uuid : string) (now : Z) (listenerThrows : bool)
    (s : Manager) : Manager :=
  match timers s !! handle with
  | Some t =>
      if timerActive t then
        match timerKind t with
        | ReconnectTimer key attempt =>
            reconnectTick key attempt listenerThrows (clearTimer handle s)
        | HeartbeatTimer key => heartbeatTick key uuid now s
        | ConnectionTimeout key ws => connectionTimeoutTick key ws (clearTimer handle s)
        end
      else s
  | None => s
  end.

(** The library moves [readyState] before it calls the handler: to [OPEN]
    for 'open' (from [CONNECTING] only), to [CLOSED] for 'close'. *)
Definition step (a : Action) (s : Manager) : Manager :=
  match a with
  | ConnectToSketch sketchName baseUrl behaviour =>
      snd (connectToSketch sketchName baseUrl behaviour s)
  | ConnectToServer baseUrl behaviour => snd (connectToServer baseUrl behaviour s)
  | SendMessage connectionKey type payload uuid now =>
      snd (sendMessage connectionKey type payload uuid now s)
  | CloseConnection connectionKey => closeConnection connectionKey s
  | CloseAllConnections => closeAllConnections s
  | Dispose => dispose s
  | WsOpen ws =>
      match sockets s !! ws with
      | Some sock =>
          match readyState sock with
          | WS_CONNECTING =>
              onOpen ws (sockKey sock) (sockUrl sock)
                (setSockets (<[ws := withReadyState WS_OPEN sock]> (sockets s)) s)
          | _ => s
          end
      | None => s
      end
  | WsMessage ws data =>
      match sockets s !! ws with
      | Some sock => onMessage (sockKey sock) data s
      | None => s
      end
  | WsClose ws code reason =>
      match sockets s !! ws with
      | Some sock =>
          match readyState sock with
          | WS_CLOSED => s
          | _ =>
              onClose (sockKey sock) code reason
                (setSockets (<[ws := withReadyState WS_CLOSED sock]> (sockets s)) s)
          end
      | None => s
      end
  | WsError ws error =>
      match sockets s !! ws with
      | Some sock => onError (sockKey sock) error s
      | None => s
      end
  | TimerFires handle uuid now listenerThrows =>
      fireTimer handle uuid now listenerThrows s
  end.

Definition run (actions : list Action) (s : Manager) : Manager :=
  foldl (fun s a => step a s) s actions.

(** A socket whose [send] never throws. *)
Definition reliable : list Message -> Message -> bool := fun _ _ => true.

(** ** Vocabulary of the statements *)

(** [frames], sent in this order on a socket whose log is [log], are all
    accepted. *)
Fixpoint acceptsAll (accept : list Message -> Message -> bool)
    (log frames : list Message) : bool :=
  match frames with
  | [] => true
  | frame :: rest => accept log frame && acceptsAll accept (log ++ [frame]) rest
  end.

(** [a] is the 'open' event of a socket created for [key]. *)
Definition opens (s : Manager) (a : Action) (key : string) : Prop :=
  exists ws sock,
    a = WsOpen ws /\ sockets s !! ws = Some sock /\
    sockKey sock = key /\ readyState sock = WS_CONNECTING.

(** [a] releases the state of [key] through [cleanup]. *)
Definition releases (a : Action) (key : string) : Prop :=
  a = CloseConnection key \/ a = CloseAllConnections \/ a = Dispose.

Definition isConnectionFailed (n : Notification) : bool :=
  match n with EvConnectionFailed _ _ => true | _ => false end.

(** The 'error' notifications, the only diagnostics the emitter has. *)
Definition isErrorNotification (n : Notification) : bool :=
  match n with
  | EvInvalidMessageFormat _ | EvConnectionError _ _ | EvServerError _ _ _ _ => true
  | _ => false
  end.

(** The types [handleMessage] has a branch for. *)
Definition handledTypes : list string :=
  ["pong"; "sketch_updated"; "execution_complete"; "server_status"; "error"]%string.

(** The delays of the reconnect timers armed so far for [key]. *)
Definition reconnectDelaysFor (key : string) (s : Manager) : list Z :=
  omap (fun t => match timerKind t with
                 | ReconnectTimer k _ =>
                     if decide (k = key) then Some (timerDelay t) else None
                 | _ => None
                 end) (timers s).

(** [s'] differs from [s] at most in what was emitted and printed. *)
Definition SameButOutput (s s' : Manager) : Prop :=
  connections s' = connections s /\
  connectionStatus s' = connectionStatus s /\
  reconnectAttempts s' = reconnectAttempts s /\
  reconnectTimers s' = reconnectTimers s /\
  heartbeatTimers s' = heartbeatTimers s /\
  messageQueues s' = messageQueues s /\
  config s' = config s /\
  sockets s' = sockets s /\
  timers s' = timers s.

(** [s'] has the counters, queues, configuration and reconnect timers of
    [s]. *)
Definition Quiet (s s' : Manager) : Prop :=
  reconnectAttempts s' = reconnectAttempts s /\
  messageQueues s' = messageQueues s /\
  config s' = config s /\
  (forall key, reconnectDelaysFor key s' = reconnectDelaysFor key s).

(** [s'] comes from [s] by steps that may run [handleReconnection]: queues
    and configuration are those of [s], no counter has gone back to 0, and
    no reconnect timer was armed for a key whose counter was exhausted. *)
Definition Retrying (s s' : Manager) : Prop :=
  messageQueues s' = messageQueues s /\
  config s' = config s /\
  (forall key, getReconnectAttempts s' key = 0%nat -> getReconnectAttempts s key = 0%nat) /\
  (forall key,
     maxReconnectAttempts (config s) <= Z.of_nat (getReconnectAttempts s key) ->
     reconnectDelaysFor key s' = reconnectDelaysFor key s /\
     getReconnectAttempts s' key = getReconnectAttempts s key).

Definition timerKey (kind : TimerKind) : string :=
  match kind with
  | ReconnectTimer key _ | HeartbeatTimer key | ConnectionTimeout key _ => key
  end.

(** The key a connect call is for. *)
Definition connectKey (a : Action) : option string :=
  match a with
  | ConnectToSketch sketchName _ _ => Some ("sketch-" +:+ sketchName)%string
  | ConnectToServer _ _ => Some "server"%string
  | _ => None
  end.

(** The manager holds nothing for [key]: no status, no socket, no timer. *)
Definition Unknown (key : string) (s : Manager) : Prop :=
  connectionStatus s !! key = None /\
  Forall (fun sock => sockKey sock <> key) (sockets s) /\
  Forall (fun t => timerKey (timerKind t) <> key) (timers s).

(** [a] opens a socket or closes connections. *)
Definition restarts (a : Action) : bool :=
  match a with
  | WsOpen _ | CloseConnection _ | CloseAllConnections | Dispose => true
  | _ => false
  end.

(** The backoff delay before retry attempt [k], counted from 1. *)
Definition backoff (cfg : WebSocketConfig) (k : nat) : Z :=
  Z.min (reconnectInterval cfg * reconnectBackoffMultiplier cfg ^ (Z.of_nat k - 1))
        (maxReconnectInterval cfg).

(** [s'] has the configuration and the reconnect timers of [s]. *)
Definition Calm (s s' : Manager) : Prop :=
  config s' = config s /\
  (forall key, reconnectDelaysFor key s' = reconnectDelaysFor key s).

Definition QueuesBounded (s : Manager) : Prop :=
  forall key queue,
    messageQueues s !! key = Some queue ->
    Z.of_nat (length queue) <= messageQueueMaxSize (config s).

(** One failed reconnection: the reconnect timer [timer] fires, the
    subscriber of 'reconnectRequested' calls [connectToServer], and the new
    socket [ws] reports an error and closes abnormally. *)
Definition failedReconnect (timer ws : nat) : list Action :=
  [TimerFires timer "" 0 false;
   ConnectToServer "ws://localhost:8083" (Some reliable);
   WsError ws "ECONNREFUSED";
   WsClose ws 1006 ""].

(** The server connection opens, is lost, and three reconnections fail,
    under [maxReconnectAttempts = 3]. *)
Definition exhaustedRun : Manager :=
  run ([ConnectToServer "ws://localhost:8083" (Some reliable);
        WsOpen 0; WsClose 0 1006 ""]
       ++ failedReconnect 2 1 ++ failedReconnect 4 2 ++ failedReconnect 6 3)
      (newManager (mkConfig 3 1000 30000 2 30000 100)).

(** The server connection opens and is lost once, under the default
    configuration. *)
Definition lostOnce : Manager :=
  run [ConnectToServer "ws://localhost:8083" (Some reliable);
       WsOpen 0; WsClose 0 1006 ""]
      (newManager defaultConfig).

(** Two messages are sent before the server connection exists, then
    [connectToServer] constructs socket 0, which has not opened yet. *)
Definition queuedBeforeOpen : Manager :=
  run [SendMessage "server" "execute" JNull "id-1" 1;
       SendMessage "server" "export" JNull "id-2" 2;
       ConnectToServer "ws://localhost:8083" (Some reliable)]
      (newManager defaultConfig).

Definition pendingServerSocket : Socket :=
  mkSocket "server" "ws://localhost:8083/ws/server" WS_CONNECTING [] reliable.

(** The delays of the reconnect timers armed so far, oldest first. *)
Definition reconnectDelays (s : Manager) : list Z :=
  omap (fun t => match timerKind t with
                 | ReconnectTimer _ _ => Some (timerDelay t)
                 | _ => None
                 end) (timers s).

(** ** Statistics *)

Record ConnectionStats := mkStats {
  totalConnections : nat;
  activeConnections : nat;
  queuedMessages : nat;
  reconnectingConnections : nat
}.

(** [getConnectionStats]: the loop runs over the keys of [connections]. *)
Definition getConnectionStats (s : Manager) : ConnectionStats :=
  let keys := (map_to_list (connections s)).*1 in
  {| totalConnections := size (connections s);
     activeConnections := length (filter (fun key => isConnected s key = true) keys);
     queuedMessages :=
       sum_list ((fun key => length (default [] (messageQueues s !! key))) <$> keys);
     reconnectingConnections :=
       length (filter (fun key => statusIs (getConnectionStatus s key) RECONNECTING = true)
                 keys) |}.

(** ** More vocabulary *)

(** [sendMessage] for a message given with its stamp. *)
Definition sendStamped (connectionKey : string) (m : Message) (s : Manager)
  : Completion * Manager :=
  sendMessage connectionKey (msgType m) (msgPayload m) (messageId m) (timestamp m) s.

(** The last [n] elements of a list. *)
Definition takeLast {A} (n : nat) (l : list A) : list A := drop (length l - n) l.

(** [s'] has the connections, statuses, counters, notifications and
    configuration of [s]. *)
Definition SameCore (s s' : Manager) : Prop :=
  connections s' = connections s /\
  connectionStatus s' = connectionStatus s /\
  reconnectAttempts s' = reconnectAttempts s /\
  emitted s' = emitted s /\
  config s' = config s.

(** A connected key has a stored socket and a counter at 0; no key has
    failed, and no 'connectionFailed' was emitted. *)
Definition Sound (s : Manager) : Prop :=
  (forall key,
     connectionStatus s !! key = Some CONNECTED ->
     reconnectAttempts s !! key = Some 0%nat /\ is_Some (connections s !! key)) /\
  (forall key, connectionStatus s !! key <> Some FAILED) /\
  Forall (fun n => isConnectionFailed n = false) (emitted s).

(** The key an action is about: the argument of a call, the key the
    handlers of a socket close over, the key a timer was armed for.
    [closeAllConnections] and [dispose] are about every key. *)
Definition actionKey (s : Manager) (a : Action) : option string :=
  match a with
  | ConnectToSketch sketchName _ _ => Some ("sketch-" +:+ sketchName)%string
  | ConnectToServer _ _ => Some "server"%string
  | SendMessage connectionKey _ _ _ _ => Some connectionKey
  | CloseConnection connectionKey => Some connectionKey
  | CloseAllConnections | Dispose => None
  | WsOpen ws | WsMessage ws _ | WsClose ws _ _ | WsError ws _ =>
      sockKey <$> sockets s !! ws
  | TimerFires handle _ _ _ => (fun t => timerKey (timerKind t)) <$> timers s !! handle
  end.

(** The six maps of [s'] hold for [key] what those of [s] hold. *)
Definition SameAt (key : string) (s s' : Manager) : Prop :=
  connections s' !! key = connections s !! key /\
  connectionStatus s' !! key = connectionStatus s !! key /\
  reconnectAttempts s' !! key = reconnectAttempts s !! key /\
  reconnectTimers s' !! key = reconnectTimers s !! key /\
  heartbeatTimers s' !! key = heartbeatTimers s !! key /\
  messageQueues s' !! key = messageQueues s !! key.

(** No attempt counter is above the limit of the configuration. *)
Definition AttemptsCapped (s : Manager) : Prop :=
  forall key,
    Z.of_nat (getReconnectAttempts s key) <= Z.max 0 (maxReconnectAttempts (config s)).

(** [s'] has the sockets of [s], each with its key and URL, and no
    others. *)
Definition SameSockets (s s' : Manager) : Prop :=
  length (sockets s') = length (sockets s) /\
  forall ws sock,
    sockets s !! ws = Some sock ->
    exists sock', sockets s' !! ws = Some sock' /\
                  sockKey sock' = sockKey sock /\ sockUrl sock' = sockUrl sock.

(** No subscriber throws out of 'reconnectRequested'. *)
Definition listenersReturn (a : Action) : bool :=
  match a with
  | TimerFires _ _ _ listenerThrows => negb listenerThrows
  | _ => true
  end.

End TypeSafeWebSocketManager.

(* ================================================================== *)
(** * The server manager's use of the request client *)
(* ================================================================== *)

Module ServerManager.

(** What one probe of [waitForServerReady] sees: [getHealth] of a fresh
    client resolves with a status, or throws. *)
Inductive Probe :=
  | Healthy
  | Unhealthy
  | Starting
  | ProbeThrew.

Inductive WaitEffect :=
  | Probed (attempt : nat)
  | Slept (ms : Z).

(** The [for] loop of [waitForServerReady], from [attempt] on, with
    [remaining] iterations left. *)
Fixpoint waitFrom (probe : nat -> Probe) (attempt remaining : nat)
  : list WaitEffect * bool :=
  match remaining with
  | O => ([], false)
  | S remaining =>
      match probe attempt with
      | Healthy => ([Probed attempt], true)
      | _ =>
          let (effects, ready) := waitFrom probe (S attempt) remaining in
          (Probed attempt :: Slept 1000 :: effects, ready)
      end
  end.

(** [waitForServerReady]: [maxAttempts = 30], [interval = 1000]. *)
Definition waitForServerReady (probe : nat -> Probe) : list WaitEffect * bool :=
  waitFrom probe 0 30.

Definition isHealthy (p : Probe) : bool :=
  match p with Healthy => true | _ => false end.

Definition probes (effects : list WaitEffect) : list nat :=
  omap (fun e => match e with Probed n => Some n | Slept _ => None end) effects.

Definition sleepTotal (effects : list WaitEffect) : Z :=
  foldr (fun e acc => match e with Slept ms => ms + acc | Probed _ => acc end) 0 effects.

End ServerManager.

(* ================================================================== *)
(** * Properties of the request client *)
(* ================================================================== *)

Module RequestClientTheory.
Import TypeSafeAPIClient.

Section Deduplication.

Context {T E : Type}.
Implicit Types (c : Client T E) (e : Event T E) (es : list (Event T E)).

Lemma coherent_new : Coherent (newClient : Client T E).
Proof.
  split; cbn.
  - intros k p H. by rewrite lookup_empty in H.
  - intros p k H. by rewrite lookup_nil in H.
  - intros i k H. by rewrite lookup_nil in H.
  - constructor.
Qed.

Lemma coherent_request key c :
  Coherent c -> Coherent (deduplicatedRequest key c).2.
Proof.
  intros [Hk Hp Ht Hn]. unfold deduplicatedRequest.
  destruct (requestDeduplication c !! key) as [p0|] eqn:Hkey; cbn; [by split|].
  split; cbn.
  - intros k p. rewrite lookup_insert. case_decide as Hd.
    + intros [= <-]. subst k. exists None. by rewrite list_lookup_middle.
    + intros Hl. destruct (Hk _ _ Hl) as [o Ho]. exists o.
      rewrite lookup_app_l; [done|]. by eapply lookup_lt_Some.
  - intros p k Hl. apply lookup_app_Some in Hl as [Hl|[Hge Hl]].
    + specialize (Hp _ _ Hl). rewrite lookup_insert_ne; [done|]. congruence.
    + apply list_lookup_singleton_Some in Hl as [Hz [= <-]].
      rewrite lookup_insert_eq. f_equal. lia.
  - intros i k Hl. destruct (Ht _ _ Hl) as (p & o & Hm & Hpr).
    exists p, o. split.
    + rewrite lookup_insert_ne; [done|]. congruence.
    + rewrite lookup_app_l; [done|]. by eapply lookup_lt_Some.
  - done.
Qed.

Lemma coherent_settle p o c : Coherent c -> Coherent (settle p o c).
Proof.
  intros [Hk Hp Ht Hn]. unfold settle.
  destruct (promises c !! p) as [[key [old|]]|] eqn:Hprom; [by split| |by split].
  pose proof (lookup_lt_Some _ _ _ Hprom) as Hlt.
  split; cbn.
  - intros k q Hl. destruct (Hk _ _ Hl) as [o' Ho'].
    destruct (decide (p = q)) as [->|Hne].
    + rewrite list_lookup_insert_eq; [|done]. exists (Some o). congruence.
    + rewrite list_lookup_insert_ne; eauto.
  - intros q k Hl. destruct (decide (p = q)) as [->|Hne].
    + rewrite list_lookup_insert_eq in Hl; [congruence|done].
    + rewrite list_lookup_insert_ne in Hl; eauto.
  - intros i k Hl. apply lookup_app_Some in Hl as [Hl|[Hge Hl]].
    + destruct (Ht _ _ Hl) as (q & o' & Hm & Hq). exists q, o'. split; [done|].
      rewrite list_lookup_insert_ne; [done|]. congruence.
    + apply list_lookup_singleton_Some in Hl as [Hz <-].
      exists p, o. split; [by apply Hp|]. by rewrite list_lookup_insert_eq.
  - apply NoDup_app. split_and!; [done| |apply NoDup_singleton].
    intros k Hin ->%list_elem_of_singleton.
    apply list_elem_of_lookup in Hin as [i Hi].
    destruct (Ht _ _ Hi) as (q & o' & Hm & Hq).
    rewrite (Hp _ _ Hprom) in Hm. congruence.
Qed.

Lemma coherent_fireCleanup i c : Coherent c -> Coherent (fireCleanup i c).
Proof.
  intros [Hk Hp Ht Hn]. unfold fireCleanup.
  destruct (cleanupTimers c !! i) as [key|] eqn:Htimer; [|by split].
  split; cbn.
  - intros k p Hl. apply lookup_delete_Some in Hl as [_ Hl]. eauto.
  - intros p k Hl. apply lookup_delete_Some. split; [|by apply Hp].
    intros <-. destruct (Ht _ _ Htimer) as (q & o & Hm & Hq).
    rewrite (Hp _ _ Hl) in Hm. congruence.
  - intros j k Hl.
    assert (exists j', j' <> i /\ cleanupTimers c !! j' = Some k) as (j' & Hne & Hj').
    { destruct (decide (j < i)%nat).
      - exists j. split; [lia|]. by rewrite list_lookup_delete_lt in Hl.
      - exists (S j). split; [lia|]. rewrite list_lookup_delete_ge in Hl; [done|lia]. }
    destruct (Ht _ _ Hj') as (q & o & Hm & Hq). exists q, o. split; [|done].
    apply lookup_delete_Some. split; [|done].
    intros <-. apply Hne. by eapply NoDup_lookup.
  - eapply sublist_NoDup; [done|]. apply sublist_delete.
Qed.

Lemma coherent_step e c : isClear e = false -> Coherent c -> Coherent (step e c).
Proof.
  destruct e; cbn; [intros _|intros _|intros _|done].
  - apply coherent_request.
  - apply coherent_settle.
  - apply coherent_fireCleanup.
Qed.

Lemma coherent_run es c :
  Forall (fun e => isClear e = false) es -> Coherent c -> Coherent (run es c).
Proof.
  intros Hes. revert c. induction Hes as [|e es He _ IH]; intros c Hc; [done|].
  cbn. apply IH. by apply coherent_step.
Qed.

(** A promise keeps the key it was created for. *)
Lemma promise_key_step e c p k o :
  promises c !! p = Some (k, o) -> exists o', promises (step e c) !! p = Some (k, o').
Proof.
  intros Hl. pose proof (lookup_lt_Some _ _ _ Hl) as Hlt. destruct e as [key|q s|i|]; cbn.
  - unfold deduplicatedRequest. destruct (requestDeduplication c !! key); cbn; [eauto|].
    exists o. by rewrite lookup_app_l.
  - unfold settle. destruct (promises c !! q) as [[key [old|]]|] eqn:Hq; cbn; eauto.
    destruct (decide (q = p)) as [->|Hne].
    + rewrite list_lookup_insert_eq; [|done]. exists (Some s). congruence.
    + rewrite list_lookup_insert_ne; eauto.
  - unfold fireCleanup. destruct (cleanupTimers c !! i); cbn; eauto.
  - eauto.
Qed.

Lemma promise_key_run es c p k o :
  promises c !! p = Some (k, o) -> exists o', promises (run es c) !! p = Some (k, o').
Proof.
  revert c o. induction es as [|e es IH]; intros c o Hl; cbn; [eauto|].
  destruct (promise_key_step e c p k o Hl) as [o' Ho']. eauto.
Qed.

Lemma request_entry key c :
  Coherent c ->
  exists o, promises (deduplicatedRequest key c).2 !! (deduplicatedRequest key c).1
            = Some (key, o).
Proof.
  intros Hc. unfold deduplicatedRequest.
  destruct (requestDeduplication c !! key) as [p|] eqn:Hkey; cbn.
  - by eapply entry_key.
  - exists None. by rewrite list_lookup_middle.
Qed.

(** C1, as amended.  On a client whose map has never been cleared
    ([clearCache], [dispose]): when two [deduplicatedRequest] calls use the
    same key and the promise handed to the first caller is still unsettled at
    the second call, the second caller is handed that same promise, the
    second call changes nothing (no call reaches the transport), that promise
    is the only unsettled transport call for the key, and both callers
    observe the same settlement ever after. *)
Theorem dedup_attaches_while_unsettled (before between : list (Event T E)) (key : string) :
  Forall (fun e => isClear e = false) (before ++ between) ->
  let first := deduplicatedRequest key (run before newClient) in
  let c := run between first.2 in
  let second := deduplicatedRequest key c in
  settlementOf c first.1 = None ->
  second.1 = first.1 /\ second.2 = c /\
  promises c !! first.1 = Some (key, None) /\
  (forall p, promises c !! p = Some (key, None) -> p = first.1) /\
  (forall later, settlementOf (run later second.2) second.1
                 = settlementOf (run later second.2) first.1).
Proof.
  intros [Hbefore Hbetween]%Forall_app first c second Hpending.
  assert (Coherent (run before (newClient : Client T E))) as Hc0
    by (apply coherent_run; [done|apply coherent_new]).
  assert (Coherent c) as Hc
    by (apply coherent_run; [done|by apply coherent_request]).
  destruct (request_entry key _ Hc0) as [o0 Hfirst]. fold first in Hfirst.
  destruct (promise_key_run between _ _ _ _ Hfirst) as [o Ho]. fold c in Ho.
  assert (o = None) as -> by (unfold settlementOf in Hpending; by rewrite Ho in Hpending).
  pose proof (pending_listed c Hc _ _ Ho) as Hentry.
  assert (second = (first.1, c)) as Hsecond
    by (unfold second, deduplicatedRequest; by rewrite Hentry).
  rewrite Hsecond. cbn. split_and!; try done.
  intros p Hp. pose proof (pending_listed c Hc _ _ Hp). congruence.
Qed.

End Deduplication.

Lemma dedup_attaches_while_unsettled_witness :
  (deduplicatedRequest "health"
     (run [Request "sketches-all"]
        (deduplicatedRequest "health" (newClient : Client unit unit)).2)).1
  = (deduplicatedRequest "health" (newClient : Client unit unit)).1.
Proof.
  refine (proj1 (dedup_attaches_while_unsettled (T:=unit) (E:=unit)
                   [] [Request "sketches-all"] "health" _ _)).
  - repeat constructor.
  - reflexivity.
Defined.

(** C1 as stated fails once the map is cleared: a request for 'health' is
    in flight, [clearCache] runs, and a second request for 'health' is handed
    a new promise; two calls have reached the transport. *)
Lemma dedup_after_clear_issues_second_call :
  let first := deduplicatedRequest "health" (newClient : Client unit unit) in
  let c := clearCache first.2 in
  let second := deduplicatedRequest "health" c in
  settlementOf c first.1 = None /\
  second.1 <> first.1 /\
  transportCalls "health" second.2 = 2%nat.
Proof. cbn. split_and!; [reflexivity|discriminate|reflexivity]. Qed.

(** ** Rate limiting *)

Lemma request_rate_limited response later :
  status response = 429 ->
  request (Reply response :: later)
  = (TransportCall :: Wait (rateLimitDelay response) :: (request later).1,
     (request later).2).
Proof.
  intros Hst. cbn. unfold validateStatus. rewrite Hst. cbn.
  by destruct (request later).
Qed.

Lemma request_not_rate_limited final later :
  isRateLimited final = false ->
  request (final :: later)
  = (TransportCall :: (responseInterceptor final).1, Some (surfaced final)).
Proof.
  intros Hnot. unfold surfaced. cbn.
  destruct (responseInterceptor final) as [effects [response|error|delay]] eqn:Hint;
    [done|done|].
  exfalso. unfold responseInterceptor in Hint. destruct final as [response| |]; [|done..].
  cbn in Hnot. apply bool_decide_eq_false in Hnot.
  destruct (validateStatus (status response)); [done|].
  destruct (status response =? 503); [done|].
  destruct (Z.eqb_spec (status response) 429); done.
Qed.

Lemma digit_value d : (d < 10)%nat -> digitValue (ascii_of_nat (48 + d)) = Some (Z.of_nat d).
Proof. intros Hd. do 10 (destruct d as [|d]; [reflexivity|]). lia. Qed.

Lemma parseDigits_numeral digits acc :
  Forall (fun d => (d < 10)%nat) digits ->
  parseDigits 10 (numeral digits) (Some acc)
  = Some (foldl (fun acc d => acc * 10 + Z.of_nat d) acc digits).
Proof.
  intros Hdigits. revert acc. induction Hdigits as [|d digits Hd _ IH]; intros acc; [done|].
  cbn [numeral parseDigits foldl]. rewrite (digit_value d Hd).
  destruct (Z.ltb_spec (Z.of_nat d) 10); [|lia]. apply IH.
Qed.

Lemma parseInt_numeral digits :
  digits <> [] -> Forall (fun d => (d < 10)%nat) digits ->
  parseInt (numeral digits) = Some (numeralValue digits).
Proof.
  intros Hne Hdigits. destruct digits as [|d digits]; [done|].
  apply Forall_cons in Hdigits as [Hd Hdigits].
  assert (parseDigits 10 (numeral (d :: digits)) None = Some (numeralValue (d :: digits)))
    as Hparse.
  { cbn [numeral parseDigits]. rewrite (digit_value d Hd).
    destruct (Z.ltb_spec (Z.of_nat d) 10); [|lia].
    cbn [default]. by rewrite parseDigits_numeral. }
  destruct d as [|d].
  - destruct digits as [|d' digits]; [exact Hparse|].
    apply Forall_cons in Hdigits as [Hd' Hdigits].
    do 10 (destruct d' as [|d']; [exact Hparse|]). lia.
  - do 9 (destruct d as [|d]; [exact Hparse|]). lia.
Qed.

(** C2, as amended.  Every reply with status 429 is answered by a retry:
    the client waits ([parseInt] of the retry-after header times 1000 ms, or
    2000 ms when the header is absent) and sends the request again through
    the same interceptor.  So after any number of rate-limited replies the
    caller receives the first reply that is not rate limited, and one more
    call than there were rate-limited replies has reached the transport. *)
Theorem rate_limit_retries_until_served :
  (forall (limited : list AxiosResponse) (final : TransportReply) (later : list TransportReply),
     Forall (fun r => status r = 429) limited ->
     isRateLimited final = false ->
     request ((Reply <$> limited) ++ final :: later)
     = (flat_map (fun r => [TransportCall; Wait (rateLimitDelay r)]) limited
          ++ TransportCall :: (responseInterceptor final).1,
        Some (surfaced final))) /\
  (forall st text body digits,
     digits <> [] -> Forall (fun d => (d < 10)%nat) digits ->
     rateLimitDelay (mkResponse st text (Some (numeral digits)) body)
     = Some (numeralValue digits * 1000)) /\
  (forall st text body,
     rateLimitDelay (mkResponse st text None body) = Some 2000).
Proof.
  split_and!.
  - intros limited final later Hlimited Hfinal.
    induction Hlimited as [|r limited Hr _ IH]; cbn [fmap list_fmap app flat_map].
    + by apply request_not_rate_limited.
    + rewrite request_rate_limited by done. fold (fmap (M:=list) Reply limited).
      by rewrite IH.
  - intros st text body digits Hne Hdigits. unfold rateLimitDelay. cbn [retryAfter].
    destruct digits as [|d digits]; [done|]. cbn [numeral truthy].
    change (String (ascii_of_nat (48 + d)) (numeral digits)) with (numeral (d :: digits)).
    by rewrite parseInt_numeral.
  - done.
Qed.

Lemma rate_limit_retries_until_served_witness :
  request [Reply (rateLimitedResponse (Some "2"%string)); Reply okResponse]
  = ([TransportCall; Wait (Some 2000); TransportCall], Some (inl okResponse)).
Proof.
  pose proof (proj1 (proj2 rate_limit_retries_until_served)
                429 "Too Many Requests"%string None [2%nat]
                ltac:(discriminate) ltac:(repeat constructor)) as Hdelay.
  pose proof (proj1 rate_limit_retries_until_served
                [rateLimitedResponse (Some "2"%string)] (Reply okResponse) []
                ltac:(repeat constructor) eq_refl) as Hrun.
  exact Hrun.
Defined.

(** C2 as stated fails when the retry is itself rate limited: with replies
    429, 429, 200 the client retries twice, three calls reach the transport
    and the caller receives the 200 response, not the error of the first
    retry. *)
Lemma rate_limited_retry_is_retried :
  let limited := Reply (rateLimitedResponse (Some "2"%string)) in
  let replies := [limited; limited; Reply okResponse] in
  transportCallCount (request replies).1 = 3%nat /\
  (request replies).2 = Some (inl okResponse) /\
  (request replies).2 <> Some (surfaced limited).
Proof. cbn. split_and!; [reflexivity|reflexivity|discriminate]. Qed.

End RequestClientTheory.

(* ================================================================== *)
(** * Properties of the WebSocket manager *)
(* ================================================================== *)

Module WebSocketManagerTheory.
Import TypeSafeWebSocketManager.

Implicit Types (s : Manager) (key : string).

(** ** Inbound frames *)

(** C8, as amended.  A frame whose type is 'pong' is consumed silently:
    [handleMessage] returns without emitting, printing or changing anything.
    A frame whose type is 'ping' has no branch of its own: it is reported on
    the console as an unknown type and published to subscribers through the
    generic 'message' notification. *)
Theorem pong_is_silent_ping_is_published s key (message : Json) :
  (property "type" message = Some (JStr "pong") ->
     handleMessage key message s = Some s /\ onMessage key (Some message) s = s) /\
  (property "type" message = Some (JStr "ping") ->
     onMessage key (Some message) s
     = emit (EvMessage key message) (print (WarnUnknownType (Some (JStr "ping"))) s)).
Proof.
  split; intros Htype.
  - assert (handleMessage key message s = Some s) as Hh.
    { unfold handleMessage. destruct message; try done. cbn in *. by rewrite Htype. }
    split; [done|]. unfold onMessage. by rewrite Hh.
  - unfold onMessage, handleMessage. destruct message; try done. cbn in *.
    by rewrite Htype.
Qed.

Lemma pong_is_silent_ping_is_published_witness :
  onMessage "server" (Some (JObj [("type", JStr "pong"); ("payload", JObj [])]%string))
    (newManager defaultConfig)
  = newManager defaultConfig.
Proof.
  refine (proj2 (proj1 (pong_is_silent_ping_is_published (newManager defaultConfig)
                          "server" (JObj [("type", JStr "pong"); ("payload", JObj [])]%string))
                   _)).
  reflexivity.
Defined.

(** C8 as stated fails for 'ping': the frame reaches subscribers as a
    'message' notification. *)
Lemma inbound_ping_reaches_subscribers :
  let frame := JObj [("type", JStr "ping"); ("payload", JObj [])]%string in
  emitted (onMessage "server" (Some frame) (newManager defaultConfig))
  = [EvMessage "server" frame].
Proof. reflexivity. Qed.

(** C9, as amended.  A frame that parses to a value other than [null] and
    whose type is none of the handled ones is not an error: the handler
    returns normally, prints a warning on the console and publishes the frame
    through the generic 'message' notification, and nothing else changes --
    no status, no socket, no timer, no queue.  Subscribers receive no warning
    or error notification. *)
Theorem unknown_type_is_logged_and_published s key (message : Json) (type : option Json) :
  member "type" (Some message) = Some type ->
  Forall (fun name => typeIs type name = false) handledTypes ->
  let s' := onMessage key (Some message) s in
  handleMessage key message s = Some s' /\
  s' = emit (EvMessage key message) (print (WarnUnknownType type) s) /\
  connectionStatus s' = connectionStatus s /\
  connections s' = connections s /\
  sockets s' = sockets s /\
  emitted s' = emitted s ++ [EvMessage key message] /\
  console s' = console s ++ [WarnUnknownType type].
Proof.
  intros Hmember Hunknown s'.
  assert (handleMessage key message s
          = Some (emit (EvMessage key message) (print (WarnUnknownType type) s))) as Hh.
  { unfold handleMessage. rewrite Hmember. cbn [mbind option_bind].
    repeat (apply Forall_cons in Hunknown as [-> Hunknown]). done. }
  unfold s', onMessage. rewrite Hh. done.
Qed.

Lemma unknown_type_is_logged_and_published_witness :
  let frame := JObj [("type", JStr "file_changed"); ("payload", JObj [])]%string in
  onMessage "server" (Some frame) (newManager defaultConfig)
  = emit (EvMessage "server" frame)
      (print (WarnUnknownType (Some (JStr "file_changed"))) (newManager defaultConfig)).
Proof.
  intros frame.
  refine (proj1 (proj2 (unknown_type_is_logged_and_published (newManager defaultConfig)
                          "server" frame (Some (JStr "file_changed")) _ _))).
  - reflexivity.
  - repeat constructor.
Defined.

(** C9 as stated fails in its last part: for a frame of unknown type the
    only thing subscribers receive is the frame itself, as a 'message'
    notification; the warning goes to the console. *)
Lemma unknown_type_warns_console_only :
  let frame := JObj [("type", JStr "file_changed"); ("payload", JObj [])]%string in
  let s' := onMessage "server" (Some frame) (newManager defaultConfig) in
  emitted s' = [EvMessage "server" frame] /\
  filter (fun n => isErrorNotification n = true) (emitted s') = [] /\
  console s' = [WarnUnknownType (Some (JStr "file_changed"))].
Proof. split_and!; reflexivity. Qed.

(** A frame that parses to [null] carries no type at all: reading it throws
    inside [handleMessage], and the 'message' handler reports the frame as
    invalid. *)
Example null_frame_is_reported_invalid :
  handleMessage "server" JNull (newManager defaultConfig) = None /\
  emitted (onMessage "server" (Some JNull) (newManager defaultConfig))
  = [EvInvalidMessageFormat "server"].
Proof. split; reflexivity. Qed.

Lemma handleMessage_output key (message : Json) s s' :
  handleMessage key message s = Some s' -> SameButOutput s s'.
Proof.
  unfold handleMessage. intros H.
  repeat (simplify_option_eq || case_match); by repeat split.
Qed.

Lemma onMessage_output key data s : SameButOutput s (onMessage key data s).
Proof.
  unfold onMessage. destruct data as [message|]; [|by repeat split].
  destruct (handleMessage key message s) as [s'|] eqn:Hh; cbn; [|by repeat split].
  by eapply handleMessage_output.
Qed.

(** ** Connecting *)

(** C5, as amended.  A connect call returns the stored socket, and changes
    nothing, exactly when a socket is stored for the key and is open.
    Otherwise -- in particular while an earlier connect for the key is still
    waiting for its socket to open, since the socket is stored only by the
    'open' handler -- it constructs a further socket. *)
Theorem connect_reuses_only_an_open_socket s (baseUrl : string) :
  (forall behaviour ws,
     connections s !! "server"%string = Some ws -> isOpen s ws = true ->
     connectToServer baseUrl behaviour s = (Existing ws, s)) /\
  (forall sketchName behaviour ws,
     connections s !! ("sketch-" +:+ sketchName)%string = Some ws -> isOpen s ws = true ->
     connectToSketch sketchName baseUrl behaviour s = (Existing ws, s)) /\
  (forall accept,
     isConnected s "server" = false ->
     let r := connectToServer baseUrl (Some accept) s in
     r.1 = Created (length (sockets s)) /\
     sockets r.2 = sockets s ++ [mkSocket "server" (baseUrl +:+ "/ws/server")
                                   WS_CONNECTING [] accept] /\
     getConnectionStatus r.2 "server" = CONNECTING) /\
  (forall sketchName accept,
     isConnected s ("sketch-" +:+ sketchName) = false ->
     let r := connectToSketch sketchName baseUrl (Some accept) s in
     r.1 = Created (length (sockets s)) /\
     length (sockets r.2) = S (length (sockets s)) /\
     getConnectionStatus r.2 ("sketch-" +:+ sketchName) = CONNECTING).
Proof.
  split_and!.
  - intros behaviour ws Hstored Hopen. unfold connectToServer, isConnected.
    by rewrite Hstored, Hopen.
  - intros sketchName behaviour ws Hstored Hopen. unfold connectToSketch, isConnected.
    by rewrite Hstored, Hopen.
  - intros accept Hnot. unfold connectToServer. rewrite Hnot. cbn.
    split_and!; [done..|]. unfold getConnectionStatus. cbn. by rewrite lookup_insert_eq.
  - intros sketchName accept Hnot. unfold connectToSketch. rewrite Hnot. cbn.
    split_and!; [done| |].
    + rewrite length_app. cbn. lia.
    + unfold getConnectionStatus. cbn. by rewrite lookup_insert_eq.
Qed.

Lemma connect_reuses_only_an_open_socket_witness :
  let s := run [ConnectToServer "ws://localhost:8083" (Some reliable); WsOpen 0]
               (newManager defaultConfig) in
  connectToServer "ws://localhost:8083" (Some reliable) s = (Existing 0%nat, s).
Proof.
  intros s.
  refine (proj1 (connect_reuses_only_an_open_socket s "ws://localhost:8083")
            (Some reliable) 0%nat _ _); reflexivity.
Defined.

(** C5 as stated fails in the Connecting state: a second [connectToServer]
    issued before the first socket has opened constructs a second socket. *)
Lemma connect_while_connecting_opens_second_socket :
  let first := connectToServer "ws://localhost:8083" (Some reliable)
                 (newManager defaultConfig) in
  let second := connectToServer "ws://localhost:8083" (Some reliable) first.2 in
  getConnectionStatus first.2 "server" = CONNECTING /\
  first.1 = Created 0 /\
  second.1 = Created 1 /\
  length (sockets second.2) = 2%nat.
Proof. split_and!; reflexivity. Qed.

(** ** Reconnection *)

Lemma omap_alter_disarm {B} (f : Timer -> option B) (i : nat) (l : list Timer) :
  (forall t, f (disarm t) = f t) -> omap f (alter disarm i l) = omap f l.
Proof.
  intros Hf. revert i. induction l as [|t l IH]; intros [|i]; cbn; [done..| |].
  - by rewrite Hf.
  - by rewrite IH.
Qed.

Lemma clearTimer_delays handle s :
  reconnectDelays (clearTimer handle s) = reconnectDelays s /\
  (forall key, reconnectDelaysFor key (clearTimer handle s) = reconnectDelaysFor key s) /\
  length (timers (clearTimer handle s)) = length (timers s).
Proof.
  unfold reconnectDelays, reconnectDelaysFor, clearTimer. cbn. split_and!.
  - by apply omap_alter_disarm.
  - intros key. by apply omap_alter_disarm.
  - apply length_alter.
Qed.

(** What [stopHeartbeat] leaves alone. *)
Lemma stopHeartbeat_frame k s :
  let s' := stopHeartbeat k s in
  connections s' = connections s /\
  connectionStatus s' = connectionStatus s /\
  reconnectAttempts s' = reconnectAttempts s /\
  reconnectTimers s' = reconnectTimers s /\
  messageQueues s' = messageQueues s /\
  config s' = config s /\
  sockets s' = sockets s /\
  emitted s' = emitted s /\
  console s' = console s /\
  reconnectDelays s' = reconnectDelays s /\
  (forall key, reconnectDelaysFor key s' = reconnectDelaysFor key s) /\
  length (timers s') = length (timers s).
Proof.
  unfold stopHeartbeat. destruct (heartbeatTimers s !! k) as [timer|]; cbn; [|done].
  destruct (clearTimer_delays timer s) as (Hd & Hk & Hl). by split_and!.
Qed.

Lemma attempts_of_frame s s' key :
  reconnectAttempts s' = reconnectAttempts s ->
  getReconnectAttempts s' key = getReconnectAttempts s key.
Proof. unfold getReconnectAttempts. by intros ->. Qed.

Lemma status_after_set k st s :
  getConnectionStatus (setConnectionStatus k st s) k = st.
Proof. unfold getConnectionStatus. cbn. by rewrite lookup_insert_eq. Qed.

(** [handleReconnection] when the counter is below the limit. *)
Lemma handleReconnection_retry key s :
  Z.of_nat (getReconnectAttempts s key) < maxReconnectAttempts (config s) ->
  let attempts := getReconnectAttempts s key in
  let delay := Z.min (reconnectInterval (config s)
                      * reconnectBackoffMultiplier (config s) ^ Z.of_nat attempts)
                     (maxReconnectInterval (config s)) in
  let s' := handleReconnection key s in
  timers s' = timers s ++ [mkTimer (ReconnectTimer key (attempts + 1)) delay true] /\
  reconnectAttempts s' = <[key := (attempts + 1)%nat]> (reconnectAttempts s) /\
  getConnectionStatus s' key = RECONNECTING /\
  config s' = config s /\
  reconnectTimers s' !! key = Some (length (timers s)).
Proof.
  intros Hlt. unfold handleReconnection.
  destruct (Z.geb_spec (Z.of_nat (getReconnectAttempts s key))
              (maxReconnectAttempts (config s))); [lia|].
  cbn. split_and!; try done.
  - unfold getConnectionStatus. cbn. by rewrite lookup_insert_eq.
  - by rewrite lookup_insert_eq.
Qed.

(** [handleReconnection] when the counter has reached the limit. *)
Lemma handleReconnection_exhausted key s :
  maxReconnectAttempts (config s) <= Z.of_nat (getReconnectAttempts s key) ->
  handleReconnection key s
  = emit (EvConnectionFailed key (getReconnectAttempts s key))
      (setConnectionStatus key FAILED s).
Proof.
  intros Hge. unfold handleReconnection.
  by destruct (Z.geb_spec (Z.of_nat (getReconnectAttempts s key))
                 (maxReconnectAttempts (config s))); [|lia].
Qed.

Lemma handleReconnection_config k s : config (handleReconnection k s) = config s.
Proof. unfold handleReconnection. by case_match. Qed.

(** [handleReconnection] never brings a counter back to 0. *)
Lemma handleReconnection_no_reset k s key :
  getReconnectAttempts (handleReconnection k s) key = 0%nat ->
  getReconnectAttempts s key = 0%nat.
Proof.
  unfold handleReconnection. case_match; cbn; [done|].
  unfold getReconnectAttempts at 1. cbn. rewrite lookup_insert.
  case_decide; cbn; [lia|done].
Qed.

(** While the counter of [key] is exhausted, [handleReconnection] arms no
    reconnect timer for [key], whichever key it is called for. *)
Lemma handleReconnection_quiet k s key :
  maxReconnectAttempts (config s) <= Z.of_nat (getReconnectAttempts s key) ->
  reconnectDelaysFor key (handleReconnection k s) = reconnectDelaysFor key s.
Proof.
  intros Hge. unfold handleReconnection.
  destruct (Z.geb_spec (Z.of_nat (getReconnectAttempts s k))
              (maxReconnectAttempts (config s))) as [|Hlt]; [done|].
  unfold reconnectDelaysFor. cbn. rewrite omap_app. cbn.
  case_decide as Hk; [subst; lia|]. by rewrite app_nil_r.
Qed.

Lemma handleConnectionClose_exhausted key code reason s :
  maxReconnectAttempts (config s) <= Z.of_nat (getReconnectAttempts s key) ->
  handleConnectionClose key code reason s
  = emit (EvDisconnected key code reason)
      (setConnectionStatus key DISCONNECTED
         (stopHeartbeat key (setConnections (delete key (connections s)) s))).
Proof.
  intros Hge. unfold handleConnectionClose.
  set (s1 := stopHeartbeat key _).
  destruct (stopHeartbeat_frame key (setConnections (delete key (connections s)) s))
    as (_ & _ & Ha & _ & _ & Hc & _). fold s1 in Ha, Hc.
  rewrite (attempts_of_frame _ _ key Ha), Hc.
  change (getReconnectAttempts (setConnections _ s) key)
    with (getReconnectAttempts s key).
  change (config (setConnections _ s)) with (config s).
  destruct (Z.geb_spec (Z.of_nat (getReconnectAttempts s key))
              (maxReconnectAttempts (config s))); [|lia].
  by destruct (code =? 1000).
Qed.

Lemma handleConnectionClose_abnormal key code reason s :
  code <> 1000 ->
  Z.of_nat (getReconnectAttempts s key) < maxReconnectAttempts (config s) ->
  handleConnectionClose key code reason s
  = handleReconnection key
      (stopHeartbeat key (setConnections (delete key (connections s)) s)).
Proof.
  intros Hcode Hlt. unfold handleConnectionClose.
  set (s1 := stopHeartbeat key _).
  destruct (stopHeartbeat_frame key (setConnections (delete key (connections s)) s))
    as (_ & _ & Ha & _ & _ & Hc & _). fold s1 in Ha, Hc.
  rewrite (attempts_of_frame _ _ key Ha), Hc.
  change (getReconnectAttempts (setConnections _ s) key)
    with (getReconnectAttempts s key).
  change (config (setConnections _ s)) with (config s).
  destruct (Z.geb_spec (Z.of_nat (getReconnectAttempts s key))
              (maxReconnectAttempts (config s))); [lia|].
  by destruct (Z.eqb_spec code 1000).
Qed.

(** ** Frames of the handlers *)

Ltac delays :=
  intros; unfold reconnectDelaysFor; cbn;
  rewrite ?omap_app, ?omap_alter_disarm by done; cbn;
  rewrite ?app_nil_r; done.

Ltac quiet :=
  unfold Quiet; repeat case_match; cbn; split_and!; try done; try delays.

Lemma quiet_refl s : Quiet s s.
Proof. by repeat split. Qed.

Lemma quiet_trans s1 s2 s3 : Quiet s1 s2 -> Quiet s2 s3 -> Quiet s1 s3.
Proof.
  intros (Ha & Hq & Hc & Hd) (Ha' & Hq' & Hc' & Hd'). split_and!; [congruence..|].
  intros key. by rewrite Hd', Hd.
Qed.

Lemma quiet_retrying s s' : Quiet s s' -> Retrying s s'.
Proof.
  intros (Ha & Hq & Hc & Hd). split_and!; [done..| |].
  - intros key. by rewrite (attempts_of_frame _ _ key Ha).
  - intros key _. split; [apply Hd|by apply attempts_of_frame].
Qed.

Lemma retrying_after_quiet s1 s2 s3 : Quiet s1 s2 -> Retrying s2 s3 -> Retrying s1 s3.
Proof.
  intros (Ha & Hq & Hc & Hd) (Hq' & Hc' & Hn & Hd'). split_and!; [congruence..| |].
  - intros key H0. rewrite <-(attempts_of_frame _ _ key Ha). by apply Hn.
  - intros key Hge.
    destruct (Hd' key) as [Hd2 Ha2]; [by rewrite Hc, (attempts_of_frame _ _ key Ha)|].
    split; [by rewrite Hd2, Hd|by rewrite Ha2, (attempts_of_frame _ _ key Ha)].
Qed.

Lemma handleReconnection_retrying k s : Retrying s (handleReconnection k s).
Proof.
  split_and!.
  - unfold handleReconnection. by case_match.
  - apply handleReconnection_config.
  - intros key. apply handleReconnection_no_reset.
  - intros key Hge. split; [by apply handleReconnection_quiet|].
    unfold handleReconnection. case_match eqn:Hlimit; [done|].
    unfold getReconnectAttempts at 1. cbn. rewrite lookup_insert_ne; [done|].
    intros ->.
    destruct (Z.geb_spec (Z.of_nat (getReconnectAttempts s key))
                (maxReconnectAttempts (config s))); [done|lia].
Qed.

Lemma stopHeartbeat_quiet k s : Quiet s (stopHeartbeat k s).
Proof. destruct (stopHeartbeat_frame k s) as (?&?&?&?&?&?&?&?&?&?&?&?). by split_and!. Qed.

Lemma startHeartbeat_quiet k s : Quiet s (startHeartbeat k s).
Proof. unfold startHeartbeat, armTimer. quiet. Qed.

Lemma createConnection_quiet k url behaviour s :
  Quiet s (createConnection k url behaviour s).2.
Proof. unfold createConnection, armTimer. quiet. Qed.

Lemma connectToServer_quiet baseUrl behaviour s :
  Quiet s (connectToServer baseUrl behaviour s).2.
Proof.
  unfold connectToServer. case_match; [apply quiet_refl|apply createConnection_quiet].
Qed.

Lemma connectToSketch_quiet sketchName baseUrl behaviour s :
  Quiet s (connectToSketch sketchName baseUrl behaviour s).2.
Proof.
  unfold connectToSketch. case_match; [apply quiet_refl|apply createConnection_quiet].
Qed.

Lemma onMessage_quiet k data s : Quiet s (onMessage k data s).
Proof.
  destruct (onMessage_output k data s) as (?&?&?&?&?&?&?&?&Ht).
  split_and!; try done. intros key. unfold reconnectDelaysFor. by rewrite Ht.
Qed.

Lemma heartbeatTick_quiet k uuid now s : Quiet s (heartbeatTick k uuid now s).
Proof.
  unfold heartbeatTick.
  repeat case_match; try apply stopHeartbeat_quiet; try by repeat split.
  eapply quiet_trans; [|apply stopHeartbeat_quiet]. by repeat split.
Qed.

Lemma connectionTimeoutTick_quiet k ws s : Quiet s (connectionTimeoutTick k ws s).
Proof. unfold connectionTimeoutTick. quiet. Qed.

Lemma clearTimer_quiet handle s : Quiet s (clearTimer handle s).
Proof. unfold clearTimer. quiet. Qed.

Lemma handleConnectionClose_retrying k code reason s :
  Retrying s (handleConnectionClose k code reason s).
Proof.
  unfold handleConnectionClose.
  set (s1 := stopHeartbeat k _).
  assert (Quiet s s1) as Hq.
  { eapply quiet_trans; [|apply stopHeartbeat_quiet]. by repeat split. }
  case_match.
  - apply quiet_retrying. eapply quiet_trans; [exact Hq|]. by repeat split.
  - eapply retrying_after_quiet; [exact Hq|apply handleReconnection_retrying].
Qed.

Lemma handleConnectionError_retrying k error s :
  Retrying s (handleConnectionError k error s).
Proof.
  unfold handleConnectionError. case_match.
  - eapply retrying_after_quiet; [|apply handleReconnection_retrying]. by repeat split.
  - apply quiet_retrying. by repeat split.
Qed.

Lemma reconnectTick_retrying k attempt listenerThrows s :
  Retrying s (reconnectTick k attempt listenerThrows s).
Proof.
  unfold reconnectTick. destruct listenerThrows.
  - eapply retrying_after_quiet; [|apply handleReconnection_retrying]. by repeat split.
  - apply quiet_retrying. by repeat split.
Qed.

Lemma fireTimer_retrying handle uuid now listenerThrows s :
  Retrying s (fireTimer handle uuid now listenerThrows s).
Proof.
  unfold fireTimer. repeat case_match; try (apply quiet_retrying, quiet_refl).
  - eapply retrying_after_quiet; [apply clearTimer_quiet|apply reconnectTick_retrying].
  - apply quiet_retrying, heartbeatTick_quiet.
  - apply quiet_retrying. eapply quiet_trans;
      [apply clearTimer_quiet|apply connectionTimeoutTick_quiet].
Qed.

Lemma calm_trans s1 s2 s3 : Calm s1 s2 -> Calm s2 s3 -> Calm s1 s3.
Proof.
  intros [Hc Hd] [Hc' Hd']. split; [congruence|]. intros key. by rewrite Hd', Hd.
Qed.

Lemma quiet_calm s s' : Quiet s s' -> Calm s s'.
Proof. by intros (_ & _ & Hc & Hd). Qed.

Lemma queueMessage_frame k m s :
  let s' := queueMessage k m s in
  Calm s s' /\ reconnectAttempts s' = reconnectAttempts s.
Proof. by repeat split. Qed.

Lemma sendMessage_frame k type payload uuid now s :
  let s' := (sendMessage k type payload uuid now s).2 in
  Calm s s' /\ reconnectAttempts s' = reconnectAttempts s.
Proof. unfold sendMessage. repeat case_match; by repeat split. Qed.

Lemma flushMessageQueue_frame k s :
  let s' := flushMessageQueue k s in
  Calm s s' /\ reconnectAttempts s' = reconnectAttempts s.
Proof. unfold flushMessageQueue. repeat case_match; by repeat split. Qed.

Lemma onOpen_frame ws k url s :
  let s' := onOpen ws k url s in
  Calm s s' /\ reconnectAttempts s' = <[k := 0%nat]> (reconnectAttempts s).
Proof.
  unfold onOpen.
  set (s1 := setReconnectAttempts _ _).
  pose proof (startHeartbeat_quiet k s1) as Hstart.
  destruct (flushMessageQueue_frame k (startHeartbeat k s1)) as (Hflush & Ha').
  split.
  - apply (calm_trans _ s1); [by repeat split|].
    apply (calm_trans _ (startHeartbeat k s1)); [by apply quiet_calm|].
    apply (calm_trans _ (flushMessageQueue k (startHeartbeat k s1))); [done|].
    by repeat split.
  - change (reconnectAttempts (flushMessageQueue k (startHeartbeat k s1))
            = <[k := 0%nat]> (reconnectAttempts s)).
    rewrite Ha'. by destruct Hstart as [-> _].
Qed.

Lemma cleanup_frame k s :
  let s' := cleanup k s in
  Calm s s' /\
  reconnectAttempts s' = delete k (reconnectAttempts s) /\
  messageQueues s' = delete k (messageQueues s).
Proof.
  unfold cleanup.
  set (s1 := setMessageQueues _ _).
  pose proof (stopHeartbeat_quiet k s1) as Hstop.
  assert (Calm s (stopHeartbeat k s1)) as Hcalm.
  { apply (calm_trans _ s1); [by repeat split|by apply quiet_calm]. }
  destruct Hstop as (Ha & Hq & _).
  case_match; (split_and!; [|exact Ha|exact Hq]); [|done].
  apply (calm_trans _ (stopHeartbeat k s1)); [done|].
  eapply calm_trans; [apply quiet_calm, clearTimer_quiet|by repeat split].
Qed.

Lemma closeConnection_frame k s :
  let s' := closeConnection k s in
  Calm s s' /\
  reconnectAttempts s' = delete k (reconnectAttempts s) /\
  messageQueues s' = delete k (messageQueues s).
Proof.
  unfold closeConnection.
  match goal with |- context [cleanup k ?s1] =>
    destruct (cleanup_frame k s1) as ([Hc Hd] & Ha & Hq) end.
  case_match; cbn in *; by split_and!.
Qed.

Lemma bounded_of_frame s s' :
  messageQueues s' = messageQueues s -> config s' = config s ->
  QueuesBounded s -> QueuesBounded s'.
Proof. unfold QueuesBounded. by intros -> ->. Qed.

Lemma bounded_delete k s s' :
  messageQueues s' = delete k (messageQueues s) -> config s' = config s ->
  QueuesBounded s -> QueuesBounded s'.
Proof.
  unfold QueuesBounded. intros -> -> Hb key queue [_ Hl]%lookup_delete_Some. eauto.
Qed.

Lemma closeAll_frame (keys : list string) s :
  let s' := foldr closeConnection s keys in
  Calm s s' /\ (QueuesBounded s -> QueuesBounded s').
Proof.
  induction keys as [|k keys IH]; cbn; [by repeat split|].
  destruct IH as [Hcalm Hb].
  destruct (closeConnection_frame k (foldr closeConnection s keys)) as (Hcalm' & _ & Hq).
  split.
  - by eapply calm_trans.
  - intros Hs. eapply bounded_delete; [exact Hq|apply Hcalm'|by apply Hb].
Qed.

(** ** The queue *)

Lemma queueMessage_bounded k m s :
  0 <= messageQueueMaxSize (config s) ->
  QueuesBounded s -> QueuesBounded (queueMessage k m s).
Proof.
  intros Hmax Hb key queue. unfold queueMessage. cbn. rewrite lookup_insert.
  case_decide as Hk; [|apply Hb]. intros [= <-].
  assert (Z.of_nat (length (default [] (messageQueues s !! k)))
          <= messageQueueMaxSize (config s)) as Hold.
  { destruct (messageQueues s !! k) as [q|] eqn:Hq; cbn; [by eapply Hb|lia]. }
  revert Hold. generalize (default [] (messageQueues s !! k)). intros q Hold.
  destruct (Z.gtb_spec (Z.of_nat (length (q ++ [m]))) (messageQueueMaxSize (config s)))
    as [Hgt|Hle]; [|done].
  destruct q as [|oldest q]; cbn in *; [lia|].
  rewrite length_app. cbn. lia.
Qed.

Lemma flushLoop_length sock queue :
  (length (flushLoop sock queue).1.2 <= length queue)%nat.
Proof.
  revert sock. induction queue as [|m queue IH]; intros sock; cbn; [done|].
  destruct (wsSend m sock) as [sock'|]; cbn; [|done].
  specialize (IH sock'). lia.
Qed.

Lemma flushMessageQueue_bounded k s :
  QueuesBounded s -> QueuesBounded (flushMessageQueue k s).
Proof.
  intros Hb. unfold flushMessageQueue.
  destruct (messageQueues s !! k) as [[|m queue]|] eqn:Hq; [done| |done].
  repeat case_match; try done; subst.
  all: intros key q; cbn; rewrite lookup_insert; case_decide; [|by apply Hb].
  all: intros [= <-].
  all: match goal with H : flushLoop ?sock ?queue = _ |- _ =>
         pose proof (flushLoop_length sock queue) as Hlen; rewrite H in Hlen end.
  all: specialize (Hb _ _ Hq); cbn in *; lia.
Qed.

(** ** Every action *)

Lemma step_config a s : config (step a s) = config s.
Proof.
  destruct a; cbn [step].
  - apply connectToSketch_quiet.
  - apply connectToServer_quiet.
  - apply sendMessage_frame.
  - apply closeConnection_frame.
  - apply closeAll_frame.
  - apply closeAll_frame.
  - repeat case_match; try done.
    match goal with |- context [onOpen ?ws ?k ?url ?s1] =>
      exact (proj1 (proj1 (onOpen_frame ws k url s1))) end.
  - case_match; [apply onMessage_quiet|done].
  - repeat case_match; try done.
    all: match goal with |- context [onClose ?k ?c ?r ?s1] =>
      exact (proj1 (proj2 (handleConnectionClose_retrying k c r
                             (print (LogClosed k c r) s1)))) end.
  - case_match; [|done].
    match goal with |- context [onError ?k ?e s] =>
      exact (proj1 (proj2 (handleConnectionError_retrying k e
                             (print (ErrorSocket k) s)))) end.
  - apply fireTimer_retrying.
Qed.

(** While the counter of [key] is exhausted, no action arms a reconnect
    timer for [key]. *)
Lemma step_exhausted a s key :
  maxReconnectAttempts (config s) <= Z.of_nat (getReconnectAttempts s key) ->
  reconnectDelaysFor key (step a s) = reconnectDelaysFor key s.
Proof.
  intros Hge. destruct a; cbn [step].
  - apply connectToSketch_quiet.
  - apply connectToServer_quiet.
  - apply sendMessage_frame.
  - apply closeConnection_frame.
  - apply closeAll_frame.
  - apply closeAll_frame.
  - repeat case_match; try done.
    match goal with |- context [onOpen ?ws ?k ?url ?s1] =>
      exact (proj2 (proj1 (onOpen_frame ws k url s1)) key) end.
  - case_match; [apply onMessage_quiet|done].
  - repeat case_match; try done.
    all: match goal with |- context [onClose ?k ?c ?r ?s1] =>
      exact (proj1 (proj2 (proj2 (proj2 (handleConnectionClose_retrying k c r
                                    (print (LogClosed k c r) s1)))) key Hge)) end.
  - case_match; [|done].
    match goal with |- context [onError ?k ?e s] =>
      exact (proj1 (proj2 (proj2 (proj2 (handleConnectionError_retrying k e
                                    (print (ErrorSocket k) s)))) key Hge)) end.
  - by apply fireTimer_retrying.
Qed.

(** A counter goes back to 0 only through 'open' or [cleanup]. *)
Lemma step_no_reset a s key :
  getReconnectAttempts s key <> 0%nat ->
  getReconnectAttempts (step a s) key = 0%nat ->
  opens s a key \/ releases a key.
Proof.
  intros Hpos Hzero.
  assert (forall s', reconnectAttempts s' = reconnectAttempts s ->
                     getReconnectAttempts s' key = 0%nat -> False) as Hsame.
  { intros s' Heq. rewrite (attempts_of_frame _ _ key Heq). done. }
  destruct a; cbn [step] in Hzero.
  - exfalso. eapply Hsame; [apply connectToSketch_quiet|done].
  - exfalso. eapply Hsame; [apply connectToServer_quiet|done].
  - exfalso. eapply Hsame; [apply sendMessage_frame|done].
  - destruct (decide (connectionKey = key)) as [->|Hne]; [right; by left|].
    exfalso. apply Hpos. revert Hzero. unfold getReconnectAttempts.
    destruct (closeConnection_frame connectionKey s) as (_ & -> & _).
    by rewrite lookup_delete_ne.
  - right. right. by left.
  - right. right. by right.
  - destruct (sockets s !! ws) as [sock|] eqn:Hsock; [|done].
    destruct (readyState sock) eqn:Hready; try done.
    destruct (decide (sockKey sock = key)) as [Hk|Hne].
    { left. by exists ws, sock. }
    exfalso. apply Hpos. revert Hzero. unfold getReconnectAttempts.
    match goal with |- context [onOpen ?ws ?k ?url ?s1] =>
      destruct (onOpen_frame ws k url s1) as (_ & ->) end.
    by rewrite lookup_insert_ne.
  - exfalso. destruct (sockets s !! ws); [|done].
    eapply Hsame; [apply onMessage_quiet|done].
  - exfalso. destruct (sockets s !! ws) as [sock|]; [|done].
    destruct (readyState sock); try done.
    all: by apply handleConnectionClose_retrying in Hzero.
  - exfalso. destruct (sockets s !! ws) as [sock|]; [|done].
    by apply handleConnectionError_retrying in Hzero.
  - exfalso. by apply fireTimer_retrying in Hzero.
Qed.

Lemma bounded_emit n s : QueuesBounded s -> QueuesBounded (emit n s).
Proof. intros H. exact H. Qed.

Lemma step_bounded a s :
  0 <= messageQueueMaxSize (config s) ->
  QueuesBounded s -> QueuesBounded (step a s).
Proof.
  intros Hmax Hb. destruct a; cbn [step].
  - eapply bounded_of_frame; [apply connectToSketch_quiet..|exact Hb].
  - eapply bounded_of_frame; [apply connectToServer_quiet..|exact Hb].
  - unfold sendMessage.
    repeat case_match; cbn [snd];
      first [exact Hb | apply queueMessage_bounded; assumption].
  - eapply bounded_delete; [apply closeConnection_frame..|exact Hb].
  - apply closeAll_frame, Hb.
  - apply closeAll_frame, Hb.
  - destruct (sockets s !! ws) as [sock|]; [|exact Hb].
    destruct (readyState sock); [|exact Hb..].
    unfold onOpen. apply bounded_emit, flushMessageQueue_bounded.
    eapply bounded_of_frame; [apply startHeartbeat_quiet..|]. exact Hb.
  - destruct (sockets s !! ws); [|exact Hb].
    eapply bounded_of_frame; [apply onMessage_quiet..|exact Hb].
  - destruct (sockets s !! ws) as [sock|]; [|exact Hb].
    destruct (readyState sock); [..|exact Hb].
    all: match goal with |- context [onClose ?k ?c ?r ?s1] =>
      pose proof (handleConnectionClose_retrying k c r (print (LogClosed k c r) s1))
        as (Hq & Hc & _) end.
    all: eapply bounded_of_frame; [exact Hq|exact Hc|exact Hb].
  - destruct (sockets s !! ws) as [sock|]; [|exact Hb].
    match goal with |- context [onError ?k ?e s] =>
      pose proof (handleConnectionError_retrying k e (print (ErrorSocket k) s))
        as (Hq & Hc & _) end.
    eapply bounded_of_frame; [exact Hq|exact Hc|exact Hb].
  - eapply bounded_of_frame; [apply fireTimer_retrying..|exact Hb].
Qed.

Lemma run_bounded actions s :
  0 <= messageQueueMaxSize (config s) ->
  QueuesBounded s -> QueuesBounded (run actions s).
Proof.
  revert s. induction actions as [|a actions IH]; intros s Hmax Hb; [done|].
  cbn. apply IH; [by rewrite step_config|by apply step_bounded].
Qed.

(** C6.  With a capacity that is not negative, no queue of any key ever
    holds more than [messageQueueMaxSize] messages, in any state the manager
    reaches from its initial state by any actions; [queueMessage] keeps the
    bound; a message queued onto a queue that is at capacity evicts the
    oldest entry and is appended behind the others, which keep their order;
    below capacity the message is appended and nothing is evicted. *)
Theorem queue_bounded_drop_oldest (cfg : WebSocketConfig) :
  0 <= messageQueueMaxSize cfg ->
  (forall actions, QueuesBounded (run actions (newManager cfg))) /\
  (forall s key message,
     config s = cfg -> QueuesBounded s -> QueuesBounded (queueMessage key message s)) /\
  (forall s key message oldest rest,
     config s = cfg ->
     messageQueues s !! key = Some (oldest :: rest) ->
     Z.of_nat (length (oldest :: rest)) = messageQueueMaxSize cfg ->
     messageQueues (queueMessage key message s) !! key = Some (rest ++ [message])) /\
  (forall s key message,
     config s = cfg ->
     Z.of_nat (length (default [] (messageQueues s !! key))) < messageQueueMaxSize cfg ->
     messageQueues (queueMessage key message s) !! key
     = Some (default [] (messageQueues s !! key) ++ [message])).
Proof.
  intros Hmax. split_and!.
  - intros actions. apply run_bounded; [done|].
    intros key queue. cbn. by rewrite lookup_empty.
  - intros s key message <- Hb. by apply queueMessage_bounded.
  - intros s key message oldest rest <- Hq Hfull. unfold queueMessage.
    cbn [messageQueues setMessageQueues config]. rewrite lookup_insert_eq, Hq.
    change (default [] (Some (oldest :: rest))) with (oldest :: rest). f_equal.
    destruct (Z.gtb_spec (Z.of_nat (length ((oldest :: rest) ++ [message])))
                (messageQueueMaxSize (config s))) as [Hgt|Hle]; [done|].
    rewrite length_app in Hle. cbn in *. lia.
  - intros s key message <- Hroom. unfold queueMessage.
    cbn [messageQueues setMessageQueues config]. rewrite lookup_insert_eq. f_equal.
    destruct (Z.gtb_spec
                (Z.of_nat (length (default [] (messageQueues s !! key) ++ [message])))
                (messageQueueMaxSize (config s))) as [Hgt|Hle]; [|done].
    rewrite length_app in Hgt. cbn in *. lia.
Qed.

(** While the counter of [key] is exhausted, only 'open' and [cleanup]
    change it. *)
Lemma step_attempts_exhausted a s key :
  maxReconnectAttempts (config s) <= Z.of_nat (getReconnectAttempts s key) ->
  getReconnectAttempts (step a s) key = getReconnectAttempts s key \/
  opens s a key \/ releases a key.
Proof.
  intros Hge. destruct a; cbn [step].
  - left. apply attempts_of_frame, connectToSketch_quiet.
  - left. apply attempts_of_frame, connectToServer_quiet.
  - left. apply attempts_of_frame, sendMessage_frame.
  - destruct (decide (connectionKey = key)) as [->|Hne]; [right; right; by left|].
    left. unfold getReconnectAttempts.
    destruct (closeConnection_frame connectionKey s) as (_ & -> & _).
    by rewrite lookup_delete_ne.
  - right. right. right. by left.
  - right. right. right. by right.
  - destruct (sockets s !! ws) as [sock|] eqn:Hsock; [|by left].
    destruct (readyState sock) eqn:Hready; [|by left..].
    destruct (decide (sockKey sock = key)) as [Hk|Hne].
    { right. left. by exists ws, sock. }
    left. unfold getReconnectAttempts.
    match goal with |- context [onOpen ?ws ?k ?url ?s1] =>
      destruct (onOpen_frame ws k url s1) as (_ & ->) end.
    by rewrite lookup_insert_ne.
  - left. destruct (sockets s !! ws); [|done].
    apply attempts_of_frame, onMessage_quiet.
  - left. destruct (sockets s !! ws) as [sock|]; [|done].
    destruct (readyState sock); [..|done].
    all: match goal with |- context [onClose ?k ?c ?r ?s1] =>
      exact (proj2 (proj2 (proj2 (proj2 (handleConnectionClose_retrying k c r
                                    (print (LogClosed k c r) s1)))) key Hge)) end.
  - left. destruct (sockets s !! ws) as [sock|]; [|done].
    match goal with |- context [onError ?k ?e s] =>
      exact (proj2 (proj2 (proj2 (proj2 (handleConnectionError_retrying k e
                                    (print (ErrorSocket k) s)))) key Hge)) end.
  - left. by apply fireTimer_retrying.
Qed.

Lemma opens_restarts s a key : opens s a key -> restarts a = true.
Proof. by intros (ws & sock & -> & _). Qed.

Lemma releases_restarts a key : releases a key -> restarts a = true.
Proof. by intros [->|[->| ->]]. Qed.

(** From a state in which the counter of [key] is exhausted, as long as no
    socket opens and no connection is closed by the caller, the counter
    stays and no reconnect timer is armed for [key]. *)
Lemma run_exhausted actions s key :
  maxReconnectAttempts (config s) <= Z.of_nat (getReconnectAttempts s key) ->
  Forall (fun a => restarts a = false) actions ->
  reconnectDelaysFor key (run actions s) = reconnectDelaysFor key s /\
  getReconnectAttempts (run actions s) key = getReconnectAttempts s key.
Proof.
  intros Hge Hactions. revert s Hge.
  induction Hactions as [|a actions Ha _ IH]; intros s Hge; [done|].
  assert (getReconnectAttempts (step a s) key = getReconnectAttempts s key) as Hsame.
  { destruct (step_attempts_exhausted a s key Hge) as [H|[H|H]]; [done|..].
    - apply opens_restarts in H. congruence.
    - apply releases_restarts in H. congruence. }
  cbn [run foldl]. fold (run actions (step a s)).
  destruct (IH (step a s)) as [Hd Hk]; [by rewrite step_config, Hsame|].
  by rewrite Hd, Hk, step_exhausted.
Qed.

(** An abnormal close below the limit arms the next backoff timer. *)
Lemma onClose_schedules key code reason s :
  code <> 1000 ->
  Z.of_nat (getReconnectAttempts s key) < maxReconnectAttempts (config s) ->
  let s' := onClose key code reason s in
  reconnectDelaysFor key s'
  = reconnectDelaysFor key s ++ [backoff (config s) (getReconnectAttempts s key + 1)] /\
  getReconnectAttempts s' key = (getReconnectAttempts s key + 1)%nat /\
  config s' = config s.
Proof.
  intros Hcode Hlt. unfold onClose.
  rewrite handleConnectionClose_abnormal by done.
  set (s1 := setConnections _ _).
  destruct (stopHeartbeat_quiet key s1) as (Ha & _ & Hc & Hd).
  destruct (handleReconnection_retry key (stopHeartbeat key s1))
    as (Htimers & Hattempts & _ & Hconfig & _).
  { by rewrite Hc, (attempts_of_frame _ _ key Ha). }
  rewrite (attempts_of_frame _ _ key Ha), Hc in Htimers.
  rewrite (attempts_of_frame _ _ key Ha) in Hattempts.
  change (getReconnectAttempts s1 key) with (getReconnectAttempts s key) in *.
  change (config s1) with (config s) in *.
  split_and!.
  - unfold reconnectDelaysFor at 1. rewrite Htimers, omap_app. cbn.
    rewrite decide_True by done. fold (reconnectDelaysFor key (stopHeartbeat key s1)).
    rewrite Hd. unfold backoff.
    by replace (Z.of_nat (getReconnectAttempts s key + 1) - 1)
      with (Z.of_nat (getReconnectAttempts s key)) by lia.
  - unfold getReconnectAttempts at 1. by rewrite Hattempts, Ha, lookup_insert_eq.
  - by rewrite Hconfig, Hc.
Qed.

Lemma closes_schedule key (codes : list Z) s :
  Forall (fun code => code <> 1000) codes ->
  Z.of_nat (getReconnectAttempts s key + length codes)
    <= maxReconnectAttempts (config s) ->
  let s' := foldl (fun s code => onClose key code "" s) s codes in
  reconnectDelaysFor key s'
  = reconnectDelaysFor key s
    ++ map (backoff (config s)) (seq (getReconnectAttempts s key + 1) (length codes)) /\
  getReconnectAttempts s' key = (getReconnectAttempts s key + length codes)%nat.
Proof.
  intros Hcodes. revert s.
  induction Hcodes as [|code codes Hcode _ IH]; intros s Hle.
  - cbn. by rewrite app_nil_r, Nat.add_0_r.
  - cbn [foldl length] in *.
    destruct (onClose_schedules key code "" s Hcode) as (Hd & Ha & Hc); [lia|].
    destruct (IH (onClose key code "" s)) as [Hd' Ha'].
    { rewrite Hc, Ha. lia. }
    cbn zeta in Hd', Ha'. rewrite Hd', Ha', Hd, Ha, Hc. split; [|lia].
    rewrite <-app_assoc. cbn [seq map app].
    by rewrite (Nat.add_1_r (getReconnectAttempts s key + 1)).
Qed.

(** C3, as amended.  [handleReconnection], entered with the counter at
    [k - 1] below the limit, arms the timer of retry attempt [k] with delay
    min(reconnectInterval * reconnectBackoffMultiplier^(k-1),
    maxReconnectInterval) and moves the counter to [k]; so a sequence of
    consecutive abnormal closes, starting from counter 0, arms these delays
    for k = 1, 2, ... in order.  The 'open' handler sets the counter to 0,
    and the counter of a key goes back to 0 only through the 'open' event of
    a socket of that key or through the release of the key's state by
    [closeConnection], [closeAllConnections] or [dispose]. *)
Theorem reconnect_backoff_schedule key :
  (forall s k,
     (1 <= k)%nat -> getReconnectAttempts s key = (k - 1)%nat ->
     Z.of_nat k <= maxReconnectAttempts (config s) ->
     let s' := handleReconnection key s in
     timers s'
     = timers s
       ++ [mkTimer (ReconnectTimer key k)
             (Z.min (reconnectInterval (config s)
                     * reconnectBackoffMultiplier (config s) ^ (Z.of_nat k - 1))
                    (maxReconnectInterval (config s)))
             true] /\
     getReconnectAttempts s' key = k) /\
  (forall s codes,
     Forall (fun code => code <> 1000) codes ->
     getReconnectAttempts s key = 0%nat ->
     Z.of_nat (length codes) <= maxReconnectAttempts (config s) ->
     reconnectDelaysFor key (foldl (fun s code => onClose key code "" s) s codes)
     = reconnectDelaysFor key s
       ++ map (fun k => Z.min (reconnectInterval (config s)
                               * reconnectBackoffMultiplier (config s) ^ (Z.of_nat k - 1))
                              (maxReconnectInterval (config s)))
            (seq 1 (length codes))) /\
  (forall s ws sock,
     sockets s !! ws = Some sock -> sockKey sock = key ->
     readyState sock = WS_CONNECTING ->
     getReconnectAttempts (step (WsOpen ws) s) key = 0%nat) /\
  (forall s a,
     getReconnectAttempts s key <> 0%nat ->
     getReconnectAttempts (step a s) key = 0%nat ->
     opens s a key \/ releases a key).
Proof.
  split_and!.
  - intros s k Hk Hattempts Hle.
    destruct (handleReconnection_retry key s) as (Htimers & Hcount & _); [lia|].
    cbn zeta in *. rewrite Htimers, Hattempts. split.
    + replace (k - 1 + 1)%nat with k by lia.
      by replace (Z.of_nat k - 1) with (Z.of_nat (k - 1)) by lia.
    + unfold getReconnectAttempts. rewrite Hcount, lookup_insert_eq. cbn. lia.
  - intros s codes Hcodes Hzero Hle.
    destruct (closes_schedule key codes s Hcodes) as [Hd _]; [lia|].
    cbn zeta in Hd. by rewrite Hd, Hzero.
  - intros s ws sock Hsock Hkey Hready. cbn [step]. rewrite Hsock, Hready.
    unfold getReconnectAttempts.
    match goal with |- context [onOpen ?ws ?k ?url ?s1] =>
      destruct (onOpen_frame ws k url s1) as (_ & ->) end.
    by rewrite Hkey, lookup_insert_eq.
  - intros s a. apply step_no_reset.
Qed.

Lemma reconnect_backoff_schedule_witness :
  reconnectDelaysFor "server"
    (foldl (fun s code => onClose "server" code "" s)
       (run [ConnectToServer "ws://localhost:8083" (Some reliable); WsOpen 0]
          (newManager defaultConfig))
       [1006; 1006; 1001])
  = [1000; 2000; 4000].
Proof.
  refine (proj1 (proj2 (reconnect_backoff_schedule "server"))
            (run [ConnectToServer "ws://localhost:8083" (Some reliable); WsOpen 0]
               (newManager defaultConfig))
            [1006; 1006; 1001] _ _ _).
  - repeat constructor; discriminate.
  - reflexivity.
  - by vm_compute.
Defined.

(** C3 as stated fails in its last part: after one lost connection the
    counter of 'server' is 1; [closeConnection] brings it back to 0 without
    any 'open' event, and the next lost attempt is again scheduled with the
    base delay. *)
Lemma attempts_reset_by_close :
  getReconnectAttempts lostOnce "server" = 1%nat /\
  getReconnectAttempts (step (CloseConnection "server") lostOnce) "server" = 0%nat /\
  ~ opens lostOnce (CloseConnection "server") "server" /\
  reconnectDelaysFor "server"
    (run [CloseConnection "server";
          ConnectToServer "ws://localhost:8083" (Some reliable);
          WsError 1 "ECONNREFUSED"; WsClose 1 1006 ""] lostOnce)
  = [1000; 1000].
Proof.
  split_and!; [by vm_compute|by vm_compute| |by vm_compute].
  by intros (ws & sock & Ha & _).
Qed.

(** C4, as amended.  Once the counter of a key has reached
    [maxReconnectAttempts], no reconnect timer is armed for the key any more:
    a close of its socket, whatever the code, sets the status to
    [DISCONNECTED] and emits 'disconnected' with the code and the reason;
    [handleReconnection] itself (reached from an error on a connected socket
    or from the [catch] of the reconnect timer) sets the status to [FAILED]
    and emits 'connectionFailed' with the attempt count; no action at all
    arms a reconnect timer for the key, and the counter stays as it is until
    a socket of the key opens or the key is released, so that nothing but a
    new connect call can start another cycle. *)
Theorem exhausted_attempts_stop_reconnecting s key :
  maxReconnectAttempts (config s) <= Z.of_nat (getReconnectAttempts s key) ->
  (forall code reason,
     let s' := handleConnectionClose key code reason s in
     getConnectionStatus s' key = DISCONNECTED /\
     emitted s' = emitted s ++ [EvStatusChanged key DISCONNECTED;
                                EvDisconnected key code reason] /\
     reconnectDelays s' = reconnectDelays s) /\
  (let s' := handleReconnection key s in
   getConnectionStatus s' key = FAILED /\
   emitted s' = emitted s ++ [EvStatusChanged key FAILED;
                              EvConnectionFailed key (getReconnectAttempts s key)] /\
   timers s' = timers s) /\
  (forall a,
     reconnectDelaysFor key (step a s) = reconnectDelaysFor key s /\
     (getReconnectAttempts (step a s) key = getReconnectAttempts s key \/
      opens s a key \/ releases a key)) /\
  (forall actions,
     Forall (fun a => restarts a = false) actions ->
     reconnectDelaysFor key (run actions s) = reconnectDelaysFor key s /\
     getReconnectAttempts (run actions s) key = getReconnectAttempts s key).
Proof.
  intros Hge. split_and!.
  - intros code reason. cbn zeta. rewrite handleConnectionClose_exhausted by done.
    set (s1 := setConnections _ _).
    destruct (stopHeartbeat_frame key s1) as (_&_&_&_&_&_&_& He & _ & Hd & _).
    split_and!.
    + apply status_after_set.
    + cbn. rewrite He. cbn. by rewrite <-app_assoc.
    + exact Hd.
  - cbn zeta. rewrite handleReconnection_exhausted by done. split_and!.
    + apply status_after_set.
    + cbn. by rewrite <-app_assoc.
    + done.
  - intros a. split; [by apply step_exhausted|by apply step_attempts_exhausted].
  - intros actions. by apply run_exhausted.
Qed.

Lemma exhausted_attempts_stop_reconnecting_witness :
  getConnectionStatus (handleReconnection "server" exhaustedRun) "server" = FAILED.
Proof.
  refine (proj1 (proj1 (proj2 (exhausted_attempts_stop_reconnecting
                                 exhaustedRun "server" _)))).
  by vm_compute.
Defined.

(** C4 as stated fails on the path the failures take.  The connection is
    lost and three reconnections fail, with [maxReconnectAttempts = 3]: the
    delays are 1000, 2000 and 4000 ms and the counter is 3, but the last
    close leaves the status at [DISCONNECTED], not [FAILED], and no
    'connectionFailed' notification is ever emitted; the last notification is
    'disconnected', which carries no attempt count. *)
Lemma exhausted_retries_end_disconnected :
  reconnectDelaysFor "server" exhaustedRun = [1000; 2000; 4000] /\
  getReconnectAttempts exhaustedRun "server" = 3%nat /\
  getConnectionStatus exhaustedRun "server" = DISCONNECTED /\
  getConnectionStatus exhaustedRun "server" <> FAILED /\
  filter (fun n => isConnectionFailed n = true) (emitted exhaustedRun) = [] /\
  last (emitted exhaustedRun) = Some (EvDisconnected "server" 1006 "").
Proof. vm_compute. split_and!; [reflexivity..|discriminate|reflexivity|reflexivity]. Qed.

Lemma queue_bounded_drop_oldest_witness :
  let cfg := mkConfig 5 1000 30000 2 30000 2 in
  let s := run [SendMessage "server" "first" JNull "id-1" 1;
                SendMessage "server" "second" JNull "id-2" 2] (newManager cfg) in
  messageQueues (queueMessage "server" (mkMessage "third" JNull 3 "id-3") s) !! "server"%string
  = Some [mkMessage "second" JNull 2 "id-2"; mkMessage "third" JNull 3 "id-3"].
Proof.
  intros cfg s.
  refine (proj1 (proj2 (proj2 (queue_bounded_drop_oldest cfg _)))
            s "server" (mkMessage "third" JNull 3 "id-3")
            (mkMessage "first" JNull 1 "id-1") [mkMessage "second" JNull 2 "id-2"]
            _ _ _).
  - by vm_compute.
  - reflexivity.
  - by vm_compute.
  - reflexivity.
Defined.

(** ** Flushing on open *)

Lemma withSent_same sock : withSent (sent sock) sock = sock.
Proof. by destruct sock. Qed.

Lemma flushLoop_accepts frames sock :
  acceptsAll (acceptSend sock) (sent sock) frames = true ->
  flushLoop sock frames = (withSent (sent sock ++ frames) sock, [], false).
Proof.
  revert sock. induction frames as [|m frames IH]; intros sock Hall; cbn.
  - by rewrite app_nil_r, withSent_same.
  - cbn in Hall. apply andb_true_iff in Hall as [Hm Hall].
    unfold wsSend. rewrite Hm.
    rewrite (IH (withSent (sent sock ++ [m]) sock)) by done.
    cbn. by rewrite <-app_assoc.
Qed.

Lemma flushLoop_rejects sent_ok failed rest sock :
  acceptsAll (acceptSend sock) (sent sock) sent_ok = true ->
  acceptSend sock (sent sock ++ sent_ok) failed = false ->
  flushLoop sock (sent_ok ++ failed :: rest)
  = (withSent (sent sock ++ sent_ok) sock, failed :: rest, true).
Proof.
  revert sock. induction sent_ok as [|m frames IH]; intros sock Hall Hfail; cbn.
  - rewrite app_nil_r in *. unfold wsSend. by rewrite Hfail, withSent_same.
  - cbn in Hall. apply andb_true_iff in Hall as [Hm Hall].
    unfold wsSend. rewrite Hm.
    rewrite (IH (withSent (sent sock ++ [m]) sock)); cbn.
    + by rewrite <-app_assoc.
    + done.
    + by rewrite <-app_assoc.
Qed.

(** The state after the 'open' handler, in terms of the flush loop run on
    the queue of the key. *)
Lemma onOpen_flush ws key url s sock :
  sockets s !! ws = Some sock -> readyState sock = WS_OPEN ->
  let queue := default [] (messageQueues s !! key) in
  let s' := onOpen ws key url s in
  connections s' !! key = Some ws /\
  sockets s' !! ws = Some (flushLoop sock queue).1.1 /\
  default [] (messageQueues s' !! key) = (flushLoop sock queue).1.2 /\
  (queue <> [] -> messageQueues s' !! key = Some (flushLoop sock queue).1.2) /\
  getConnectionStatus s' key = CONNECTED.
Proof.
  intros Hsock Hready queue s'.
  pose proof (lookup_lt_Some _ _ _ Hsock) as Hlt.
  unfold s', onOpen.
  set (s3 := startHeartbeat key _).
  assert (connections s3 !! key = Some ws) as Hconn by (cbn; by rewrite lookup_insert_eq).
  assert (sockets s3 = sockets s) as Hsockets by done.
  assert (messageQueues s3 = messageQueues s) as Hqueues by done.
  assert (getConnectionStatus s3 key = CONNECTED) as Hstatus
    by (unfold getConnectionStatus; cbn; by rewrite lookup_insert_eq).
  assert (connectionStatus (flushMessageQueue key s3) = connectionStatus s3) as Hst
    by (unfold flushMessageQueue; by repeat case_match).
  assert (connections (flushMessageQueue key s3) = connections s3) as Hco
    by (unfold flushMessageQueue; by repeat case_match).
  unfold getConnectionStatus in *. cbn [connections connectionStatus emit].
  rewrite Hst, Hco. split; [done|]. split_and!; [..|done]; cbn [sockets messageQueues emit].
  all: unfold queue; destruct (messageQueues s !! key) as [[|m q]|] eqn:Hq.
  all: try (assert (flushMessageQueue key s3 = s3) as ->
              by (unfold flushMessageQueue; by rewrite Hqueues, Hq)).
  all: try (cbn [default flushLoop fst snd]; rewrite ?Hsockets, ?Hqueues, ?Hq; done).
  all: change (default [] (Some (m :: q))) with (m :: q).
  all: unfold flushMessageQueue; rewrite Hqueues, Hq, Hconn, Hsockets, Hsock, Hready.
  all: destruct (flushLoop sock (m :: q)) as [[sock' remaining] threw].
  all: cbn [fst snd sockets messageQueues setMessageQueues setSockets].
  - by rewrite list_lookup_insert_eq by (by destruct threw).
  - by rewrite lookup_insert_eq.
  - intros _. by rewrite lookup_insert_eq.
Qed.

(** C7.  The 'open' event of a socket is the transition of its key into
    [CONNECTED], and the handler flushes the queue of the key before it
    returns.  When the socket accepts every queued message, the messages go
    out on it in the order in which they were queued, the queue is left
    empty, and a message sent afterwards goes out behind them.  When the
    socket rejects a queued message, the messages before it have gone out,
    and the queue keeps the rejected message at its front followed by the
    messages behind it, unchanged. *)
Theorem open_flushes_queue_in_order s (ws : nat) (sock : Socket) :
  sockets s !! ws = Some sock ->
  readyState sock = WS_CONNECTING ->
  let key := sockKey sock in
  let queue := default [] (messageQueues s !! key) in
  let s' := step (WsOpen ws) s in
  getConnectionStatus s' key = CONNECTED /\
  (acceptsAll (acceptSend sock) (sent sock) queue = true ->
     sent <$> sockets s' !! ws = Some (sent sock ++ queue) /\
     default [] (messageQueues s' !! key) = [] /\
     forall type payload uuid now,
       acceptSend sock (sent sock ++ queue) (mkMessage type payload now uuid) = true ->
       (sendMessage key type payload uuid now s').1 = Returned /\
       sent <$> sockets (sendMessage key type payload uuid now s').2 !! ws
       = Some (sent sock ++ queue ++ [mkMessage type payload now uuid])) /\
  (forall sent_ok failed rest,
     queue = sent_ok ++ failed :: rest ->
     acceptsAll (acceptSend sock) (sent sock) sent_ok = true ->
     acceptSend sock (sent sock ++ sent_ok) failed = false ->
     sent <$> sockets s' !! ws = Some (sent sock ++ sent_ok) /\
     messageQueues s' !! key = Some (failed :: rest)).
Proof.
  intros Hsock Hready key queue s'.
  pose proof (lookup_lt_Some _ _ _ Hsock) as Hlt.
  unfold s'. cbn [step]. rewrite Hsock, Hready. fold key.
  set (opened := withReadyState WS_OPEN sock).
  set (s0 := setSockets _ s).
  assert (sockets s0 !! ws = Some opened) as Hopened
    by (cbn; by rewrite list_lookup_insert_eq).
  destruct (onOpen_flush ws key (sockUrl sock) s0 opened Hopened eq_refl)
    as (Hconn & Hsocket & Hqueue & Hkept & Hstatus).
  change (default [] (messageQueues s0 !! key)) with queue in *.
  split; [done|]. split.
  - intros Hall.
    rewrite (flushLoop_accepts queue opened Hall) in Hsocket, Hqueue.
    cbn [fst snd] in *. split_and!.
    + by rewrite Hsocket.
    + done.
    + intros type payload uuid now Haccept. unfold sendMessage.
      rewrite Hconn, Hsocket. unfold wsSend, opened.
      cbn [readyState sent acceptSend withSent withReadyState]. rewrite Haccept.
      cbn [fst snd sockets setSockets]. split; [done|].
      rewrite list_lookup_insert_eq by (by eapply lookup_lt_Some).
      cbn. by rewrite <-app_assoc.
  - intros sent_ok failed rest Hsplit Hall Hfail.
    assert (queue <> []) as Hne by (rewrite Hsplit; by destruct sent_ok).
    specialize (Hkept Hne). rewrite Hsplit in Hsocket, Hkept.
    rewrite (flushLoop_rejects sent_ok failed rest opened Hall Hfail) in Hsocket, Hkept.
    cbn [fst snd] in *. split; [by rewrite Hsocket|done].
Qed.

Lemma open_flushes_queue_in_order_witness :
  sent <$> sockets (step (WsOpen 0) queuedBeforeOpen) !! 0%nat
  = Some (sent pendingServerSocket
          ++ default [] (messageQueues queuedBeforeOpen !! sockKey pendingServerSocket)).
Proof.
  refine (proj1 (proj1 (proj2 (open_flushes_queue_in_order queuedBeforeOpen 0
                                 pendingServerSocket _ _)) _)).
  - by vm_compute.
  - reflexivity.
  - by vm_compute.
Defined.

(** The queued messages of [queuedBeforeOpen] are the first frames on the
    new socket, in the order in which they were sent. *)
Example queued_messages_go_first :
  sent <$> sockets (step (WsOpen 0) queuedBeforeOpen) !! 0%nat
  = Some [mkMessage "execute" JNull 1 "id-1"; mkMessage "export" JNull 2 "id-2"].
Proof. by vm_compute. Qed.

(** ** Keys that were never connected *)

Lemma unknown_frame key s s' :
  connectionStatus s' = connectionStatus s -> sockets s' = sockets s ->
  timers s' = timers s -> Unknown key s -> Unknown key s'.
Proof. unfold Unknown. by intros -> -> ->. Qed.

Lemma unknown_emit key n s : Unknown key s -> Unknown key (emit n s).
Proof. intros H. exact H. Qed.

Lemma unknown_print key line s : Unknown key s -> Unknown key (print line s).
Proof. intros H. exact H. Qed.

Lemma unknown_setConnections key v s : Unknown key s -> Unknown key (setConnections v s).
Proof. intros H. exact H. Qed.

Lemma unknown_setReconnectAttempts key v s :
  Unknown key s -> Unknown key (setReconnectAttempts v s).
Proof. intros H. exact H. Qed.

Lemma unknown_setReconnectTimers key v s :
  Unknown key s -> Unknown key (setReconnectTimers v s).
Proof. intros H. exact H. Qed.

Lemma unknown_setHeartbeatTimers key v s :
  Unknown key s -> Unknown key (setHeartbeatTimers v s).
Proof. intros H. exact H. Qed.

Lemma unknown_setMessageQueues key v s :
  Unknown key s -> Unknown key (setMessageQueues v s).
Proof. intros H. exact H. Qed.

Lemma unknown_status key k st s :
  k <> key -> Unknown key s -> Unknown key (setConnectionStatus k st s).
Proof.
  intros Hne (Hs & Hk & Ht). split_and!; [|done..]. cbn. by rewrite lookup_insert_ne.
Qed.

Lemma unknown_forget key k s :
  Unknown key s -> Unknown key (setStatusMap (delete k (connectionStatus s)) s).
Proof.
  intros (Hs & Hk & Ht). split_and!; [|done..]. cbn.
  apply lookup_delete_None. by right.
Qed.

Lemma unknown_arm key kind delay s :
  timerKey kind <> key -> Unknown key s -> Unknown key (armTimer kind delay s).
Proof.
  intros Hne (Hs & Hk & Ht). split_and!; [done..|]. cbn.
  apply Forall_app_2; [done|]. by constructor.
Qed.

Lemma unknown_clear key handle s : Unknown key s -> Unknown key (clearTimer handle s).
Proof.
  intros (Hs & Hk & Ht). split_and!; [done..|]. cbn.
  apply Forall_alter; [done|]. by intros t _ H.
Qed.

Lemma unknown_socket key ws sock s :
  sockKey sock <> key -> Unknown key s ->
  Unknown key (setSockets (<[ws := sock]> (sockets s)) s).
Proof.
  intros Hne (Hs & Hk & Ht). split_and!; [done| |done]. cbn. by apply Forall_insert.
Qed.

Lemma unknown_close key ws s :
  Unknown key s -> Unknown key (setSockets (alter wsClose ws (sockets s)) s).
Proof.
  intros (Hs & Hk & Ht). split_and!; [done| |done]. cbn.
  apply Forall_alter; [done|]. intros sock _ H. unfold wsClose. by case_match.
Qed.

Lemma unknown_socket_key key s ws sock :
  Unknown key s -> sockets s !! ws = Some sock -> sockKey sock <> key.
Proof. intros (_ & Hk & _) Hl. by eapply (Forall_lookup_1 _ _ _ _ Hk). Qed.

Lemma unknown_timer_key key s handle t :
  Unknown key s -> timers s !! handle = Some t -> timerKey (timerKind t) <> key.
Proof. intros (_ & _ & Ht) Hl. by eapply (Forall_lookup_1 _ _ _ _ Ht). Qed.

Ltac unknown :=
  repeat first
    [ assumption
    | apply unknown_emit | apply unknown_print
    | apply unknown_setConnections | apply unknown_setReconnectAttempts
    | apply unknown_setReconnectTimers | apply unknown_setHeartbeatTimers
    | apply unknown_setMessageQueues
    | apply unknown_status; [assumption|]
    | apply unknown_forget
    | apply unknown_arm; [assumption|]
    | apply unknown_clear
    | apply unknown_close
    | apply unknown_socket; [cbn; assumption|] ].

Lemma unknown_stopHeartbeat key k s : Unknown key s -> Unknown key (stopHeartbeat k s).
Proof. intros H. unfold stopHeartbeat. case_match; unknown. Qed.

Lemma unknown_handleReconnection key k s :
  k <> key -> Unknown key s -> Unknown key (handleReconnection k s).
Proof.
  intros Hne H. unfold handleReconnection.
  assert (forall n, timerKey (ReconnectTimer k n) <> key) by done.
  case_match; unknown.
Qed.

Lemma unknown_handleConnectionClose key k code reason s :
  k <> key -> Unknown key s -> Unknown key (handleConnectionClose k code reason s).
Proof.
  intros Hne H. unfold handleConnectionClose. case_match.
  - unknown. apply unknown_stopHeartbeat. unknown.
  - apply unknown_handleReconnection; [done|]. apply unknown_stopHeartbeat. unknown.
Qed.

Lemma unknown_handleConnectionError key k error s :
  k <> key -> Unknown key s -> Unknown key (handleConnectionError k error s).
Proof.
  intros Hne H. unfold handleConnectionError. case_match.
  - apply unknown_handleReconnection; [done|]. unknown.
  - unknown.
Qed.

Lemma unknown_onMessage key k data s : Unknown key s -> Unknown key (onMessage k data s).
Proof.
  intros H. destruct (onMessage_output k data s) as (_&?&_&_&_&_&_&?&?).
  by eapply unknown_frame.
Qed.

Lemma wsSend_key m sock sock' : wsSend m sock = Some sock' -> sockKey sock' = sockKey sock.
Proof. unfold wsSend. case_match; [|done]. by intros [= <-]. Qed.

Lemma flushLoop_key sock queue : sockKey (flushLoop sock queue).1.1 = sockKey sock.
Proof.
  revert sock. induction queue as [|m queue IH]; intros sock; cbn [flushLoop]; [done|].
  destruct (wsSend m sock) as [sock'|] eqn:Hsend; [|done].
  rewrite IH. by eapply wsSend_key.
Qed.

Lemma unknown_queueMessage key k m s : Unknown key s -> Unknown key (queueMessage k m s).
Proof. intros H. unfold queueMessage. unknown. Qed.

Lemma unknown_flushMessageQueue key k s :
  Unknown key s -> Unknown key (flushMessageQueue k s).
Proof.
  intros H. unfold flushMessageQueue.
  destruct (messageQueues s !! k) as [[|m q]|]; [done| |done].
  destruct (connections s !! k) as [ws|]; [|done].
  destruct (sockets s !! ws) as [sock|] eqn:Hsock; [|done].
  pose proof (unknown_socket_key _ _ _ _ H Hsock) as Hne.
  destruct (readyState sock); try done.
  pose proof (flushLoop_key sock (m :: q)) as Hkey.
  destruct (flushLoop sock (m :: q)) as [[sock' remaining] threw]. cbn in Hkey.
  rewrite <-Hkey in Hne. destruct threw; unknown.
Qed.

Lemma unknown_sendMessage key k type payload uuid now s :
  Unknown key s -> Unknown key (sendMessage k type payload uuid now s).2.
Proof.
  intros H. unfold sendMessage.
  destruct (connections s !! k) as [ws|]; [|by apply unknown_queueMessage].
  destruct (sockets s !! ws) as [sock|] eqn:Hsock; [|by apply unknown_queueMessage].
  pose proof (unknown_socket_key _ _ _ _ H Hsock) as Hne.
  destruct (readyState sock); try by apply unknown_queueMessage.
  destruct (wsSend _ sock) as [sock'|] eqn:Hsend; cbn [snd]; [|unknown].
  apply wsSend_key in Hsend. rewrite <-Hsend in Hne. unknown.
Qed.

Lemma unknown_heartbeatTick key k uuid now s :
  Unknown key s -> Unknown key (heartbeatTick k uuid now s).
Proof.
  intros H. unfold heartbeatTick.
  destruct (connections s !! k) as [ws|]; [|by apply unknown_stopHeartbeat].
  destruct (sockets s !! ws) as [sock|] eqn:Hsock; [|by apply unknown_stopHeartbeat].
  pose proof (unknown_socket_key _ _ _ _ H Hsock) as Hne.
  destruct (readyState sock); try by apply unknown_stopHeartbeat.
  destruct (wsSend _ sock) as [sock'|] eqn:Hsend.
  - apply wsSend_key in Hsend. rewrite <-Hsend in Hne. unknown.
  - apply unknown_stopHeartbeat. unknown.
Qed.

Lemma unknown_reconnectTick key k attempt listenerThrows s :
  k <> key -> Unknown key s -> Unknown key (reconnectTick k attempt listenerThrows s).
Proof.
  intros Hne H. unfold reconnectTick. destruct listenerThrows; [|unknown].
  apply unknown_handleReconnection; [done|]. unknown.
Qed.

Lemma unknown_connectionTimeoutTick key k ws s :
  Unknown key s -> Unknown key (connectionTimeoutTick k ws s).
Proof. intros H. unfold connectionTimeoutTick. case_match; unknown. Qed.

Lemma unknown_fireTimer key handle uuid now listenerThrows s :
  Unknown key s -> Unknown key (fireTimer handle uuid now listenerThrows s).
Proof.
  intros H. unfold fireTimer.
  destruct (timers s !! handle) as [t|] eqn:Ht; [|done].
  pose proof (unknown_timer_key _ _ _ _ H Ht) as Hne.
  destruct (timerActive t); [|done].
  destruct (timerKind t); cbn in Hne.
  - apply unknown_reconnectTick; [done|]. unknown.
  - by apply unknown_heartbeatTick.
  - apply unknown_connectionTimeoutTick. unknown.
Qed.

Lemma unknown_createConnection key k url behaviour s :
  k <> key -> Unknown key s -> Unknown key (createConnection k url behaviour s).2.
Proof.
  intros Hne H. unfold createConnection. destruct behaviour as [accept|]; cbn [snd].
  - apply unknown_arm; [done|].
    assert (Unknown key (setConnectionStatus k CONNECTING s)) as (Hs & Hk & Ht) by unknown.
    split_and!; [done| |done]. cbn. apply Forall_app_2; [done|]. by constructor.
  - unknown.
Qed.

Lemma unknown_cleanup key k s : Unknown key s -> Unknown key (cleanup k s).
Proof.
  intros H. unfold cleanup.
  assert (Unknown key (stopHeartbeat k
            (setMessageQueues (delete k (messageQueues s))
               (setReconnectAttempts (delete k (reconnectAttempts s))
                  (setStatusMap (delete k (connectionStatus s))
                     (setConnections (delete k (connections s)) s)))))) as Hstop.
  { apply unknown_stopHeartbeat.
    apply unknown_setMessageQueues, unknown_setReconnectAttempts.
    apply (unknown_forget key k (setConnections (delete k (connections s)) s)).
    by apply unknown_setConnections. }
  case_match; unknown.
Qed.

Lemma unknown_closeConnection key k s : Unknown key s -> Unknown key (closeConnection k s).
Proof. intros H. unfold closeConnection. apply unknown_cleanup. case_match; unknown. Qed.

Lemma unknown_closeAll key (keys : list string) s :
  Unknown key s -> Unknown key (foldr closeConnection s keys).
Proof.
  intros H. induction keys as [|k keys IH]; [done|]. cbn.
  by apply unknown_closeConnection.
Qed.

Lemma unknown_onOpen key ws k url s :
  k <> key -> Unknown key s -> Unknown key (onOpen ws k url s).
Proof.
  intros Hne H. unfold onOpen. apply unknown_emit, unknown_flushMessageQueue.
  unfold startHeartbeat. apply unknown_setHeartbeatTimers, unknown_arm; [done|].
  unknown.
Qed.

(** A key for which no connect call was made has no status entry, no
    socket and no timer, whatever else happens. *)
Lemma unknown_step key a s :
  connectKey a <> Some key -> Unknown key s -> Unknown key (step a s).
Proof.
  intros Hconnect H. destruct a; cbn [step].
  - unfold connectToSketch. case_match; [done|].
    apply unknown_createConnection; [|done]. intros Heq. apply Hconnect. cbn. by rewrite Heq.
  - unfold connectToServer. case_match; [done|].
    apply unknown_createConnection; [|done]. intros Heq. apply Hconnect. cbn. by rewrite Heq.
  - by apply unknown_sendMessage.
  - by apply unknown_closeConnection.
  - by apply unknown_closeAll.
  - by apply unknown_closeAll.
  - destruct (sockets s !! ws) as [sock|] eqn:Hsock; [|done].
    pose proof (unknown_socket_key _ _ _ _ H Hsock) as Hne.
    destruct (readyState sock); [|done..].
    apply unknown_onOpen; [done|]. unknown.
  - destruct (sockets s !! ws) as [sock|]; [|done]. by apply unknown_onMessage.
  - destruct (sockets s !! ws) as [sock|] eqn:Hsock; [|done].
    pose proof (unknown_socket_key _ _ _ _ H Hsock) as Hne.
    destruct (readyState sock); [..|done].
    all: unfold onClose; apply unknown_handleConnectionClose; [done|]; unknown.
  - destruct (sockets s !! ws) as [sock|] eqn:Hsock; [|done].
    pose proof (unknown_socket_key _ _ _ _ H Hsock) as Hne.
    unfold onError. apply unknown_handleConnectionError; [done|]. unknown.
  - by apply unknown_fireTimer.
Qed.

Lemma unknown_run key actions s :
  Forall (fun a => connectKey a <> Some key) actions ->
  Unknown key s -> Unknown key (run actions s).
Proof.
  intros Hactions. revert s. induction Hactions as [|a actions Ha _ IH]; intros s H; [done|].
  cbn. apply IH. by apply unknown_step.
Qed.


(** ** Status lookup *)

Lemma closeConnection_status k s :
  connectionStatus (closeConnection k s) = delete k (connectionStatus s).
Proof. unfold closeConnection, cleanup, stopHeartbeat. by repeat case_match. Qed.

Lemma closeAll_status key (keys : list string) s :
  key ∈ keys -> connectionStatus (foldr closeConnection s keys) !! key = None.
Proof.
  induction keys as [|k keys IH]; intros Hin; [by apply elem_of_nil in Hin|].
  cbn. rewrite closeConnection_status.
  destruct (decide (k = key)) as [->|Hne]; [by rewrite lookup_delete_eq|].
  rewrite lookup_delete_ne by done. apply IH.
  apply elem_of_cons in Hin as [->|Hin]; done.
Qed.

(** C10.  The status lookup is a total function with [DISCONNECTED] as its
    default.  It answers [DISCONNECTED] for a key that was never connected:
    in every state reached from a new manager by actions among which there
    is no connect call for the key, and generally whenever the status map
    has no entry for the key.  It answers [DISCONNECTED] for a key whose
    state has just been released by [cleanup], [closeConnection] or
    [closeAllConnections].  Closing another key does not change the
    answer. *)
Theorem status_lookup_defaults_to_disconnected key :
  (forall cfg actions,
     Forall (fun a => connectKey a <> Some key) actions ->
     getConnectionStatus (run actions (newManager cfg)) key = DISCONNECTED) /\
  (forall s, connectionStatus s !! key = None -> getConnectionStatus s key = DISCONNECTED) /\
  (forall s, getConnectionStatus (cleanup key s) key = DISCONNECTED) /\
  (forall s, getConnectionStatus (closeConnection key s) key = DISCONNECTED) /\
  (forall s ws,
     connections s !! key = Some ws ->
     getConnectionStatus (closeAllConnections s) key = DISCONNECTED) /\
  (forall s other,
     other <> key ->
     getConnectionStatus (closeConnection other s) key = getConnectionStatus s key).
Proof.
  assert (forall s, connectionStatus s !! key = None ->
                    getConnectionStatus s key = DISCONNECTED) as Hdefault.
  { intros s Hnone. unfold getConnectionStatus. by rewrite Hnone. }
  split_and!.
  - intros cfg actions Hactions. apply Hdefault.
    apply (unknown_run key actions (newManager cfg) Hactions).
    split_and!; [by apply lookup_empty|by constructor..].
  - exact Hdefault.
  - intros s. apply Hdefault. unfold cleanup, stopHeartbeat.
    repeat case_match; cbn; by rewrite lookup_delete_eq.
  - intros s. apply Hdefault. by rewrite closeConnection_status, lookup_delete_eq.
  - intros s ws Hstored. apply Hdefault. apply closeAll_status.
    apply list_elem_of_fmap. exists (key, ws). split; [done|].
    by apply elem_of_map_to_list.
  - intros s other Hne. unfold getConnectionStatus.
    by rewrite closeConnection_status, lookup_delete_ne.
Qed.

Lemma status_lookup_defaults_to_disconnected_witness :
  getConnectionStatus
    (run [ConnectToServer "ws://localhost:8083" (Some reliable); WsOpen 0;
          SendMessage "sketch-logo" "execute" JNull "id-1" 1]
       (newManager defaultConfig))
    "sketch-logo"
  = DISCONNECTED.
Proof.
  refine (proj1 (status_lookup_defaults_to_disconnected "sketch-logo") defaultConfig _ _).
  repeat constructor; discriminate.
Defined.

End WebSocketManagerTheory.

(* ================================================================== *)
(** * Further properties of the request client *)
(* ================================================================== *)

Module RequestClientExtras.
Import TypeSafeAPIClient.

(** ** The request hash *)

Lemma toInt32_range z : - 2 ^ 31 <= toInt32 z < 2 ^ 31.
Proof. unfold toInt32. pose proof (Z.mod_pos_bound (z + 2 ^ 31) (2 ^ 32)). lia. Qed.

Lemma toInt32_congruent a b :
  a mod 2 ^ 32 = b mod 2 ^ 32 -> toInt32 a = toInt32 b.
Proof.
  intros Hab. unfold toInt32. f_equal.
  rewrite <-(Z.add_mod_idemp_l a), <-(Z.add_mod_idemp_l b) by lia. by rewrite Hab.
Qed.

Lemma toInt32_mod z : toInt32 z mod 2 ^ 32 = z mod 2 ^ 32.
Proof.
  unfold toInt32. rewrite Zminus_mod_idemp_l. f_equal. lia.
Qed.

Lemma toInt32_fixed z : - 2 ^ 31 <= z < 2 ^ 31 -> toInt32 z = z.
Proof. intros Hz. unfold toInt32. rewrite Z.mod_small; lia. Qed.

Lemma hashStep_spec hash char :
  hashStep hash char = toInt32 (31 * hash + char).
Proof.
  unfold hashStep, bitAnd, shiftLeft.
  rewrite Z.land_diag, (toInt32_fixed (toInt32 _)) by apply toInt32_range.
  apply toInt32_congruent.
  rewrite Z.shiftl_mul_pow2 by lia.
  rewrite <-Z.add_mod_idemp_l, <-Zminus_mod_idemp_l, toInt32_mod by lia.
  rewrite <-Z.mul_mod_idemp_l, toInt32_mod, Z.mul_mod_idemp_l by lia.
  rewrite Zminus_mod_idemp_l, Z.add_mod_idemp_l by lia.
  f_equal. lia.
Qed.

Lemma hashStep_twice hash a b :
  hashStep (hashStep hash a) b = toInt32 (961 * hash + 31 * a + b).
Proof.
  rewrite !hashStep_spec. apply toInt32_congruent.
  rewrite <-Z.add_mod_idemp_l, <-Z.mul_mod_idemp_r, toInt32_mod by lia.
  rewrite Z.mul_mod_idemp_r, Z.add_mod_idemp_l by lia. f_equal. lia.
Qed.

(** X1.  The number computed by [generateRequestHash] is the signed 32-bit
    wrap of the polynomial sum of the code units with base 31: it always
    lies in the 32-bit range, appending a code unit [c] to a body with hash
    [h] gives the wrap of 31 h + c, and the hash is not injective -- raising
    one code unit by 1 and lowering the next by 31 leaves the number, and so
    the string that [generateRequestHash] returns, unchanged. *)
Theorem request_hash_is_wrapped_polynomial (codes : list Z) :
  requestHashNumber codes = toInt32 (polynomial31 codes) /\
  - 2 ^ 31 <= requestHashNumber codes < 2 ^ 31 /\
  (forall char,
     requestHashNumber (codes ++ [char])
     = toInt32 (31 * requestHashNumber codes + char)) /\
  (forall a b rest,
     requestHashNumber (codes ++ a :: b :: rest)
     = requestHashNumber (codes ++ (a + 1) :: (b - 31) :: rest) /\
     generateRequestHash (codes ++ a :: b :: rest)
     = generateRequestHash (codes ++ (a + 1) :: (b - 31) :: rest)).
Proof.
  assert (requestHashNumber codes = toInt32 (polynomial31 codes)) as Hpoly.
  { induction codes as [|char codes IH] using rev_ind; [done|].
    unfold requestHashNumber, polynomial31 in *. rewrite !foldl_snoc, IH, hashStep_spec.
    apply toInt32_congruent.
    rewrite <-Z.add_mod_idemp_l, <-Z.mul_mod_idemp_r, toInt32_mod by lia.
    by rewrite Z.mul_mod_idemp_r, Z.add_mod_idemp_l by lia. }
  split; [done|]. split; [rewrite Hpoly; apply toInt32_range|]. split.
  - intros char. unfold requestHashNumber. by rewrite foldl_snoc, hashStep_spec.
  - intros a b rest.
    assert (requestHashNumber (codes ++ a :: b :: rest)
            = requestHashNumber (codes ++ (a + 1) :: (b - 31) :: rest)) as Hsame.
    { unfold requestHashNumber. rewrite !foldl_app. cbn [foldl].
      rewrite !hashStep_twice. do 2 f_equal. lia. }
    split; [exact Hsame|]. unfold generateRequestHash. by rewrite Hsame.
Qed.

(** ** What a request settles with *)

Lemma enhance_status response m :
  detailsStatus (enhanceError (Reply response) m) = Some (status response).
Proof. unfold enhanceError. by destruct (data response). Qed.

Lemma interceptor_effects reply :
  isRateLimited reply = false ->
  (forall r, surfaced reply = inl r ->
     validateStatus (status r) = true /\ (responseInterceptor reply).1 = []) /\
  (forall e, surfaced reply = inr e ->
     detailsStatus e <> Some 429 /\
     (responseInterceptor reply).1
     = if bool_decide (detailsStatus e = Some 503) then [TriggerFallbackMode] else []).
Proof.
  intros Hnot. unfold surfaced, responseInterceptor.
  destruct reply as [response|m c|m]; cbn [fst snd].
  - cbn in Hnot. apply bool_decide_eq_false in Hnot.
    destruct (validateStatus (status response)) eqn:Hvalid; cbn [fst snd].
    { split; [|done]. by intros r [= <-]. }
    destruct (Z.eqb_spec (status response) 503) as [H503|H503]; cbn [fst snd].
    { split; [done|]. intros e [= <-].
      destruct (data response); cbn [detailsStatus].
      all: split; [congruence|]; rewrite bool_decide_eq_true_2; [done|by f_equal]. }
    destruct (Z.eqb_spec (status response) 429) as [H429|H429]; [done|]. cbn [fst snd].
    split; [done|]. intros e [= <-].
    destruct (data response); cbn [detailsStatus].
    all: split; [congruence|]; rewrite bool_decide_eq_false_2; [done|congruence].
  - split; [done|]. by intros e [= <-].
  - split; [done|]. by intros e [= <-].
Qed.

(** X2.  Whatever the transport replies, a request settles with the first
    reply that is not a 429, after one transport call for that reply and
    one for each 429 before it; when every reply is a 429 it does not
    settle.  So the caller never receives an error for status 429, a
    resolved response always has a 2xx status, and fallback mode is
    triggered at most once, exactly when the request is rejected for
    status 503. *)
Theorem request_settles_on_first_reply_not_limited (replies : list TransportReply) :
  match (request replies).2 with
  | Some outcome =>
      exists limited final later,
        replies = limited ++ final :: later /\
        forallb isRateLimited limited = true /\
        isRateLimited final = false /\
        outcome = surfaced final /\
        transportCallCount (request replies).1 = S (length limited)
  | None =>
      forallb isRateLimited replies = true /\
      transportCallCount (request replies).1 = S (length replies)
  end /\
  (forall r, (request replies).2 = Some (inl r) -> validateStatus (status r) = true) /\
  (forall e, (request replies).2 = Some (inr e) -> detailsStatus e <> Some 429) /\
  (fallbackCount (request replies).1 <= 1)%nat /\
  (fallbackCount (request replies).1 = 1%nat <->
   exists e, (request replies).2 = Some (inr e) /\ detailsStatus e = Some 503).
Proof.
  induction replies as [|reply later IH].
  { change (request []) with ([TransportCall], @None (AxiosResponse + APIError)).
    cbn [fst snd]. change (fallbackCount [TransportCall]) with 0%nat.
    split; [done|]. split; [done|]. split; [done|]. split; [lia|].
    split; [done|by intros (e & ? & _)]. }
  destruct (isRateLimited reply) eqn:Hlimited.
  - destruct reply as [response| |]; try done.
    cbn in Hlimited. apply bool_decide_eq_true in Hlimited.
    rewrite (RequestClientTheory.request_rate_limited response later Hlimited).
    cbn [fst snd].
    change (transportCallCount (TransportCall :: Wait (rateLimitDelay response)
                                  :: (request later).1))
      with (S (transportCallCount (request later).1)).
    change (fallbackCount (TransportCall :: Wait (rateLimitDelay response)
                             :: (request later).1))
      with (fallbackCount (request later).1).
    destruct IH as (Hshape & Hok & Herr & Hmost & Hfallback).
    split; [|done].
    destruct (request later).2 as [outcome|].
    + destruct Hshape as (limited & final & rest & -> & Hall & Hfinal & -> & Hcount).
      exists (Reply response :: limited), final, rest. split_and!; try done.
      * cbn. rewrite Hall. by rewrite bool_decide_eq_true_2.
      * cbn. by rewrite Hcount.
    + destruct Hshape as [Hall Hcount]. split.
      * cbn. rewrite Hall. by rewrite bool_decide_eq_true_2.
      * cbn. by rewrite Hcount.
  - rewrite (RequestClientTheory.request_not_rate_limited reply later Hlimited).
    cbn [fst snd].
    destruct (interceptor_effects reply Hlimited) as (Hok & Herr).
    change (transportCallCount (TransportCall :: (responseInterceptor reply).1))
      with (S (transportCallCount (responseInterceptor reply).1)).
    change (fallbackCount (TransportCall :: (responseInterceptor reply).1))
      with (fallbackCount (responseInterceptor reply).1).
    destruct (surfaced reply) as [r|e] eqn:Hs.
    + destruct (Hok r eq_refl) as [Hvalid ->].
      change (fallbackCount []) with 0%nat. split_and!.
      * by exists [], reply, later.
      * by intros r' [= <-].
      * done.
      * lia.
      * split; [done|]. by intros (e & ? & _).
    + destruct (Herr e eq_refl) as [H429 ->].
      assert (transportCallCount
                (if bool_decide (detailsStatus e = Some 503)
                 then [TriggerFallbackMode] else []) = 0%nat) as ->
        by (by case_bool_decide).
      assert (fallbackCount
                (if bool_decide (detailsStatus e = Some 503)
                 then [TriggerFallbackMode] else [])
              = if bool_decide (detailsStatus e = Some 503) then 1%nat else 0%nat) as ->
        by (by case_bool_decide).
      split_and!.
      * by exists [], reply, later.
      * done.
      * by intros e' [= <-].
      * case_bool_decide; lia.
      * case_bool_decide as H503; split; try done.
        -- intros _. by exists e.
        -- by intros (e' & [= <-] & ?).
Qed.

(** ** The grace window *)

Section Deduplication.

Context {T E : Type}.

(** X3.  On a client whose map has never been cleared, the entry of a
    request outlives its settlement: from the moment its promise settles
    until its clean-up timer fires, a request for the same key is handed the
    settled promise, with its settlement, and no call reaches the transport;
    once the timer has fired the entry is gone and the next request for the
    key creates a new promise. *)
Theorem settled_entry_serves_until_cleanup
    (es : list (Event T E)) (p : nat) (key : string) (o : Settlement T E) :
  Forall (fun e => isClear e = false) es ->
  promises (run es newClient) !! p = Some (key, None) ->
  let c := run es newClient in
  let settled := settle p o c in
  let timer := length (cleanupTimers c) in
  let expired := fireCleanup timer settled in
  deduplicatedRequest key settled = (p, settled) /\
  settlementOf settled p = Some o /\
  cleanupTimers settled !! timer = Some key /\
  requestDeduplication expired !! key = None /\
  (deduplicatedRequest key expired).1 = length (promises expired) /\
  (deduplicatedRequest key expired).1 <> p.
Proof.
  intros Hes Hpending c settled timer expired. fold c in Hpending.
  assert (Coherent c) as Hc
    by (apply RequestClientTheory.coherent_run; [done|apply RequestClientTheory.coherent_new]).
  pose proof (pending_listed c Hc _ _ Hpending) as Hentry.
  pose proof (lookup_lt_Some _ _ _ Hpending) as Hlt.
  assert (settled = {| requestDeduplication := requestDeduplication c;
                       promises := <[p := (key, Some o)]> (promises c);
                       cleanupTimers := cleanupTimers c ++ [key] |}) as Hsettled
    by (unfold settled, settle; by rewrite Hpending).
  assert (cleanupTimers settled !! timer = Some key) as Htimer
    by (rewrite Hsettled; cbn; by rewrite list_lookup_middle).
  assert (expired = {| requestDeduplication := delete key (requestDeduplication settled);
                       promises := promises settled;
                       cleanupTimers := delete timer (cleanupTimers settled) |}) as Hexpired
    by (unfold expired, fireCleanup; by rewrite Htimer).
  split_and!.
  - unfold deduplicatedRequest. rewrite Hsettled at 1. cbn. by rewrite Hentry.
  - unfold settlementOf. rewrite Hsettled. cbn. by rewrite list_lookup_insert_eq.
  - done.
  - rewrite Hexpired. cbn. by rewrite lookup_delete_eq.
  - unfold deduplicatedRequest. rewrite Hexpired at 1. cbn. by rewrite lookup_delete_eq.
  - unfold deduplicatedRequest. rewrite Hexpired at 1. cbn. rewrite lookup_delete_eq. cbn.
    rewrite Hexpired, Hsettled. cbn. rewrite length_insert. lia.
Qed.

End Deduplication.

Lemma settled_entry_serves_until_cleanup_witness :
  deduplicatedRequest "health"
    (settle 0 (Fulfilled tt) (run [Request "health"] (newClient : Client unit unit)))
  = (0%nat, settle 0 (Fulfilled tt) (run [Request "health"] (newClient : Client unit unit))).
Proof.
  refine (proj1 (settled_entry_serves_until_cleanup (T:=unit) (E:=unit)
                   [Request "health"] 0 "health" (Fulfilled tt) _ _)).
  - repeat constructor.
  - reflexivity.
Defined.

(** ** Active requests *)

Section ActiveRequests.

Context {T E : Type}.
Implicit Types (c : Client T E).

Lemma pending_count_settle (l : list (string * option (Settlement T E))) p key o :
  l !! p = Some (key, None) ->
  S (length (filter (fun entry => isPending entry = true) (<[p := (key, Some o)]> l)))
  = length (filter (fun entry => isPending entry = true) l).
Proof.
  revert p. induction l as [|entry l IH]; intros [|p] Hl; cbn in Hl; [done..| |].
  - injection Hl as ->. cbn [insert list_insert].
    rewrite filter_cons_False by (by cbn). by rewrite filter_cons_True by (by cbn).
  - cbn [insert list_insert]. rewrite !filter_cons.
    specialize (IH p Hl). unfold insert in IH.
    destruct (decide (isPending entry = true)); cbn; by rewrite <-IH.
Qed.

Lemma counted_step e c :
  isClear e = false -> Coherent c ->
  activeRequests c = (inFlight c + length (cleanupTimers c))%nat ->
  activeRequests (step e c)
  = (inFlight (step e c) + length (cleanupTimers (step e c)))%nat.
Proof.
  intros Hclear Hc Hcount. unfold activeRequests, inFlight in *.
  destruct e as [key|p o|i|]; cbn [step]; [| | |done].
  - unfold deduplicatedRequest.
    destruct (requestDeduplication c !! key) eqn:Hkey; cbn; [done|].
    rewrite map_size_insert_None, filter_app, length_app by done.
    rewrite filter_cons_True by done. cbn. lia.
  - unfold settle. destruct (promises c !! p) as [[key [old|]]|] eqn:Hp; [done| |done].
    cbn. rewrite length_app. cbn.
    pose proof (pending_count_settle _ p key o Hp). lia.
  - unfold fireCleanup. destruct (cleanupTimers c !! i) as [key|] eqn:Hi; [|done].
    cbn. destruct (timer_settled c Hc _ _ Hi) as (p & o & Hentry & _).
    rewrite map_size_delete, Hentry, length_delete by done.
    pose proof (lookup_lt_Some _ _ _ Hi). cbn. lia.
Qed.

(** X4.  On a client whose map has never been cleared, the
    [activeRequests] of [getSessionInfo] counts the requests that are in
    flight plus those whose clean-up timer has not fired yet; every request
    in flight has its entry in the map.  After [clearCache] it is 0, whatever
    is in flight. *)
Theorem active_requests_count (es : list (Event T E)) :
  Forall (fun e => isClear e = false) es ->
  let c := run es newClient in
  activeRequests c = (inFlight c + length (cleanupTimers c))%nat /\
  (forall p key, promises c !! p = Some (key, None) ->
                 requestDeduplication c !! key = Some p) /\
  activeRequests (clearCache c) = 0%nat /\
  inFlight (clearCache c) = inFlight c.
Proof.
  intros Hes c.
  assert (Coherent c /\ activeRequests c = (inFlight c + length (cleanupTimers c))%nat)
    as [Hc Hcount].
  { unfold c. generalize (RequestClientTheory.coherent_new (T:=T) (E:=E)).
    assert (activeRequests (newClient : Client T E)
            = (inFlight (newClient : Client T E)
               + length (cleanupTimers (newClient : Client T E)))%nat) as H0 by done.
    revert H0. generalize (newClient : Client T E).
    induction Hes as [|e es He _ IH]; intros c0 H0 Hc0; [done|].
    cbn [run foldl]. apply IH.
    - by apply counted_step.
    - by apply RequestClientTheory.coherent_step. }
  split_and!; [done| |done|done].
  intros p key. apply (pending_listed c Hc).
Qed.

End ActiveRequests.

Lemma active_requests_count_witness :
  activeRequests
    (run [Request "health"; Request "execute-logo"; Settle 0 (Fulfilled tt)]
       (newClient : Client unit unit))
  = (inFlight (run [Request "health"; Request "execute-logo"; Settle 0 (Fulfilled tt)]
                 (newClient : Client unit unit))
     + length (cleanupTimers
                 (run [Request "health"; Request "execute-logo"; Settle 0 (Fulfilled tt)]
                    (newClient : Client unit unit))))%nat.
Proof.
  refine (proj1 (active_requests_count (T:=unit) (E:=unit)
                   [Request "health"; Request "execute-logo"; Settle 0 (Fulfilled tt)] _)).
  repeat constructor.
Defined.

(** ** Batch results *)

Lemma maxOf_spec (values : list Z) :
  match maxOf values with
  | Some m => m ∈ values /\ forall v, v ∈ values -> v <= m
  | None => values = []
  end.
Proof.
  induction values as [|v values IH]; [done|].
  change (maxOf (v :: values))
    with (Some (match maxOf values with Some m => Z.max v m | None => v end)).
  destruct (maxOf values) as [m|].
  - destruct IH as [Hin Hmax]. split.
    + destruct (Z.max_spec v m) as [[_ ->]|[_ ->]]; [by right|by left].
    + intros w [->|Hw]%elem_of_cons; [lia|]. specialize (Hmax w Hw). lia.
  - subst values. split; [by left|]. intros w [->|Hw]%elem_of_cons; [lia|].
    by apply elem_of_nil in Hw.
Qed.

Lemma classify_fold (entries : list (string * ExecutionResult)) (now : Z) :
  NoDup entries.*1 ->
  let maps := foldl (classify now) (∅, ∅) entries in
  (forall n r, maps.1 !! n = Some r <-> (n, r) ∈ entries /\ success r = true) /\
  (forall n f, maps.2 !! n = Some f <->
     exists r, (n, r) ∈ entries /\ success r = false /\
               f = mkBatchFailure "EXECUTION_FAILED"
                     (orElse (errorMessage r) "Unknown execution error") now).
Proof.
  induction entries as [|[m x] entries IH] using rev_ind; intros Hnodup maps.
  { split.
    - intros n r. cbn. rewrite lookup_empty. split; [done|].
      by intros [?%elem_of_nil _].
    - intros n f. cbn. rewrite lookup_empty. split; [done|].
      by intros (r & ?%elem_of_nil & _). }
  rewrite fmap_app in Hnodup. apply NoDup_app in Hnodup as (Hnodup & Hfresh & _).
  assert (forall r, (m, r) ∉ entries) as Hm.
  { intros r Hin. apply (Hfresh m); [|by left].
    apply list_elem_of_fmap. by exists (m, r). }
  destruct (IH Hnodup) as [Hres Hfail]. clear IH.
  unfold maps. rewrite foldl_snoc.
  set (before := foldl (classify now) (∅, ∅) entries) in *.
  unfold classify. cbn [fst snd]. destruct (success x) eqn:Hx; cbn [fst snd]; split.
  - intros n r. rewrite lookup_insert, elem_of_app, list_elem_of_singleton.
    case_decide as Hn.
    + subst n. split.
      * intros [= <-]. split; [by right|done].
      * intros [[Hin|[= <-]] _]; [by apply Hm in Hin|done].
    + rewrite Hres. split.
      * intros [Hin Hs]. split; [by left|done].
      * intros [[Hin|[= -> ->]] Hs]; [done|congruence].
  - intros n f. rewrite Hfail. split.
    + intros (r & Hin & Hs & ->). exists r. split_and!; try done.
      apply elem_of_app. by left.
    + intros (r & [Hin|[= -> ->]%list_elem_of_singleton]%elem_of_app & Hs & ->);
        [by exists r|congruence].
  - intros n r. rewrite Hres, elem_of_app, list_elem_of_singleton. split.
    + intros [Hin Hs]. split; [by left|done].
    + intros [[Hin|[= -> ->]] Hs]; [done|congruence].
  - intros n f. rewrite lookup_insert. case_decide as Hn.
    + subst n. split.
      * intros [= <-]. exists x. split_and!; try done. apply elem_of_app. right. by left.
      * intros (r & [Hin|[= <-]%list_elem_of_singleton]%elem_of_app & Hs & ->);
          [by apply Hm in Hin|done].
    + rewrite Hfail. split.
      * intros (r & Hin & Hs & ->). exists r. split_and!; try done.
        apply elem_of_app. by left.
      * intros (r & [Hin|[= -> ->]%list_elem_of_singleton]%elem_of_app & Hs & ->);
          [by exists r|congruence].
Qed.

(** X5.  [executeBatch] files every sketch of the response under exactly
    one of the two maps: under [results], with its result, when it
    succeeded, and under [failures], with code EXECUTION_FAILED and its
    error message (or 'Unknown execution error' when that is missing or
    empty), when it did not.  [totalTime] is the largest execution time of
    the response, and [-Infinity] when the response is empty. *)
Theorem batch_results_are_partitioned
    (entries : list (string * ExecutionResult)) (now : Z) :
  NoDup entries.*1 ->
  let batch := processBatch entries now in
  (forall n r, results batch !! n = Some r <-> (n, r) ∈ entries /\ success r = true) /\
  (forall n f, failures batch !! n = Some f <->
     exists r, (n, r) ∈ entries /\ success r = false /\
               f = mkBatchFailure "EXECUTION_FAILED"
                     (orElse (errorMessage r) "Unknown execution error") now) /\
  (forall n, results batch !! n = None \/ failures batch !! n = None) /\
  (forall n r, (n, r) ∈ entries ->
     is_Some (results batch !! n) \/ is_Some (failures batch !! n)) /\
  match totalTime batch with
  | Some m =>
      (exists n r, (n, r) ∈ entries /\ executionTime r = m) /\
      (forall n r, (n, r) ∈ entries -> executionTime r <= m)
  | None => entries = []
  end.
Proof.
  intros Hnodup batch.
  destruct (classify_fold entries now Hnodup) as [Hres Hfail].
  assert (forall n r r', (n, r) ∈ entries -> (n, r') ∈ entries -> r = r') as Hunique.
  { intros n r r' [i Hi]%list_elem_of_lookup [j Hj]%list_elem_of_lookup.
    assert (i = j) as ->; [|congruence].
    eapply (NoDup_lookup _ _ _ n Hnodup); rewrite list_lookup_fmap.
    - by rewrite Hi.
    - by rewrite Hj. }
  split; [exact Hres|]. split; [exact Hfail|]. split_and!.
  - intros n. destruct (results batch !! n) as [r|] eqn:Hr; [|by left]. right.
    destruct (failures batch !! n) as [f|] eqn:Hf; [|done].
    apply Hres in Hr as [Hin Hs]. apply Hfail in Hf as (r' & Hin' & Hs' & _).
    rewrite (Hunique _ _ _ Hin Hin') in Hs. congruence.
  - intros n r Hin. destruct (success r) eqn:Hs.
    + left. exists r. by apply Hres.
    + right. eexists. apply Hfail. by exists r.
  - cbn [totalTime processBatch batch].
    pose proof (maxOf_spec (executionTime <$> entries.*2)) as Hmax.
    destruct (maxOf (executionTime <$> entries.*2)) as [m|].
    + destruct Hmax as [Hin Hle]. split.
      * apply list_elem_of_fmap in Hin as (r & -> & Hr).
        apply list_elem_of_fmap in Hr as ([n r'] & -> & Hr). by exists n, r'.
      * intros n r Hr. apply Hle, list_elem_of_fmap. exists r. split; [done|].
        apply list_elem_of_fmap. by exists (n, r).
    + by destruct entries.
Qed.

Lemma batch_results_are_partitioned_witness :
  results
    (processBatch
       [("logo"%string, mkExecutionResult true 120 None None 1 None);
        ("grid"%string, mkExecutionResult false 45 None (Some "NameError"%string) 0 None)]
       0)
  !! "grid"%string = None
  \/
  failures
    (processBatch
       [("logo"%string, mkExecutionResult true 120 None None 1 None);
        ("grid"%string, mkExecutionResult false 45 None (Some "NameError"%string) 0 None)]
       0)
  !! "grid"%string = None.
Proof.
  refine (proj1 (proj2 (proj2 (batch_results_are_partitioned
                                 [("logo"%string, mkExecutionResult true 120 None None 1 None);
                                  ("grid"%string,
                                   mkExecutionResult false 45 None
                                     (Some "NameError"%string) 0 None)]
                                 0 _))) "grid"%string).
  apply (bool_decide_unpack _). by vm_compute.
Defined.

(** ** The keys of the endpoints *)

Lemma append_assoc (a b c : string) : ((a +:+ b) +:+ c = a +:+ (b +:+ c))%string.
Proof.
  induction a as [|x a IH]; [done|].
  change (String x ((a +:+ b) +:+ c) = String x (a +:+ (b +:+ c)))%string.
  by rewrite IH.
Qed.

Lemma join_merges (a b : string) (rest : list string) :
  join "-" ((a +:+ "-" +:+ b)%string :: rest) = join "-" (a :: b :: rest).
Proof.
  destruct rest as [|c rest]; [done|].
  change (((a +:+ "-" +:+ b) +:+ "-" +:+ join "-" (c :: rest))%string
          = (a +:+ "-" +:+ (b +:+ "-" +:+ join "-" (c :: rest)))%string).
  by rewrite append_assoc, append_assoc.
Qed.

Section Endpoints.

Context {T E : Type}.

Lemma request_after_request (key key' : string) (c : Client T E) :
  key <> key' ->
  requestDeduplication c !! key' = None <->
  promises (deduplicatedRequest key' (deduplicatedRequest key c).2).2
  = promises (deduplicatedRequest key c).2 ++ [(key', None)].
Proof.
  intros Hne.
  assert (requestDeduplication (deduplicatedRequest key c).2 !! key'
          = requestDeduplication c !! key') as Hsame.
  { unfold deduplicatedRequest. destruct (requestDeduplication c !! key); [done|].
    cbn. by rewrite lookup_insert_ne. }
  generalize dependent (deduplicatedRequest key c).2. intros c1 Hsame.
  unfold deduplicatedRequest at 1. rewrite Hsame.
  destruct (requestDeduplication c !! key') as [p|]; cbn [snd promises]; [|done].
  split; [done|]. intros Heq. apply (f_equal length) in Heq.
  rewrite length_app in Heq. cbn in Heq. lia.
Qed.

(** X6.  The four deduplicated endpoints never share a key with one
    another, and [executeSketch] and [getSketchList] use a different key for
    every argument: a call of [executeSketch] right after [getHealth] makes
    a request of its own exactly when no entry for its sketch is in the map,
    and so does [getSketchList] after [getSketchList] for another category.
    But [executeBatch] joins the sketch names with '-', so that a batch of
    the sketches [a] and [b] and a batch of the one sketch named [a-b] have
    the same key: the second of two such calls gets the promise of the
    first, and no request of its own. *)
Theorem endpoint_keys_separate_but_batches_merge :
  (forall name name', executeKey name = executeKey name' -> name = name') /\
  (forall category category',
     sketchListKey category = sketchListKey category' -> category = category') /\
  (forall name category sketches,
     healthKey <> executeKey name /\ healthKey <> sketchListKey category /\
     healthKey <> batchKey sketches /\ executeKey name <> sketchListKey category /\
     executeKey name <> batchKey sketches /\
     sketchListKey category <> batchKey sketches) /\
  (forall name (c : Client T E),
     requestDeduplication c !! executeKey name = None <->
     promises (executeSketch name (getHealth c).2).2
     = promises (getHealth c).2 ++ [(executeKey name, None)]) /\
  (forall category category' (c : Client T E),
     category <> category' ->
     requestDeduplication c !! sketchListKey category' = None <->
     promises (getSketchList category' (getSketchList category c).2).2
     = promises (getSketchList category c).2 ++ [(sketchListKey category', None)]) /\
  (forall a b rest,
     batchKey ((a +:+ "-" +:+ b)%string :: rest) = batchKey (a :: b :: rest)) /\
  (forall a b rest (c : Client T E),
     let first := executeBatch (a :: b :: rest) c in
     executeBatch ((a +:+ "-" +:+ b)%string :: rest) first.2 = first /\
     length (promises first.2) <= S (length (promises c)))%nat.
Proof.
  assert (forall name name', executeKey name = executeKey name' -> name = name')
    as Hexecute by (intros name name' Heq; by injection Heq).
  assert (forall category category',
            sketchListKey category = sketchListKey category' -> category = category')
    as Hlist by (intros [[]|] [[]|] Heq; try done; by vm_compute in Heq).
  split_and!.
  - exact Hexecute.
  - exact Hlist.
  - intros name [[]|] sketches; by split_and!.
  - intros name c. unfold executeSketch, getHealth. by apply request_after_request.
  - intros category category' c Hne. unfold getSketchList.
    apply request_after_request. intros Heq. by apply Hlist in Heq.
  - intros a b rest. unfold batchKey. by rewrite join_merges.
  - intros a b rest c first. unfold first, executeBatch, batchKey.
    rewrite join_merges. set (key := ("batch-" +:+ _)%string).
    unfold deduplicatedRequest at 2 3 4.
    destruct (requestDeduplication c !! key) as [p|] eqn:Hkey.
    + cbn [snd]. unfold deduplicatedRequest. rewrite Hkey. split; [done|lia].
    + cbn [snd]. unfold deduplicatedRequest.
      cbn [requestDeduplication promises]. rewrite lookup_insert_eq.
      split; [done|]. rewrite length_app. cbn. lia.
Qed.

End Endpoints.

End RequestClientExtras.

(* ================================================================== *)
(** * Properties of the server manager's start-up wait *)
(* ================================================================== *)

Module ServerManagerTheory.
Import ServerManager.

Lemma waitFrom_spec (probe : nat -> Probe) (remaining attempt : nat) :
  let outcome := waitFrom probe attempt remaining in
  (outcome.2 = true ->
     exists k, (k < remaining)%nat /\ probe (attempt + k)%nat = Healthy /\
       (forall j, (j < k)%nat -> probe (attempt + j)%nat <> Healthy) /\
       probes outcome.1 = seq attempt (S k) /\
       sleepTotal outcome.1 = 1000 * Z.of_nat k) /\
  (outcome.2 = false ->
     (forall j, (j < remaining)%nat -> probe (attempt + j)%nat <> Healthy) /\
     probes outcome.1 = seq attempt remaining /\
     sleepTotal outcome.1 = 1000 * Z.of_nat remaining).
Proof.
  revert attempt. induction remaining as [|remaining IH]; intros attempt outcome.
  { split; [done|]. intros _. split_and!; [lia|done..]. }
  assert (probe attempt <> Healthy ->
          outcome = (Probed attempt :: Slept 1000 :: (waitFrom probe (S attempt) remaining).1,
                     (waitFrom probe (S attempt) remaining).2)) as Hretry.
  { intros Hp. unfold outcome. cbn [waitFrom].
    destruct (waitFrom probe (S attempt) remaining) as [effects ready].
    by destruct (probe attempt). }
  assert (probe attempt = Healthy \/ probe attempt <> Healthy) as [Hp|Hp]
    by (destruct (probe attempt); by auto).
  - assert (outcome = ([Probed attempt], true)) as ->
      by (unfold outcome; cbn [waitFrom]; by rewrite Hp).
    split; [|done]. intros _. exists 0%nat. rewrite Nat.add_0_r.
    split_and!; [lia|done|lia|done|done].
  - rewrite (Hretry Hp). clear Hretry outcome. cbn [fst snd].
    destruct (IH (S attempt)) as [Hready Hnot]. clear IH. split.
    + intros Hr. destruct (Hready Hr) as (k & Hk & Hhealthy & Hfirst & Hprobes & Hsleep).
      exists (S k). split_and!.
      * lia.
      * by replace (attempt + S k)%nat with (S attempt + k)%nat by lia.
      * intros [|j] Hj; [by rewrite Nat.add_0_r|].
        replace (attempt + S j)%nat with (S attempt + j)%nat by lia. apply Hfirst. lia.
      * cbn [probes omap]. cbn. f_equal. exact Hprobes.
      * cbn [sleepTotal foldr]. fold (sleepTotal (waitFrom probe (S attempt) remaining).1).
        rewrite Hsleep. lia.
    + intros Hr. destruct (Hnot Hr) as (Hnone & Hprobes & Hsleep). split_and!.
      * intros [|j] Hj; [by rewrite Nat.add_0_r|].
        replace (attempt + S j)%nat with (S attempt + j)%nat by lia. apply Hnone. lia.
      * cbn. f_equal. exact Hprobes.
      * cbn [sleepTotal foldr]. fold (sleepTotal (waitFrom probe (S attempt) remaining).1).
        rewrite Hsleep. lia.
Qed.

(** X7.  [waitForServerReady] answers [true] exactly when one of the first
    30 health probes reports 'healthy'.  It then has probed attempts 0 to
    the first healthy one, each once and in order, and has slept one second
    after each probe but the last.  Otherwise it has made all 30 probes and
    slept 30 seconds, the last second after the last probe.  A probe that
    throws counts like one that reports another status. *)
Theorem wait_for_server_ready (probe : nat -> Probe) :
  let outcome := waitForServerReady probe in
  (outcome.2 = true <-> exists i, (i < 30)%nat /\ probe i = Healthy) /\
  (outcome.2 = true ->
     exists first, (first < 30)%nat /\ probe first = Healthy /\
       (forall j, (j < first)%nat -> probe j <> Healthy) /\
       probes outcome.1 = seq 0 (S first) /\
       sleepTotal outcome.1 = 1000 * Z.of_nat first) /\
  (outcome.2 = false ->
     probes outcome.1 = seq 0 30 /\ sleepTotal outcome.1 = 30000).
Proof.
  intros outcome. unfold outcome, waitForServerReady. clear outcome.
  destruct (waitFrom_spec probe 30 0) as [Hready Hnot].
  revert Hready Hnot. generalize (waitFrom probe 0 30). intros outcome Hready Hnot.
  split_and!.
  - split.
    + intros Hr. destruct (Hready Hr) as (k & Hk & Hhealthy & _). by exists k.
    + intros (i & Hi & Hhealthy). destruct (outcome.2) eqn:Hr; [done|].
      destruct (Hnot eq_refl) as (Hnone & _). by destruct (Hnone i Hi).
  - intros Hr. destruct (Hready Hr) as (k & Hk & Hhealthy & Hfirst & Hprobes & Hsleep).
    by exists k.
  - intros Hr. destruct (Hnot Hr) as (_ & Hprobes & Hsleep). split; [exact Hprobes|].
    rewrite Hsleep. reflexivity.
Qed.

End ServerManagerTheory.

(* ================================================================== *)
(** * Further properties of the WebSocket manager *)
(* ================================================================== *)

Module WebSocketManagerExtras.
Import TypeSafeWebSocketManager.
Import WebSocketManagerTheory.

Implicit Types (s : Manager) (key : string).

(** ** One key at a time *)

Lemma sameAt_refl key s : SameAt key s s.
Proof. by repeat split. Qed.

Lemma sameAt_trans key s1 s2 s3 : SameAt key s1 s2 -> SameAt key s2 s3 -> SameAt key s1 s3.
Proof.
  intros (H1 & H2 & H3 & H4 & H5 & H6) (H1' & H2' & H3' & H4' & H5' & H6').
  repeat split; congruence.
Qed.

Ltac same_at :=
  unfold SameAt; cbn;
  rewrite ?lookup_insert_ne, ?lookup_delete_ne by done; done.

Lemma sameAt_stopHeartbeat key k s : key <> k -> SameAt key s (stopHeartbeat k s).
Proof. intros Hk. unfold stopHeartbeat. case_match; same_at. Qed.

Lemma sameAt_startHeartbeat key k s : key <> k -> SameAt key s (startHeartbeat k s).
Proof. intros Hk. unfold startHeartbeat. same_at. Qed.

Lemma sameAt_status key k st s : key <> k -> SameAt key s (setConnectionStatus k st s).
Proof. intros Hk. same_at. Qed.

Lemma sameAt_handleReconnection key k s : key <> k -> SameAt key s (handleReconnection k s).
Proof. intros Hk. unfold handleReconnection. case_match; same_at. Qed.

Lemma sameAt_handleConnectionClose key k code reason s :
  key <> k -> SameAt key s (handleConnectionClose k code reason s).
Proof.
  intros Hk. unfold handleConnectionClose.
  set (s1 := setConnections _ s).
  assert (SameAt key s (stopHeartbeat k s1)) as Hstop.
  { apply (sameAt_trans _ _ s1); [unfold s1; same_at|by apply sameAt_stopHeartbeat]. }
  case_match.
  - eapply sameAt_trans; [exact Hstop|]. same_at.
  - eapply sameAt_trans; [exact Hstop|]. by apply sameAt_handleReconnection.
Qed.

Lemma sameAt_handleConnectionError key k error s :
  key <> k -> SameAt key s (handleConnectionError k error s).
Proof.
  intros Hk. unfold handleConnectionError. case_match; [|same_at].
  eapply sameAt_trans; [|by apply sameAt_handleReconnection]. same_at.
Qed.

Lemma sameAt_output key s s' : SameButOutput s s' -> SameAt key s s'.
Proof.
  intros (H1 & H2 & H3 & H4 & H5 & H6 & _). unfold SameAt.
  by rewrite H1, H2, H3, H4, H5, H6.
Qed.

Lemma sameAt_queueMessage key k m s : key <> k -> SameAt key s (queueMessage k m s).
Proof. intros Hk. unfold queueMessage. same_at. Qed.

Lemma sameAt_flushMessageQueue key k s : key <> k -> SameAt key s (flushMessageQueue k s).
Proof.
  intros Hk. unfold flushMessageQueue. repeat case_match; try apply sameAt_refl; same_at.
Qed.

Lemma sameAt_sendMessage key k type payload uuid now s :
  key <> k -> SameAt key s (sendMessage k type payload uuid now s).2.
Proof.
  intros Hk. unfold sendMessage.
  repeat case_match; cbn [snd]; try (by apply sameAt_queueMessage); same_at.
Qed.

Lemma sameAt_heartbeatTick key k uuid now s :
  key <> k -> SameAt key s (heartbeatTick k uuid now s).
Proof.
  intros Hk. unfold heartbeatTick.
  repeat case_match; try (by apply sameAt_stopHeartbeat); [same_at|].
  eapply sameAt_trans; [|by apply sameAt_stopHeartbeat]. same_at.
Qed.

Lemma sameAt_reconnectTick key k attempt listenerThrows s :
  key <> k -> SameAt key s (reconnectTick k attempt listenerThrows s).
Proof.
  intros Hk. unfold reconnectTick. destruct listenerThrows; [|same_at].
  eapply sameAt_trans; [|by apply sameAt_handleReconnection]. same_at.
Qed.

Lemma sameAt_connectionTimeoutTick key k ws s :
  SameAt key s (connectionTimeoutTick k ws s).
Proof. unfold connectionTimeoutTick. case_match; same_at. Qed.

Lemma sameAt_createConnection key k url behaviour s :
  key <> k -> SameAt key s (createConnection k url behaviour s).2.
Proof. intros Hk. unfold createConnection. destruct behaviour; same_at. Qed.

Lemma sameAt_cleanup key k s : key <> k -> SameAt key s (cleanup k s).
Proof.
  intros Hk. unfold cleanup.
  set (s1 := setMessageQueues _ _).
  assert (SameAt key s (stopHeartbeat k s1)) as Hstop.
  { apply (sameAt_trans _ _ s1); [unfold s1; same_at|by apply sameAt_stopHeartbeat]. }
  case_match; [|exact Hstop].
  eapply sameAt_trans; [exact Hstop|]. same_at.
Qed.

Lemma sameAt_closeConnection key k s : key <> k -> SameAt key s (closeConnection k s).
Proof.
  intros Hk. unfold closeConnection. case_match; [|by apply sameAt_cleanup].
  eapply sameAt_trans; [|by apply sameAt_cleanup]. same_at.
Qed.

Lemma sameAt_onOpen key ws k url s : key <> k -> SameAt key s (onOpen ws k url s).
Proof.
  intros Hk. unfold onOpen.
  set (s1 := setReconnectAttempts _ _).
  assert (SameAt key s s1) as H1 by (unfold s1; same_at).
  pose proof (sameAt_startHeartbeat key k s1 Hk) as H2.
  pose proof (sameAt_flushMessageQueue key k (startHeartbeat k s1) Hk) as H3.
  eapply sameAt_trans; [exact H1|]. eapply sameAt_trans; [exact H2|].
  eapply sameAt_trans; [exact H3|]. same_at.
Qed.

Lemma sameAt_fireTimer key handle uuid now listenerThrows s t :
  timers s !! handle = Some t -> key <> timerKey (timerKind t) ->
  SameAt key s (fireTimer handle uuid now listenerThrows s).
Proof.
  intros Ht Hk. unfold fireTimer. rewrite Ht.
  destruct (timerActive t); [|apply sameAt_refl].
  destruct (timerKind t) as [k attempt|k|k ws]; cbn in Hk.
  - eapply sameAt_trans; [|by apply sameAt_reconnectTick]. same_at.
  - by apply sameAt_heartbeatTick.
  - eapply sameAt_trans; [|by apply sameAt_connectionTimeoutTick]. same_at.
Qed.

(** X8.  Every action but [closeAllConnections] and [dispose] is about one
    key, and leaves alone what the six maps hold for every other key: a
    call, a socket event or a timer of one connection never changes the
    stored socket, status, attempt counter, timers or queue of another.  An
    event of a socket, or a timer, that the manager has not created changes
    nothing at all. *)
Theorem actions_touch_one_key s (a : Action) :
  match actionKey s a with
  | Some k => forall key, key <> k -> SameAt key s (step a s)
  | None => a = CloseAllConnections \/ a = Dispose \/ step a s = s
  end.
Proof.
  destruct a as [sketchName baseUrl behaviour|baseUrl behaviour
                |k type payload uuid now|k| | |ws|ws data|ws code reason|ws error
                |handle uuid now listenerThrows]; cbn [actionKey].
  - intros key Hk. cbn [step]. unfold connectToSketch.
    case_match; [apply sameAt_refl|by apply sameAt_createConnection].
  - intros key Hk. cbn [step]. unfold connectToServer.
    case_match; [apply sameAt_refl|by apply sameAt_createConnection].
  - intros key Hk. by apply sameAt_sendMessage.
  - intros key Hk. by apply sameAt_closeConnection.
  - by left.
  - right. by left.
  - cbn [step]. destruct (sockets s !! ws) as [sock|]; cbn [fmap option_fmap option_map];
      [|by right; right].
    intros key Hk. destruct (readyState sock); try apply sameAt_refl.
    eapply sameAt_trans; [|by apply sameAt_onOpen]. same_at.
  - cbn [step]. destruct (sockets s !! ws) as [sock|]; cbn [fmap option_fmap option_map];
      [|by right; right].
    intros key Hk. apply sameAt_output, onMessage_output.
  - cbn [step]. destruct (sockets s !! ws) as [sock|]; cbn [fmap option_fmap option_map];
      [|by right; right].
    intros key Hk. destruct (readyState sock); try apply sameAt_refl.
    all: unfold onClose.
    all: eapply sameAt_trans; [|by apply sameAt_handleConnectionClose]; same_at.
  - cbn [step]. destruct (sockets s !! ws) as [sock|]; cbn [fmap option_fmap option_map];
      [|by right; right].
    intros key Hk. unfold onError.
    eapply sameAt_trans; [|by apply sameAt_handleConnectionError]. same_at.
  - cbn [step]. destruct (timers s !! handle) as [t|] eqn:Ht;
      cbn [fmap option_fmap option_map].
    + intros key Hk. by eapply sameAt_fireTimer.
    + right; right. unfold fireTimer. by rewrite Ht.
Qed.

(** ** The status 'failed' *)

Lemma sound_update k s s' :
  (forall key, key <> k -> SameAt key s s') ->
  connectionStatus s' !! k <> Some FAILED ->
  (connectionStatus s' !! k = Some CONNECTED ->
   reconnectAttempts s' !! k = Some 0%nat /\ is_Some (connections s' !! k)) ->
  (exists out, emitted s' = emitted s ++ out /\
               Forall (fun n => isConnectionFailed n = false) out) ->
  Sound s -> Sound s'.
Proof.
  intros Hother Hfail Hconn (out & Hout & Hok) (Hc & Hf & He). split_and!.
  - intros key Hst. destruct (decide (key = k)) as [->|Hne]; [by apply Hconn|].
    destruct (Hother key Hne) as (H1 & H2 & H3 & _). rewrite H1, H3. apply Hc.
    by rewrite <-H2.
  - intros key. destruct (decide (key = k)) as [->|Hne]; [done|].
    destruct (Hother key Hne) as (_ & H2 & _). rewrite H2. apply Hf.
  - rewrite Hout. by apply Forall_app.
Qed.

Lemma sound_output s s' out :
  connections s' = connections s ->
  connectionStatus s' = connectionStatus s ->
  reconnectAttempts s' = reconnectAttempts s ->
  emitted s' = emitted s ++ out ->
  Forall (fun n => isConnectionFailed n = false) out ->
  Sound s -> Sound s'.
Proof.
  intros H1 H2 H3 H4 Hok (Hc & Hf & He). unfold Sound. rewrite H1, H2, H3, H4.
  split_and!; [done|done|by apply Forall_app].
Qed.

Lemma sound_core s s' : SameCore s s' -> Sound s -> Sound s'.
Proof.
  intros (H1 & H2 & H3 & H4 & _). apply (sound_output s s' []); try done.
  by rewrite app_nil_r.
Qed.

Lemma sameCore_trans s1 s2 s3 : SameCore s1 s2 -> SameCore s2 s3 -> SameCore s1 s3.
Proof.
  intros (H1 & H2 & H3 & H4 & H5) (H1' & H2' & H3' & H4' & H5').
  repeat split; congruence.
Qed.

Lemma sameCore_stopHeartbeat k s : SameCore s (stopHeartbeat k s).
Proof. unfold stopHeartbeat. by case_match. Qed.

Lemma sameCore_queueMessage k m s : SameCore s (queueMessage k m s).
Proof. by repeat split. Qed.

Lemma sameCore_flushMessageQueue k s : SameCore s (flushMessageQueue k s).
Proof. unfold flushMessageQueue. repeat case_match; by repeat split. Qed.

Lemma sameCore_sendMessage k type payload uuid now s :
  SameCore s (sendMessage k type payload uuid now s).2.
Proof. unfold sendMessage. repeat case_match; by repeat split. Qed.

Lemma sameCore_heartbeatTick k uuid now s : SameCore s (heartbeatTick k uuid now s).
Proof.
  unfold heartbeatTick.
  repeat case_match; try apply sameCore_stopHeartbeat; [by repeat split|].
  eapply sameCore_trans; [|apply sameCore_stopHeartbeat]. by repeat split.
Qed.

Lemma sameCore_connectionTimeoutTick k ws s : SameCore s (connectionTimeoutTick k ws s).
Proof. unfold connectionTimeoutTick. by case_match. Qed.

Lemma status_is_connected s k :
  statusIs (getConnectionStatus s k) CONNECTED = true ->
  connectionStatus s !! k = Some CONNECTED.
Proof.
  unfold getConnectionStatus. destruct (connectionStatus s !! k) as [[]|]; by cbn.
Qed.

Lemma handleReconnection_touch k s :
  Z.of_nat (getReconnectAttempts s k) < maxReconnectAttempts (config s) ->
  connectionStatus (handleReconnection k s) !! k = Some RECONNECTING /\
  emitted (handleReconnection k s) = emitted s ++ [EvStatusChanged k RECONNECTING].
Proof.
  intros Hlt. unfold handleReconnection.
  destruct (Z.geb_spec (Z.of_nat (getReconnectAttempts s k))
              (maxReconnectAttempts (config s))); [lia|].
  cbn. by rewrite lookup_insert_eq.
Qed.

Lemma sound_handleReconnection k s s0 :
  Z.of_nat (getReconnectAttempts s0 k) < maxReconnectAttempts (config s0) ->
  (forall key, key <> k -> SameAt key s s0) ->
  (exists out, emitted s0 = emitted s ++ out /\
               Forall (fun n => isConnectionFailed n = false) out) ->
  Sound s -> Sound (handleReconnection k s0).
Proof.
  intros Hlt Hother (out & Hout & Hok).
  destruct (handleReconnection_touch k s0 Hlt) as [Hst Hem].
  apply (sound_update k).
  - intros key Hk. eapply sameAt_trans; [by apply Hother|].
    by apply sameAt_handleReconnection.
  - by rewrite Hst.
  - by rewrite Hst.
  - exists (out ++ [EvStatusChanged k RECONNECTING]). rewrite Hem, Hout, app_assoc.
    split; [done|]. apply Forall_app. split; [done|]. by repeat constructor.
Qed.

Lemma sound_createConnection k url behaviour s :
  Sound s -> Sound (createConnection k url behaviour s).2.
Proof.
  apply (sound_update k).
  - intros key Hk. by apply sameAt_createConnection.
  - unfold createConnection. destruct behaviour; cbn; by rewrite lookup_insert_eq.
  - unfold createConnection. destruct behaviour; cbn; by rewrite lookup_insert_eq.
  - exists [EvStatusChanged k CONNECTING]. split; [|by repeat constructor].
    unfold createConnection. by destruct behaviour.
Qed.

Lemma cleanup_status k s : connectionStatus (cleanup k s) !! k = None.
Proof.
  unfold cleanup. set (s1 := setMessageQueues _ _).
  destruct (stopHeartbeat_frame k s1) as (_ & Hst & _).
  assert (connectionStatus (stopHeartbeat k s1) !! k = None) as Hnone.
  { rewrite Hst. unfold s1. cbn. apply lookup_delete_eq. }
  by case_match.
Qed.

Lemma cleanup_emitted k s : emitted (cleanup k s) = emitted s.
Proof.
  unfold cleanup. set (s1 := setMessageQueues _ _).
  destruct (stopHeartbeat_frame k s1) as (_ & _ & _ & _ & _ & _ & _ & Hem & _).
  case_match; cbn; by rewrite Hem.
Qed.

Lemma sound_closeConnection k s : Sound s -> Sound (closeConnection k s).
Proof.
  apply (sound_update k).
  - intros key Hk. by apply sameAt_closeConnection.
  - unfold closeConnection. by rewrite cleanup_status.
  - unfold closeConnection. by rewrite cleanup_status.
  - exists []. split; [|done]. unfold closeConnection.
    rewrite cleanup_emitted, app_nil_r. by case_match.
Qed.

Lemma sound_closeAll (keys : list string) s :
  Sound s -> Sound (foldr closeConnection s keys).
Proof.
  intros Hs. induction keys as [|k keys IH]; [done|]. cbn.
  by apply sound_closeConnection.
Qed.

Lemma onOpen_touch ws k url s :
  let s' := onOpen ws k url s in
  connectionStatus s' !! k = Some CONNECTED /\
  reconnectAttempts s' !! k = Some 0%nat /\
  connections s' !! k = Some ws /\
  emitted s' = emitted s ++ [EvStatusChanged k CONNECTED; EvConnected k url].
Proof.
  unfold onOpen. set (s1 := setReconnectAttempts _ _).
  assert (SameCore s1 (flushMessageQueue k (startHeartbeat k s1)))
    as (H1 & H2 & H3 & H4 & _).
  { eapply sameCore_trans; [|apply sameCore_flushMessageQueue]. by repeat split. }
  cbn [emit connectionStatus reconnectAttempts connections emitted].
  rewrite H1, H2, H3, H4. unfold s1. cbn.
  rewrite !lookup_insert_eq, <-app_assoc. done.
Qed.

Lemma sound_onOpen ws k url s s0 :
  SameCore s s0 -> Sound s -> Sound (onOpen ws k url s0).
Proof.
  intros Hcore Hs. apply (sound_core _ _ Hcore) in Hs. revert Hs.
  destruct (onOpen_touch ws k url s0) as (Hst & Ha & Hc & Hem).
  apply (sound_update k).
  - intros key Hk. by apply sameAt_onOpen.
  - by rewrite Hst.
  - intros _. by rewrite Ha, Hc.
  - eexists. split; [exact Hem|]. by repeat constructor.
Qed.

Lemma handleMessage_emitted k (message : Json) s s' :
  handleMessage k message s = Some s' ->
  exists out, emitted s' = emitted s ++ out /\
              Forall (fun n => isConnectionFailed n = false) out.
Proof.
  unfold handleMessage. intros H.
  repeat (simplify_option_eq || case_match); cbn;
    match goal with
    | |- exists out, (?l ++ ?a) ++ ?b = ?l ++ out /\ _ =>
        exists (a ++ b); split; [by rewrite app_assoc|]
    | |- exists out, ?l ++ ?a = ?l ++ out /\ _ => exists a; split; [done|]
    | |- exists out, ?l = ?l ++ out /\ _ => exists []; split; [by rewrite app_nil_r|]
    end; by repeat constructor.
Qed.

Lemma sound_onMessage k data s : Sound s -> Sound (onMessage k data s).
Proof.
  destruct (onMessage_output k data s) as (H1 & H2 & H3 & _).
  assert (exists out, emitted (onMessage k data s) = emitted s ++ out /\
                      Forall (fun n => isConnectionFailed n = false) out)
    as (out & Hout & Hok).
  { unfold onMessage. destruct data as [message|].
    - destruct (handleMessage k message s) as [s'|] eqn:Hh; cbn.
      + by eapply handleMessage_emitted.
      + eexists. split; [done|]. by repeat constructor.
    - eexists. split; [done|]. by repeat constructor. }
  by apply (sound_output s _ out).
Qed.

Lemma sound_handleConnectionClose k code reason s s0 :
  1 <= maxReconnectAttempts (config s0) ->
  SameCore s s0 -> Sound s -> Sound (handleConnectionClose k code reason s0).
Proof.
  intros Hmax Hcore Hs. apply (sound_core _ _ Hcore) in Hs. clear Hcore s.
  unfold handleConnectionClose.
  set (s1 := stopHeartbeat k (setConnections _ s0)).
  assert (forall key, key <> k -> SameAt key s0 s1) as Hother.
  { intros key Hk. unfold s1. eapply sameAt_trans; [|by apply sameAt_stopHeartbeat].
    same_at. }
  assert (emitted s1 = emitted s0) as Hem.
  { unfold s1. by destruct (stopHeartbeat_frame k (setConnections
                             (delete k (connections s0)) s0))
      as (_ & _ & _ & _ & _ & _ & _ & -> & _). }
  destruct (_ || _) eqn:Hcase.
  - apply (sound_update k s0); [| | | |exact Hs].
    + intros key Hk. eapply sameAt_trans; [by apply Hother|]. same_at.
    + cbn. by rewrite lookup_insert_eq.
    + cbn. by rewrite lookup_insert_eq.
    + eexists. cbn. rewrite Hem, <-app_assoc. split; [done|]. by repeat constructor.
  - apply orb_false_iff in Hcase as [_ Hlt].
    apply (sound_handleReconnection k s0); [|done| |done].
    + by destruct (Z.geb_spec (Z.of_nat (getReconnectAttempts s1 k))
                     (maxReconnectAttempts (config s1))).
    + exists []. by rewrite app_nil_r.
Qed.

Lemma sound_handleConnectionError k error s s0 :
  1 <= maxReconnectAttempts (config s0) ->
  SameCore s s0 -> Sound s -> Sound (handleConnectionError k error s0).
Proof.
  intros Hmax Hcore Hs. apply (sound_core _ _ Hcore) in Hs. clear Hcore s.
  unfold handleConnectionError. set (s1 := emit _ s0).
  destruct (statusIs _ _) eqn:Hst.
  - apply status_is_connected in Hst. change (connectionStatus s1) with
      (connectionStatus s0) in Hst.
    destruct Hs as (Hc & Hf & He). destruct (Hc k Hst) as [Hzero _].
    apply (sound_handleReconnection k s0); [| | |done].
    + unfold getReconnectAttempts.
      change (reconnectAttempts s1) with (reconnectAttempts s0). rewrite Hzero.
      change (config s1) with (config s0). cbn. lia.
    + intros key Hk. unfold s1. same_at.
    + eexists. split; [done|]. by repeat constructor.
  - apply (sound_output s0 _ [EvConnectionError k error]); try done.
    by repeat constructor.
Qed.

Lemma sound_fireTimer handle uuid now s :
  Sound s -> Sound (fireTimer handle uuid now false s).
Proof.
  intros Hs. unfold fireTimer. destruct (timers s !! handle) as [t|]; [|done].
  destruct (timerActive t); [|done].
  destruct (timerKind t) as [k attempt|k|k ws].
  - unfold reconnectTick.
    by apply (sound_output s _ [EvReconnectRequested k attempt]);
      [done..|repeat constructor|].
  - apply (sound_core s); [apply sameCore_heartbeatTick|done].
  - apply (sound_core s); [|done].
    eapply sameCore_trans; [|apply sameCore_connectionTimeoutTick]. by repeat split.
Qed.

Lemma sound_step (a : Action) s :
  1 <= maxReconnectAttempts (config s) ->
  listenersReturn a = true ->
  Sound s -> Sound (step a s).
Proof.
  intros Hmax Hquiet Hs.
  destruct a as [sketchName baseUrl behaviour|baseUrl behaviour
                |k type payload uuid now|k| | |ws|ws data|ws code reason|ws error
                |handle uuid now listenerThrows]; cbn [step].
  - unfold connectToSketch. case_match; [done|by apply sound_createConnection].
  - unfold connectToServer. case_match; [done|by apply sound_createConnection].
  - apply (sound_core s); [apply sameCore_sendMessage|done].
  - by apply sound_closeConnection.
  - by apply sound_closeAll.
  - by apply sound_closeAll.
  - destruct (sockets s !! ws) as [sock|]; [|done].
    destruct (readyState sock); try done.
    by apply (sound_onOpen _ _ _ s).
  - destruct (sockets s !! ws) as [sock|]; [|done]. by apply sound_onMessage.
  - destruct (sockets s !! ws) as [sock|]; [|done].
    destruct (readyState sock); try done; unfold onClose.
    all: by apply (sound_handleConnectionClose _ _ _ s).
  - destruct (sockets s !! ws) as [sock|]; [|done]. unfold onError.
    by apply (sound_handleConnectionError _ _ s).
  - cbn in Hquiet. destruct listenerThrows; [done|]. by apply sound_fireTimer.
Qed.

Lemma sound_run (actions : list Action) s :
  1 <= maxReconnectAttempts (config s) ->
  Forall (fun a => listenersReturn a = true) actions ->
  Sound s -> Sound (run actions s).
Proof.
  revert s. induction actions as [|a actions IH]; intros s Hmax Hall Hs; [done|].
  apply Forall_cons in Hall as [Ha Hall]. cbn. apply IH; [|done|].
  - by rewrite step_config.
  - by apply sound_step.
Qed.

(** X9.  With [maxReconnectAttempts] at least 1, and as long as no
    subscriber throws out of 'reconnectRequested', no key ever has the
    status [FAILED] and 'connectionFailed' is never emitted, whatever the
    sockets do: a close with an exhausted counter ends in [DISCONNECTED],
    and an error on a connected socket finds the counter at 0.  A key whose
    status is [CONNECTED] has its counter at 0 and a stored socket. *)
Theorem failed_needs_a_throwing_listener (cfg : WebSocketConfig) (actions : list Action) :
  1 <= maxReconnectAttempts cfg ->
  Forall (fun a => listenersReturn a = true) actions ->
  let s := run actions (newManager cfg) in
  (forall key, getConnectionStatus s key <> FAILED) /\
  Forall (fun n => isConnectionFailed n = false) (emitted s) /\
  (forall key,
     getConnectionStatus s key = CONNECTED ->
     getReconnectAttempts s key = 0%nat /\ is_Some (connections s !! key)).
Proof.
  intros Hmax Hall s.
  assert (Sound s) as (Hc & Hf & He).
  { apply sound_run; [done|done|]. split_and!; [|done|done].
    intros key. cbn. by rewrite lookup_empty. }
  split_and!; [|done|].
  - intros key. unfold getConnectionStatus. specialize (Hf key).
    by destruct (connectionStatus s !! key) as [[]|].
  - intros key. unfold getConnectionStatus, getReconnectAttempts. specialize (Hc key).
    destruct (connectionStatus s !! key) as [[]|]; try done.
    intros _. destruct Hc as [-> Hsome]; done.
Qed.

Lemma failed_needs_a_throwing_listener_witness :
  getConnectionStatus
    (run [ConnectToServer "ws://localhost:8083" (Some reliable);
          WsOpen 0; WsError 0 "ECONNRESET"; WsClose 0 1006 "";
          TimerFires 2 "" 0 false]
       (newManager defaultConfig))
    "server" <> FAILED.
Proof.
  refine (proj1 (failed_needs_a_throwing_listener defaultConfig
                   [ConnectToServer "ws://localhost:8083" (Some reliable);
                    WsOpen 0; WsError 0 "ECONNRESET"; WsClose 0 1006 "";
                    TimerFires 2 "" 0 false] _ _) "server").
  - by vm_compute.
  - repeat constructor.
Defined.

(** ** The attempt counter *)

Lemma capped_frame s s' :
  reconnectAttempts s' = reconnectAttempts s -> config s' = config s ->
  AttemptsCapped s -> AttemptsCapped s'.
Proof. unfold AttemptsCapped, getReconnectAttempts. by intros -> ->. Qed.

Lemma capped_quiet s s' : Quiet s s' -> AttemptsCapped s -> AttemptsCapped s'.
Proof. intros (Ha & _ & Hc & _). by apply capped_frame. Qed.

Lemma capped_reset k s s' :
  reconnectAttempts s' = <[k := 0%nat]> (reconnectAttempts s) -> config s' = config s ->
  AttemptsCapped s -> AttemptsCapped s'.
Proof.
  unfold AttemptsCapped, getReconnectAttempts. intros -> -> Hs key.
  rewrite lookup_insert. case_decide; cbn; [lia|apply Hs].
Qed.

Lemma capped_delete k s s' :
  reconnectAttempts s' = delete k (reconnectAttempts s) -> config s' = config s ->
  AttemptsCapped s -> AttemptsCapped s'.
Proof.
  unfold AttemptsCapped, getReconnectAttempts. intros -> -> Hs key.
  destruct (decide (key = k)) as [->|Hk].
  - rewrite lookup_delete_eq. cbn. lia.
  - rewrite lookup_delete_ne by done. apply Hs.
Qed.

Lemma capped_handleReconnection k s :
  AttemptsCapped s -> AttemptsCapped (handleReconnection k s).
Proof.
  intros Hs. unfold handleReconnection.
  destruct (Z.geb_spec (Z.of_nat (getReconnectAttempts s k))
              (maxReconnectAttempts (config s))) as [Hge|Hlt].
  - by apply (capped_frame s).
  - intros key. unfold getReconnectAttempts at 1. cbn. rewrite lookup_insert.
    case_decide as Hk; [|apply Hs]. subst key. cbn. lia.
Qed.

Lemma capped_closeAll (keys : list string) s :
  AttemptsCapped s -> AttemptsCapped (foldr closeConnection s keys).
Proof.
  intros Hs. induction keys as [|k keys IH]; [done|]. cbn.
  destruct (closeConnection_frame k (foldr closeConnection s keys)) as ([Hc _] & Ha & _).
  by eapply capped_delete.
Qed.

Lemma capped_step (a : Action) s : AttemptsCapped s -> AttemptsCapped (step a s).
Proof.
  intros Hs.
  destruct a as [sketchName baseUrl behaviour|baseUrl behaviour
                |k type payload uuid now|k| | |ws|ws data|ws code reason|ws error
                |handle uuid now listenerThrows]; cbn [step].
  - eapply capped_quiet; [apply connectToSketch_quiet|done].
  - eapply capped_quiet; [apply connectToServer_quiet|done].
  - destruct (sendMessage_frame k type payload uuid now s) as ([Hc _] & Ha).
    by eapply capped_frame.
  - destruct (closeConnection_frame k s) as ([Hc _] & Ha & _). by eapply capped_delete.
  - by apply capped_closeAll.
  - by apply capped_closeAll.
  - destruct (sockets s !! ws) as [sock|]; [|done].
    destruct (readyState sock); try done.
    match goal with |- AttemptsCapped (onOpen ws ?k ?url ?s0) =>
      destruct (onOpen_frame ws k url s0) as ([Hc _] & Ha) end.
    by eapply capped_reset.
  - destruct (sockets s !! ws) as [sock|]; [|done].
    eapply capped_quiet; [apply onMessage_quiet|done].
  - destruct (sockets s !! ws) as [sock|]; [|done].
    assert (forall s0, SameCore s s0 -> config s0 = config s ->
              AttemptsCapped (onClose (sockKey sock) code reason s0)) as Hclose.
    { intros s0 (_ & _ & Ha & _) Hc. unfold onClose, handleConnectionClose.
      set (s1 := stopHeartbeat _ _).
      assert (AttemptsCapped s1) as H1.
      { eapply capped_quiet; [apply stopHeartbeat_quiet|]. by apply (capped_frame s). }
      case_match; [by apply (capped_frame s1)|by apply capped_handleReconnection]. }
    destruct (readyState sock); try done; by apply Hclose.
  - destruct (sockets s !! ws) as [sock|]; [|done].
    unfold onError, handleConnectionError.
    case_match; [|by apply (capped_frame s)].
    apply capped_handleReconnection. by apply (capped_frame s).
  - unfold fireTimer. destruct (timers s !! handle) as [t|]; [|done].
    destruct (timerActive t); [|done].
    destruct (timerKind t) as [k attempt|k|k w].
    + unfold reconnectTick. destruct listenerThrows; [|by apply (capped_frame s)].
      apply capped_handleReconnection. by apply (capped_frame s).
    + eapply capped_quiet; [apply heartbeatTick_quiet|done].
    + eapply capped_quiet; [|exact Hs].
      eapply quiet_trans; [apply clearTimer_quiet|apply connectionTimeoutTick_quiet].
Qed.

Lemma capped_run (actions : list Action) s :
  AttemptsCapped s -> AttemptsCapped (run actions s).
Proof.
  revert s. induction actions as [|a actions IH]; intros s Hs; [done|].
  cbn. by apply IH, capped_step.
Qed.

Lemma run_keeps_config (actions : list Action) s : config (run actions s) = config s.
Proof.
  revert s. induction actions as [|a actions IH]; intros s; [done|].
  change (config (run actions (step a s)) = config s). by rewrite IH, step_config.
Qed.

(** X10.  The attempt counter of a key never exceeds
    [maxReconnectAttempts] (0 when the limit is negative), in any state the
    manager reaches from its initial state by any actions. *)
Theorem attempts_never_exceed_the_limit (cfg : WebSocketConfig) (actions : list Action) :
  forall key,
    Z.of_nat (getReconnectAttempts (run actions (newManager cfg)) key)
    <= Z.max 0 (maxReconnectAttempts cfg).
Proof.
  intros key.
  assert (AttemptsCapped (run actions (newManager cfg))) as Hs.
  { apply capped_run. intros k. unfold getReconnectAttempts. cbn.
    rewrite lookup_empty. cbn. lia. }
  specialize (Hs key). revert Hs.
  by rewrite run_keeps_config.
Qed.

(** ** Sending *)

Lemma sendMessage_queues key type payload uuid now s :
  isConnected s key = false ->
  sendMessage key type payload uuid now s
  = (Returned, queueMessage key (mkMessage type payload now uuid) s).
Proof.
  unfold isConnected, isOpen, sendMessage.
  destruct (connections s !! key) as [ws|]; [|done].
  destruct (sockets s !! ws) as [sock|]; [|done].
  by destruct (readyState sock).
Qed.

Lemma takeLast_all {A} (n : nat) (l : list A) : (length l <= n)%nat -> takeLast n l = l.
Proof. intros Hle. unfold takeLast. by replace (length l - n)%nat with 0%nat by lia. Qed.

Lemma tail_drop {A} (d : nat) (l : list A) : tail (drop d l) = drop (S d) l.
Proof.
  revert l. induction d as [|d IH]; intros [|y l]; cbn; [done|by rewrite drop_0|done|].
  apply IH.
Qed.

Lemma takeLast_snoc {A} (n : nat) (l : list A) (x : A) :
  takeLast n (l ++ [x])
  = if (n <? length (takeLast n l ++ [x]))%nat
    then tail (takeLast n l ++ [x])
    else takeLast n l ++ [x].
Proof.
  unfold takeLast. rewrite !length_app, length_drop. cbn [length].
  destruct (Nat.ltb_spec n (length l - (length l - n) + 1)) as [Hlt|Hge].
  - rewrite <-drop_app_le by lia. rewrite tail_drop. f_equal. lia.
  - replace (length l + 1 - n)%nat with 0%nat by lia.
    by replace (length l - n)%nat with 0%nat by lia.
Qed.

Lemma queueMessage_newest key m s :
  0 <= messageQueueMaxSize (config s) ->
  let capacity := Z.to_nat (messageQueueMaxSize (config s)) in
  let queue := default [] (messageQueues s !! key) in
  (length queue <= capacity)%nat ->
  messageQueues (queueMessage key m s) !! key = Some (takeLast capacity (queue ++ [m])).
Proof.
  intros Hcap capacity queue Hlen. unfold queueMessage.
  cbn [messageQueues setMessageQueues]. rewrite lookup_insert_eq. f_equal.
  fold queue. rewrite takeLast_snoc, (takeLast_all capacity queue Hlen).
  destruct (Z.gtb_spec (Z.of_nat (length (queue ++ [m]))) (messageQueueMaxSize (config s)))
    as [Hgt|Hle];
    destruct (Nat.ltb_spec capacity (length (queue ++ [m]))) as [Hlt|Hge];
    try done; unfold capacity in *; lia.
Qed.

Lemma takeLast_length {A} (n : nat) (l : list A) : (length (takeLast n l) <= n)%nat.
Proof. unfold takeLast. rewrite length_drop. lia. Qed.

Lemma takeLast_takeLast_app {A} (n : nat) (l l' : list A) :
  takeLast n (takeLast n l ++ l') = takeLast n (l ++ l').
Proof.
  unfold takeLast. rewrite <-drop_app_le by lia.
  rewrite length_drop, drop_drop. f_equal. rewrite length_app. lia.
Qed.

Lemma sends_queue_newest key (ms : list Message) s :
  isConnected s key = false ->
  0 <= messageQueueMaxSize (config s) ->
  let capacity := Z.to_nat (messageQueueMaxSize (config s)) in
  let queue := default [] (messageQueues s !! key) in
  (length queue <= capacity)%nat ->
  let s' := foldl (fun s m => (sendStamped key m s).2) s ms in
  default [] (messageQueues s' !! key) = takeLast capacity (queue ++ ms) /\
  Forall (fun m => forall s0, isConnected s0 key = false ->
                              (sendStamped key m s0).1 = Returned) ms /\
  sockets s' = sockets s /\ connections s' = connections s /\
  emitted s' = emitted s /\ console s' = console s /\ config s' = config s.
Proof.
  intros Hoff Hcap capacity queue Hlen.
  induction ms as [|m ms IH] using rev_ind.
  { cbn. rewrite app_nil_r. split_and!; try done. by rewrite takeLast_all. }
  rewrite foldl_snoc. cbn zeta in *.
  set (s1 := foldl (fun s m => (sendStamped key m s).2) s ms) in *.
  destruct IH as (Hq & Hret & Hsock & Hconn & Hem & Hcon & Hcfg).
  assert (isConnected s1 key = false) as Hoff1.
  { unfold isConnected, isOpen. rewrite Hconn, Hsock. exact Hoff. }
  assert ((sendStamped key m s1).2 = queueMessage key m s1) as ->.
  { unfold sendStamped. rewrite sendMessage_queues by done. by destruct m. }
  split_and!; try done.
  - rewrite queueMessage_newest.
    + cbn [default]. rewrite Hcfg. fold capacity.
      by rewrite Hq, takeLast_takeLast_app, <-app_assoc.
    + by rewrite Hcfg.
    + rewrite Hcfg. fold capacity. rewrite Hq. apply takeLast_length.
  - apply Forall_app. split; [done|]. constructor; [|done].
    intros s0 H0. unfold sendStamped. by rewrite sendMessage_queues.
Qed.

(** X11.  While no open socket is stored for a key, every message sent to
    it is queued, and the queue holds the newest [messageQueueMaxSize] of
    the messages queued so far, in the order in which they were sent; the
    older ones are dropped without a notification and without a line on the
    console, and every [sendMessage] returns normally. *)
Theorem queue_keeps_the_newest_messages key (ms : list Message) s :
  isConnected s key = false ->
  0 <= messageQueueMaxSize (config s) ->
  (length (default [] (messageQueues s !! key))
   <= Z.to_nat (messageQueueMaxSize (config s)))%nat ->
  let s' := foldl (fun s m => (sendStamped key m s).2) s ms in
  default [] (messageQueues s' !! key)
  = takeLast (Z.to_nat (messageQueueMaxSize (config s)))
      (default [] (messageQueues s !! key) ++ ms) /\
  sockets s' = sockets s /\ emitted s' = emitted s /\ console s' = console s /\
  isConnected s' key = false /\
  Forall (fun m => forall s0, isConnected s0 key = false ->
                              (sendStamped key m s0).1 = Returned) ms.
Proof.
  intros Hoff Hcap Hlen s'.
  destruct (sends_queue_newest key ms s Hoff Hcap Hlen)
    as (Hq & Hret & Hsock & Hconn & Hem & Hcon & _).
  split_and!; try done.
  unfold isConnected, isOpen. fold s' in Hconn, Hsock. rewrite Hconn, Hsock. exact Hoff.
Qed.

Lemma queue_keeps_the_newest_messages_witness :
  default []
    (messageQueues
       (foldl (fun s m => (sendStamped "server" m s).2)
          (newManager (mkConfig 5 1000 30000 2 30000 2))
          [mkMessage "a" JNull 1 "1"; mkMessage "b" JNull 2 "2"; mkMessage "c" JNull 3 "3"])
     !! "server"%string)
  = [mkMessage "b" JNull 2 "2"; mkMessage "c" JNull 3 "3"].
Proof.
  refine (proj1 (queue_keeps_the_newest_messages "server"
                   [mkMessage "a" JNull 1 "1"; mkMessage "b" JNull 2 "2";
                    mkMessage "c" JNull 3 "3"]
                   (newManager (mkConfig 5 1000 30000 2 30000 2)) _ _ _)).
  - reflexivity.
  - by vm_compute.
  - vm_compute. lia.
Defined.

Lemma sends_go_out key ws (frames : list Message) :
  forall s sock,
    connections s !! key = Some ws ->
    sockets s !! ws = Some sock ->
    readyState sock = WS_OPEN ->
    acceptsAll (acceptSend sock) (sent sock) frames = true ->
    let s' := foldl (fun s m => (sendStamped key m s).2) s frames in
    sockets s' = <[ws := withSent (sent sock ++ frames) sock]> (sockets s) /\
    connections s' = connections s /\ messageQueues s' = messageQueues s /\
    emitted s' = emitted s /\ console s' = console s.
Proof.
  induction frames as [|m frames IH]; intros s sock Hconn Hsock Hopen Hall.
  { cbn. rewrite app_nil_r, withSent_same, list_insert_id by done. done. }
  cbn in Hall. apply andb_true_iff in Hall as [Hm Hall].
  cbn [foldl]. cbn zeta.
  set (sock1 := withSent (sent sock ++ [m]) sock).
  assert ((sendStamped key m s).2 = setSockets (<[ws := sock1]> (sockets s)) s) as ->.
  { unfold sendStamped, sendMessage. rewrite Hconn, Hsock, Hopen. unfold wsSend.
    destruct m as [type payload now uuid]. cbn in *. by rewrite Hm. }
  set (s1 := setSockets _ s).
  pose proof (lookup_lt_Some _ _ _ Hsock) as Hlt.
  destruct (IH s1 sock1) as (Hs & Hc & Hq & He & Hl).
  - done.
  - unfold s1. cbn. by rewrite list_lookup_insert_eq.
  - done.
  - done.
  - rewrite Hs. unfold s1, sock1. cbn. rewrite list_insert_insert_eq.
    split_and!; try done. by rewrite <-app_assoc.
Qed.

(** X12.  While the stored socket of a key is open and accepts them, the
    messages sent to the key go out on that socket in the order of the
    calls, behind what it had sent before; nothing is queued, emitted or
    printed.  When [ws.send] throws, [sendMessage] fails with that error,
    after a line on the console: the message is neither sent nor queued. *)
Theorem open_socket_sends_in_call_order key ws (frames : list Message) s sock :
  connections s !! key = Some ws ->
  sockets s !! ws = Some sock ->
  readyState sock = WS_OPEN ->
  (acceptsAll (acceptSend sock) (sent sock) frames = true ->
   let s' := foldl (fun s m => (sendStamped key m s).2) s frames in
   sent <$> sockets s' !! ws = Some (sent sock ++ frames) /\
   (forall other, other <> ws -> sockets s' !! other = sockets s !! other) /\
   messageQueues s' = messageQueues s /\
   emitted s' = emitted s /\ console s' = console s) /\
  (forall m,
     acceptSend sock (sent sock) m = false ->
     sendStamped key m s = (Threw, print (ErrorSendFailed key) s)).
Proof.
  intros Hconn Hsock Hopen. split.
  - intros Hall s'.
    destruct (sends_go_out key ws frames s sock Hconn Hsock Hopen Hall)
      as (Hs & _ & Hq & He & Hl).
    fold s' in Hs. rewrite Hs.
    pose proof (lookup_lt_Some _ _ _ Hsock) as Hlt. split_and!; try done.
    + by rewrite list_lookup_insert_eq.
    + intros other Hother. by rewrite list_lookup_insert_ne.
  - intros m Hm. unfold sendStamped, sendMessage. rewrite Hconn, Hsock, Hopen.
    unfold wsSend. destruct m as [type payload now uuid]. cbn in *. by rewrite Hm.
Qed.

Lemma open_socket_sends_in_call_order_witness :
  sendStamped "server" (mkMessage "execute" JNull 1 "id-1")
    (run [ConnectToServer "ws://localhost:8083" (Some (fun _ _ => false)); WsOpen 0]
       (newManager defaultConfig))
  = (Threw,
     print (ErrorSendFailed "server")
       (run [ConnectToServer "ws://localhost:8083" (Some (fun _ _ => false)); WsOpen 0]
          (newManager defaultConfig))).
Proof.
  refine (proj2 (open_socket_sends_in_call_order "server" 0 []
                   (run [ConnectToServer "ws://localhost:8083" (Some (fun _ _ => false));
                         WsOpen 0]
                      (newManager defaultConfig))
                   (mkSocket "server" "ws://localhost:8083/ws/server" WS_OPEN []
                      (fun _ _ => false)) _ _ _)
            (mkMessage "execute" JNull 1 "id-1") _).
  - by vm_compute.
  - by vm_compute.
  - reflexivity.
  - reflexivity.
Defined.

(** ** Inbound frames *)





(** ** Closing *)

Lemma cleanup_releases k s :
  let s' := cleanup k s in
  connections s' !! k = None /\ connectionStatus s' !! k = None /\
  reconnectAttempts s' !! k = None /\ reconnectTimers s' !! k = None /\
  heartbeatTimers s' !! k = None /\ messageQueues s' !! k = None /\
  emitted s' = emitted s /\ console s' = console s /\ sockets s' = sockets s /\
  length (timers s') = length (timers s).
Proof.
  unfold cleanup, stopHeartbeat. cbn.
  destruct (heartbeatTimers s !! k) as [h|] eqn:Hh; cbn;
    destruct (reconnectTimers s !! k) as [r|] eqn:Hr; cbn;
    rewrite ?lookup_delete_eq, ?length_alter; by split_and!.
Qed.

Lemma cleanup_timers k s h t :
  heartbeatTimers s !! k = Some h \/ reconnectTimers s !! k = Some h ->
  timers s !! h = Some t ->
  timerActive <$> timers (cleanup k s) !! h = Some false.
Proof.
  intros Hh Ht. unfold cleanup, stopHeartbeat. cbn.
  destruct (heartbeatTimers s !! k) as [h'|] eqn:Hhb; cbn;
    destruct (reconnectTimers s !! k) as [r|] eqn:Hr; cbn.
  - destruct (decide (h = r)) as [->|Hne].
    + rewrite list_lookup_alter_eq.
      destruct (decide (r = h')) as [->|Hne'].
      * by rewrite list_lookup_alter_eq, Ht.
      * by rewrite list_lookup_alter_ne, Ht.
    + rewrite list_lookup_alter_ne by done.
      destruct Hh as [[= ->]|[= ->]]; [|done]. by rewrite list_lookup_alter_eq, Ht.
  - destruct Hh as [[= ->]|[=]]. by rewrite list_lookup_alter_eq, Ht.
  - destruct Hh as [[=]|[= ->]]. by rewrite list_lookup_alter_eq, Ht.
  - by destruct Hh as [[=]|[=]].
Qed.

(** X14.  [closeConnection] releases everything the manager holds for the
    key: the six maps have no entry for it afterwards, so its queued
    messages are dropped and its status reads as the default; its heartbeat
    and reconnect timers are cleared, and the stored socket, if any, is
    closing.  Nothing is emitted, not even 'statusChanged', and nothing is
    printed; the entries of other keys stay as they are. *)
Theorem close_connection_releases_the_key s key :
  let s' := closeConnection key s in
  (connections s' !! key = None /\ connectionStatus s' !! key = None /\
   reconnectAttempts s' !! key = None /\ reconnectTimers s' !! key = None /\
   heartbeatTimers s' !! key = None /\ messageQueues s' !! key = None) /\
  getConnectionStatus s' key = DISCONNECTED /\
  emitted s' = emitted s /\ console s' = console s /\
  (forall k, k <> key -> SameAt k s s') /\
  (forall ws sock,
     connections s !! key = Some ws -> sockets s !! ws = Some sock ->
     sockets s' !! ws = Some (wsClose sock)) /\
  (forall h t,
     heartbeatTimers s !! key = Some h \/ reconnectTimers s !! key = Some h ->
     timers s !! h = Some t ->
     timerActive <$> timers s' !! h = Some false) /\
  length (timers s') = length (timers s).
Proof.
  intros s'.
  set (s0 := match connections s !! key with
             | Some ws => setSockets (alter wsClose ws (sockets s)) s
             | None => s
             end).
  change s' with (cleanup key s0). clear s'.
  assert (heartbeatTimers s0 = heartbeatTimers s /\
          reconnectTimers s0 = reconnectTimers s /\ timers s0 = timers s /\
          emitted s0 = emitted s /\ console s0 = console s) as (Hh & Hr & Ht & He & Hc).
  { unfold s0. by destruct (connections s !! key). }
  destruct (cleanup_releases key s0)
    as (H1 & H2 & H3 & H4 & H5 & H6 & Hem & Hcon & Hsock & Hlen).
  split; [done|]. split_and!.
  - unfold getConnectionStatus. by rewrite H2.
  - by rewrite Hem.
  - by rewrite Hcon.
  - intros k Hk. by apply (sameAt_closeConnection k key s).
  - intros ws sock Hws Hsome. rewrite Hsock. unfold s0. rewrite Hws. cbn.
    by rewrite list_lookup_alter_eq, Hsome.
  - intros h t Hh' Ht'. apply (cleanup_timers key s0 h t).
    + by rewrite Hh, Hr.
    + by rewrite Ht.
  - by rewrite Hlen, Ht.
Qed.

Lemma stopHeartbeat_releases k s :
  heartbeatTimers (stopHeartbeat k s) !! k = None.
Proof.
  unfold stopHeartbeat. destruct (heartbeatTimers s !! k) eqn:Hh; cbn; [|done].
  apply lookup_delete_eq.
Qed.

(** X15.  A close event with code 1000 ends the connection for good,
    whatever the attempt counter says: the stored socket and the heartbeat
    of the key are removed, the status becomes [DISCONNECTED],
    'statusChanged' and 'disconnected' are emitted in this order, and no
    timer is armed.  The counter and the queue of the key are kept. *)
Theorem normal_close_never_reconnects s (ws : nat) (sock : Socket) (reason : string) :
  sockets s !! ws = Some sock ->
  readyState sock <> WS_CLOSED ->
  let key := sockKey sock in
  let s' := step (WsClose ws 1000 reason) s in
  getConnectionStatus s' key = DISCONNECTED /\
  emitted s' = emitted s ++ [EvStatusChanged key DISCONNECTED;
                             EvDisconnected key 1000 reason] /\
  connections s' !! key = None /\ heartbeatTimers s' !! key = None /\
  length (timers s') = length (timers s) /\
  reconnectDelays s' = reconnectDelays s /\
  reconnectAttempts s' = reconnectAttempts s /\
  messageQueues s' = messageQueues s /\
  readyState <$> sockets s' !! ws = Some WS_CLOSED.
Proof.
  intros Hsock Hready key s'.
  assert (s' = onClose key 1000 reason
                 (setSockets (<[ws := withReadyState WS_CLOSED sock]> (sockets s)) s))
    as ->.
  { unfold s'. cbn [step]. rewrite Hsock. by destruct (readyState sock). }
  unfold onClose, handleConnectionClose.
  set (s0 := setConnections _ _).
  change ((1000 =? 1000) || _) with true. cbn iota.
  destruct (stopHeartbeat_frame key s0)
    as (Hc & Hst & Ha & Hr & Hq & Hcfg & Hso & He & Hcon & Hd & Hdk & Hlen).
  pose proof (stopHeartbeat_releases key s0) as Hhb.
  split_and!.
  - apply status_after_set.
  - cbn. rewrite He. unfold s0. cbn. by rewrite <-app_assoc.
  - cbn. rewrite Hc. unfold s0. cbn. apply lookup_delete_eq.
  - exact Hhb.
  - cbn. by rewrite Hlen.
  - change (reconnectDelays (stopHeartbeat key s0) = reconnectDelays s). by rewrite Hd.
  - cbn. by rewrite Ha.
  - cbn. by rewrite Hq.
  - cbn. rewrite Hso. unfold s0. cbn.
    by rewrite list_lookup_insert_eq by (by eapply lookup_lt_Some).
Qed.

Lemma normal_close_never_reconnects_witness :
  getConnectionStatus
    (step (WsClose 0 1000 "bye")
       (run [ConnectToServer "ws://localhost:8083" (Some reliable); WsOpen 0]
          (newManager defaultConfig)))
    "server" = DISCONNECTED.
Proof.
  refine (proj1 (normal_close_never_reconnects
                   (run [ConnectToServer "ws://localhost:8083" (Some reliable); WsOpen 0]
                      (newManager defaultConfig))
                   0 (mkSocket "server" "ws://localhost:8083/ws/server" WS_OPEN [] reliable)
                   "bye" _ _)).
  - by vm_compute.
  - discriminate.
Defined.

Lemma handleReconnection_delays key s :
  Z.of_nat (getReconnectAttempts s key) < maxReconnectAttempts (config s) ->
  reconnectDelaysFor key (handleReconnection key s)
  = reconnectDelaysFor key s
    ++ [Z.min (reconnectInterval (config s)
               * reconnectBackoffMultiplier (config s)
                 ^ Z.of_nat (getReconnectAttempts s key))
              (maxReconnectInterval (config s))].
Proof.
  intros Hlt. destruct (handleReconnection_retry key s Hlt) as (Ht & _).
  unfold reconnectDelaysFor. rewrite Ht, omap_app. cbn.
  by rewrite decide_True.
Qed.

Lemma handleConnectionClose_normal key reason s :
  let s' := handleConnectionClose key 1000 reason s in
  connectionStatus s' !! key = Some DISCONNECTED /\
  (forall k, reconnectDelaysFor k s' = reconnectDelaysFor k s) /\
  reconnectAttempts s' = reconnectAttempts s.
Proof.
  unfold handleConnectionClose.
  set (s0 := setConnections _ s).
  change ((1000 =? 1000) || _) with true. cbn iota.
  destruct (stopHeartbeat_frame key s0)
    as (_ & _ & Ha & _ & _ & _ & _ & _ & _ & _ & Hdk & _).
  split_and!.
  - cbn. by rewrite lookup_insert_eq.
  - intros k. exact (Hdk k).
  - exact Ha.
Qed.

Lemma handleConnectionClose_first key code reason s :
  code <> 1000 ->
  reconnectAttempts s !! key = None ->
  1 <= maxReconnectAttempts (config s) ->
  let s' := handleConnectionClose key code reason s in
  connectionStatus s' !! key = Some RECONNECTING /\
  reconnectDelaysFor key s'
  = reconnectDelaysFor key s
    ++ [Z.min (reconnectInterval (config s)) (maxReconnectInterval (config s))] /\
  reconnectAttempts s' !! key = Some 1%nat.
Proof.
  intros Hcode Hnone Hmax.
  assert (getReconnectAttempts s key = 0%nat) as Hzero
    by (unfold getReconnectAttempts; by rewrite Hnone).
  cbv zeta. rewrite handleConnectionClose_abnormal; [|done|rewrite Hzero; lia].
  set (s0 := setConnections _ s).
  destruct (stopHeartbeat_frame key s0)
    as (_ & _ & Ha & _ & _ & Hc & _ & _ & _ & _ & Hdk & _).
  set (s3 := stopHeartbeat key s0) in *.
  change (reconnectAttempts s0) with (reconnectAttempts s) in Ha.
  change (config s0) with (config s) in Hc.
  assert (reconnectDelaysFor key s3 = reconnectDelaysFor key s) as Hd by apply Hdk.
  clearbody s3. clear Hdk s0.
  assert (getReconnectAttempts s3 key = 0%nat) as Hzero3
    by (unfold getReconnectAttempts; by rewrite Ha, Hnone).
  assert (Z.of_nat (getReconnectAttempts s3 key) < maxReconnectAttempts (config s3))
    as Hlt by (rewrite Hzero3, Hc; lia).
  destruct (handleReconnection_touch key s3 Hlt) as [Hstatus _].
  destruct (handleReconnection_retry key s3 Hlt) as (_ & Hatt' & _).
  split_and!.
  - exact Hstatus.
  - rewrite handleReconnection_delays by done.
    rewrite Hd, Hzero3, Hc. cbn [Z.of_nat]. by rewrite Z.pow_0_r, Z.mul_1_r.
  - rewrite Hatt', lookup_insert_eq, Hzero3. done.
Qed.

(** X16.  The close event that follows [closeConnection] finds the key
    released, and brings it back: with code 1000 the key gets a status
    entry again, [DISCONNECTED]; with any other code -- the peer did not
    complete the closing handshake -- and a limit of at least one attempt, the
    manager takes the close for a lost connection, starts the counter at 1
    and arms a reconnect timer with the first delay, although the
    connection was closed on request. *)
Theorem close_event_after_close_connection
    s key (ws : nat) (sock : Socket) (code : Z) (reason : string) :
  connections s !! key = Some ws ->
  sockets s !! ws = Some sock ->
  sockKey sock = key ->
  readyState sock <> WS_CLOSED ->
  let s' := step (WsClose ws code reason) (closeConnection key s) in
  (code = 1000 ->
   connectionStatus s' !! key = Some DISCONNECTED /\
   reconnectDelaysFor key s' = reconnectDelaysFor key s /\
   reconnectAttempts s' !! key = None) /\
  (code <> 1000 ->
   1 <= maxReconnectAttempts (config s) ->
   connectionStatus s' !! key = Some RECONNECTING /\
   reconnectDelaysFor key s'
   = reconnectDelaysFor key s
     ++ [Z.min (reconnectInterval (config s)) (maxReconnectInterval (config s))] /\
   reconnectAttempts s' !! key = Some 1%nat).
Proof.
  intros Hws Hsock Hkey Hready s'.
  destruct (closeConnection_frame key s) as ([Hcfg Hdel] & Hatt & _).
  assert (sockets (closeConnection key s) !! ws = Some (wsClose sock)) as Hclosing.
  { unfold closeConnection. rewrite Hws.
    match goal with |- sockets (cleanup key ?s0) !! _ = _ =>
      destruct (cleanup_releases key s0) as (_&_&_&_&_&_&_&_& -> &_) end.
    cbn. by rewrite list_lookup_alter_eq, Hsock. }
  assert (readyState (wsClose sock) = WS_CLOSING) as Hstate.
  { unfold wsClose. by destruct (readyState sock). }
  assert (sockKey (wsClose sock) = key) as Hkey'.
  { unfold wsClose. by destruct (readyState sock). }
  set (s1 := closeConnection key s) in *. clearbody s1.
  set (s2 := print (LogClosed key code reason)
               (setSockets (<[ws := withReadyState WS_CLOSED (wsClose sock)]> (sockets s1))
                  s1)).
  assert (s' = handleConnectionClose key code reason s2) as ->.
  { unfold s'. cbn [step]. rewrite Hclosing, Hstate, Hkey'. done. }
  assert (reconnectAttempts s2 = delete key (reconnectAttempts s)) as Hatt2 by exact Hatt.
  assert (config s2 = config s) as Hcfg2 by exact Hcfg.
  assert (reconnectDelaysFor key s2 = reconnectDelaysFor key s) as Hdel2 by apply Hdel.
  clearbody s2. clear Hclosing Hatt Hcfg Hdel.
  assert (reconnectAttempts s2 !! key = None) as Hnone
    by (by rewrite Hatt2, lookup_delete_eq).
  split.
  - intros ->.
    destruct (handleConnectionClose_normal key reason s2) as (Hst & Hd & Ha).
    split_and!; [exact Hst|by rewrite Hd|by rewrite Ha].
  - intros Hcode Hmax.
    destruct (handleConnectionClose_first key code reason s2) as (Hst & Hd & Ha);
      [done|done|by rewrite Hcfg2|].
    split_and!; [exact Hst| |exact Ha]. by rewrite Hd, Hdel2, Hcfg2.
Qed.

Lemma close_event_after_close_connection_witness :
  connectionStatus
    (step (WsClose 0 1006 "")
       (closeConnection "server"
          (run [ConnectToServer "ws://localhost:8083" (Some reliable); WsOpen 0]
             (newManager defaultConfig))))
  !! "server"%string = Some RECONNECTING.
Proof.
  refine (proj1 (proj2 (close_event_after_close_connection
                          (run [ConnectToServer "ws://localhost:8083" (Some reliable);
                                WsOpen 0]
                             (newManager defaultConfig))
                          "server" 0
                          (mkSocket "server" "ws://localhost:8083/ws/server" WS_OPEN []
                             reliable)
                          1006 "" _ _ _ _) _ _)).
  - by vm_compute.
  - by vm_compute.
  - reflexivity.
  - discriminate.
  - discriminate.
  - by vm_compute.
Defined.

Lemma closeAll_sameAt key (keys : list string) s :
  key ∉ keys -> SameAt key s (foldr closeConnection s keys).
Proof.
  induction keys as [|k keys IH]; intros Hnotin; [apply sameAt_refl|].
  apply not_elem_of_cons in Hnotin as [Hk Hnotin]. cbn.
  eapply sameAt_trans; [by apply IH|by apply sameAt_closeConnection].
Qed.

Lemma closeConnection_none k s :
  let s' := closeConnection k s in
  connections s' !! k = None /\ connectionStatus s' !! k = None /\
  reconnectAttempts s' !! k = None /\ reconnectTimers s' !! k = None /\
  heartbeatTimers s' !! k = None /\ messageQueues s' !! k = None.
Proof.
  unfold closeConnection.
  match goal with |- context [cleanup k ?s0] =>
    destruct (cleanup_releases k s0) as (H1 & H2 & H3 & H4 & H5 & H6 & _) end.
  done.
Qed.

Lemma closeAll_none key (keys : list string) s :
  key ∈ keys ->
  let s' := foldr closeConnection s keys in
  connections s' !! key = None /\ connectionStatus s' !! key = None /\
  reconnectAttempts s' !! key = None /\ reconnectTimers s' !! key = None /\
  heartbeatTimers s' !! key = None /\ messageQueues s' !! key = None.
Proof.
  induction keys as [|k keys IH]; intros Hin; [by apply elem_of_nil in Hin|].
  cbn. destruct (decide (key = k)) as [->|Hne]; [apply closeConnection_none|].
  apply elem_of_cons in Hin as [?|Hin]; [done|].
  destruct (sameAt_closeConnection key k (foldr closeConnection s keys) Hne)
    as (-> & -> & -> & -> & -> & ->).
  by apply IH.
Qed.

Lemma closeConnection_emitted k s : emitted (closeConnection k s) = emitted s.
Proof.
  unfold closeConnection.
  match goal with |- emitted (cleanup k ?s0) = _ =>
    destruct (cleanup_releases k s0) as (_&_&_&_&_&_& -> &_) end.
  by destruct (connections s !! k).
Qed.

Lemma closeAll_emitted (keys : list string) s :
  emitted (foldr closeConnection s keys) = emitted s.
Proof.
  induction keys as [|k keys IH]; [done|].
  change (emitted (closeConnection k (foldr closeConnection s keys)) = emitted s).
  by rewrite closeConnection_emitted.
Qed.

(** X17.  [closeAllConnections], and so [dispose], release the keys that
    have a stored socket and no others: afterwards no socket is stored and
    the six maps have no entry for any of those keys; but a key without a
    stored socket -- one that is connecting, or waiting to reconnect after
    its socket closed -- keeps its status, counter, queue and timers, so
    that its reconnect timer is still armed after [dispose].  Nothing is
    emitted. *)
Theorem dispose_releases_stored_sockets_only s :
  let s' := dispose s in
  connections s' = ∅ /\
  (forall key,
     is_Some (connections s !! key) ->
     connectionStatus s' !! key = None /\ reconnectAttempts s' !! key = None /\
     reconnectTimers s' !! key = None /\ heartbeatTimers s' !! key = None /\
     messageQueues s' !! key = None) /\
  (forall key, connections s !! key = None -> SameAt key s s') /\
  emitted s' = emitted s /\
  closeAllConnections s = s'.
Proof.
  intros s'. unfold s', dispose, closeAllConnections.
  set (keys := (map_to_list (connections s)).*1).
  assert (forall key, key ∈ keys <-> is_Some (connections s !! key)) as Hkeys.
  { intros key. unfold keys. rewrite list_elem_of_fmap. split.
    - intros ([k ws] & -> & Hin). apply elem_of_map_to_list in Hin. by exists ws.
    - intros [ws Hws]. exists (key, ws). split; [done|]. by apply elem_of_map_to_list. }
  split_and!.
  - apply map_eq. intros key. rewrite lookup_empty.
    destruct (decide (key ∈ keys)) as [Hin|Hnotin].
    + by destruct (closeAll_none key keys s Hin) as (-> & _).
    + destruct (closeAll_sameAt key keys s Hnotin) as (-> & _).
      destruct (connections s !! key) eqn:Hc; [|done].
      exfalso. apply Hnotin, Hkeys. by rewrite Hc.
  - intros key Hsome. apply Hkeys in Hsome.
    by destruct (closeAll_none key keys s Hsome) as (_ & ? & ? & ? & ? & ?).
  - intros key Hnone. apply closeAll_sameAt. rewrite Hkeys, Hnone.
    by intros [? ?].
  - apply closeAll_emitted.
  - done.
Qed.

(** ** Statistics *)

Lemma sum_list_bounded {A} (f : A -> nat) (l : list A) (bound : nat) :
  Forall (fun x => f x <= bound)%nat l ->
  (sum_list (f <$> l) <= length l * bound)%nat.
Proof.
  induction 1 as [|x l Hx Hl IH]; cbn; [done|]. lia.
Qed.

(** X18.  [getConnectionStats] looks only at the keys that have a stored
    socket.  Its active and its reconnecting count are at most the total,
    and the queued messages at most the total times the queue capacity; a
    message queued for a key without a stored socket -- every message
    queued before the first 'open', and every one queued while the key
    waits to reconnect -- is not counted, and without stored sockets all four
    numbers are 0 whatever the queues hold. *)
Theorem stats_count_stored_sockets_only s :
  let stats := getConnectionStats s in
  (activeConnections stats <= totalConnections stats)%nat /\
  (reconnectingConnections stats <= totalConnections stats)%nat /\
  (QueuesBounded s ->
   Z.of_nat (queuedMessages stats)
   <= Z.of_nat (totalConnections stats) * Z.max 0 (messageQueueMaxSize (config s))) /\
  (connections s = ∅ -> stats = mkStats 0 0 0 0) /\
  (forall key m,
     connections s !! key = None ->
     getConnectionStats (queueMessage key m s) = stats).
Proof.
  intros stats. unfold stats, getConnectionStats.
  set (keys := (map_to_list (connections s)).*1).
  assert (length keys = size (connections s)) as Hlen
    by (unfold keys; by rewrite length_fmap, length_map_to_list).
  cbn [activeConnections totalConnections reconnectingConnections queuedMessages].
  split_and!.
  - rewrite <-Hlen. apply length_filter.
  - rewrite <-Hlen. apply length_filter.
  - intros Hb. rewrite <-Hlen.
    pose proof (sum_list_bounded
                  (fun key => length (default [] (messageQueues s !! key))) keys
                  (Z.to_nat (Z.max 0 (messageQueueMaxSize (config s))))) as Hsum.
    assert (sum_list ((fun key => length (default [] (messageQueues s !! key))) <$> keys)
            <= length keys * Z.to_nat (Z.max 0 (messageQueueMaxSize (config s))))%nat
      as Hle.
    { apply Hsum, Forall_forall. intros key _.
      destruct (messageQueues s !! key) as [queue|] eqn:Hq; cbn; [|lia].
      specialize (Hb key queue Hq). lia. }
    nia.
  - intros Hempty. unfold keys. by rewrite Hempty, map_to_list_empty.
  - intros key m Hnone. unfold queueMessage.
    cbn [connections setMessageQueues messageQueues].
    fold keys. f_equal.
    apply (f_equal sum_list), list_fmap_ext. intros i k Hk.
    rewrite lookup_insert_ne; [done|]. intros <-.
    apply list_elem_of_lookup_2 in Hk. unfold keys in Hk.
    apply list_elem_of_fmap in Hk as ([k' ws] & -> & Hin).
    apply elem_of_map_to_list in Hin. cbn in Hnone. congruence.
Qed.

(** ** Heartbeat *)

(** X19.  When the heartbeat interval of a key fires: if the stored socket
    of the key is open and takes the frame, exactly one ping goes out on it
    and nothing else changes; otherwise the heartbeat that is registered for
    the key is stopped ([ws.send] throwing is printed first).  The interval
    that fired is cleared only when it is the one registered for the key: a
    heartbeat that a later [startHeartbeat] has replaced in the map stays
    armed whatever happens, and [startHeartbeat] itself clears nothing.
    Once the registered interval is stopped, its entry is gone and it does
    not fire into the manager again. *)
Theorem heartbeat_pings_or_stops
    s (h : nat) (t : Timer) key (uuid : string) (now : Z) (throws : bool) :
  timers s !! h = Some t ->
  timerKind t = HeartbeatTimer key ->
  timerActive t = true ->
  let s' := step (TimerFires h uuid now throws) s in
  (forall ws sock,
     connections s !! key = Some ws -> sockets s !! ws = Some sock ->
     readyState sock = WS_OPEN ->
     (acceptSend sock (sent sock) (pingMessage uuid now) = true ->
      s' = setSockets (<[ws := withSent (sent sock ++ [pingMessage uuid now]) sock]>
                         (sockets s)) s) /\
     (acceptSend sock (sent sock) (pingMessage uuid now) = false ->
      s' = stopHeartbeat key (print (ErrorHeartbeatFailed key) s))) /\
  (isConnected s key = false -> s' = stopHeartbeat key s) /\
  (heartbeatTimers s !! key <> Some h -> timers s' !! h = Some t) /\
  (heartbeatTimers s !! key = Some h -> isConnected s key = false ->
   timers s' !! h = Some (disarm t) /\ heartbeatTimers s' !! key = None /\
   forall uuid' now' throws', step (TimerFires h uuid' now' throws') s' = s') /\
  (forall k,
     timers (startHeartbeat k s)
     = timers s ++ [mkTimer (HeartbeatTimer k) (heartbeatInterval (config s)) true] /\
     heartbeatTimers (startHeartbeat k s) !! k = Some (length (timers s))).
Proof.
  intros Ht Hkind Hactive s'.
  assert (s' = heartbeatTick key uuid now s) as ->.
  { unfold s'. cbn [step]. unfold fireTimer. by rewrite Ht, Hactive, Hkind. }
  assert (isConnected s key = false -> heartbeatTick key uuid now s = stopHeartbeat key s)
    as Hoff.
  { unfold isConnected, isOpen, heartbeatTick.
    destruct (connections s !! key) as [ws|]; [|done].
    destruct (sockets s !! ws) as [sock|]; [|done]. by destruct (readyState sock). }
  assert (forall s0, timers s0 = timers s -> heartbeatTimers s0 = heartbeatTimers s ->
            heartbeatTimers s !! key <> Some h ->
            timers (stopHeartbeat key s0) !! h = Some t) as Horphan.
  { intros s0 Ht0 Hh0 Hne. unfold stopHeartbeat. rewrite Hh0.
    destruct (heartbeatTimers s !! key) as [h'|] eqn:Hh; cbn; [|by rewrite Ht0].
    rewrite Ht0, list_lookup_alter_ne; [done|]. congruence. }
  split_and!.
  - intros ws sock Hconn Hsock Hopen. unfold heartbeatTick, wsSend.
    rewrite Hconn, Hsock, Hopen. split; by intros ->.
  - exact Hoff.
  - intros Hne. unfold heartbeatTick.
    destruct (connections s !! key) as [ws|]; [|by apply Horphan].
    destruct (sockets s !! ws) as [sock|]; [|by apply Horphan].
    destruct (readyState sock); try by apply Horphan.
    destruct (wsSend (pingMessage uuid now) sock); [done|by apply Horphan].
  - intros Hh Hnot. rewrite (Hoff Hnot). unfold stopHeartbeat. rewrite Hh. cbn.
    rewrite list_lookup_alter_eq, Ht, lookup_delete_eq. split_and!; [done|done|].
    intros uuid' now' throws'. unfold fireTimer. cbn.
    by rewrite list_lookup_alter_eq, Ht.
  - intros k. unfold startHeartbeat. cbn. by rewrite lookup_insert_eq.
Qed.

Lemma heartbeat_pings_or_stops_witness :
  step (TimerFires 1 "id" 7 false)
    (run [ConnectToServer "ws://localhost:8083" (Some reliable); WsOpen 0]
       (newManager defaultConfig))
  = setSockets
      (<[0%nat := withSent
                    (sent (mkSocket "server" "ws://localhost:8083/ws/server" WS_OPEN []
                             reliable)
                     ++ [pingMessage "id" 7])
                    (mkSocket "server" "ws://localhost:8083/ws/server" WS_OPEN [] reliable)]>
         (sockets (run [ConnectToServer "ws://localhost:8083" (Some reliable); WsOpen 0]
                     (newManager defaultConfig))))
      (run [ConnectToServer "ws://localhost:8083" (Some reliable); WsOpen 0]
         (newManager defaultConfig)).
Proof.
  refine (proj1 (proj1 (heartbeat_pings_or_stops
                          (run [ConnectToServer "ws://localhost:8083" (Some reliable);
                                WsOpen 0]
                             (newManager defaultConfig))
                          1 (mkTimer (HeartbeatTimer "server") 30000 true)
                          "server" "id" 7 false _ _ _)
                   0%nat (mkSocket "server" "ws://localhost:8083/ws/server" WS_OPEN []
                            reliable) _ _ _) _).
  - by vm_compute.
  - reflexivity.
  - reflexivity.
  - by vm_compute.
  - by vm_compute.
  - reflexivity.
  - reflexivity.
Defined.

(** ** Sockets *)

Lemma sameSockets_refl s : SameSockets s s.
Proof. split; [done|]. intros ws sock Hsock. by exists sock. Qed.

Lemma sameSockets_trans s1 s2 s3 :
  SameSockets s1 s2 -> SameSockets s2 s3 -> SameSockets s1 s3.
Proof.
  intros [Hl Hk] [Hl' Hk']. split; [congruence|]. intros ws sock Hsock.
  destruct (Hk ws sock Hsock) as (sock2 & H2 & Hkey & Hurl).
  destruct (Hk' ws sock2 H2) as (sock3 & H3 & Hkey' & Hurl').
  exists sock3. split_and!; congruence.
Qed.

Lemma sameSockets_eq s s' : sockets s' = sockets s -> SameSockets s s'.
Proof. intros Heq. unfold SameSockets. rewrite Heq. apply sameSockets_refl. Qed.

Lemma sameSockets_insert s s' ws sock sock' :
  sockets s !! ws = Some sock ->
  sockKey sock' = sockKey sock -> sockUrl sock' = sockUrl sock ->
  sockets s' = <[ws := sock']> (sockets s) ->
  SameSockets s s'.
Proof.
  intros Hsock Hkey Hurl Heq. unfold SameSockets. rewrite Heq. split.
  - apply length_insert.
  - intros w sock0 Hw. destruct (decide (w = ws)) as [->|Hne].
    + exists sock'. rewrite list_lookup_insert_eq by (by eapply lookup_lt_Some).
      split_and!; congruence.
    + exists sock0. by rewrite list_lookup_insert_ne.
Qed.

Lemma sameSockets_close s s' ws :
  sockets s' = alter wsClose ws (sockets s) -> SameSockets s s'.
Proof.
  intros Heq. unfold SameSockets. rewrite Heq. split.
  - apply length_alter.
  - intros w sock Hw. destruct (decide (w = ws)) as [->|Hne].
    + exists (wsClose sock). rewrite list_lookup_alter_eq, Hw. split; [done|].
      unfold wsClose. by destruct (readyState sock).
    + exists sock. by rewrite list_lookup_alter_ne.
Qed.

Lemma wsSend_url m sock sock' : wsSend m sock = Some sock' -> sockUrl sock' = sockUrl sock.
Proof. unfold wsSend. case_match; [|done]. by intros [= <-]. Qed.

Lemma flushLoop_url sock queue : sockUrl (flushLoop sock queue).1.1 = sockUrl sock.
Proof.
  revert sock. induction queue as [|m queue IH]; intros sock; cbn; [done|].
  destruct (wsSend m sock) as [sock'|] eqn:Hsend; cbn; [|done].
  rewrite IH. by eapply wsSend_url.
Qed.

Lemma sameSockets_stopHeartbeat k s : SameSockets s (stopHeartbeat k s).
Proof.
  apply sameSockets_eq. by destruct (stopHeartbeat_frame k s) as (_&_&_&_&_&_& -> &_).
Qed.

Lemma sockets_handleReconnection k s : sockets (handleReconnection k s) = sockets s.
Proof. unfold handleReconnection. by case_match. Qed.

Lemma sameSockets_handleConnectionClose k code reason s :
  SameSockets s (handleConnectionClose k code reason s).
Proof.
  apply sameSockets_eq. unfold handleConnectionClose.
  set (s1 := stopHeartbeat k _).
  assert (sockets s1 = sockets s) as Hs.
  { unfold s1. by destruct (stopHeartbeat_frame k (setConnections
                             (delete k (connections s)) s)) as (_&_&_&_&_&_& -> &_). }
  clearbody s1. case_match; [exact Hs|]. by rewrite sockets_handleReconnection.
Qed.

Lemma sameSockets_handleConnectionError k error s :
  SameSockets s (handleConnectionError k error s).
Proof.
  apply sameSockets_eq. unfold handleConnectionError. case_match; [|done].
  by rewrite sockets_handleReconnection.
Qed.

Lemma sameSockets_sendMessage k type payload uuid now s :
  SameSockets s (sendMessage k type payload uuid now s).2.
Proof.
  unfold sendMessage.
  destruct (connections s !! k) as [ws|]; [|by apply sameSockets_eq].
  destruct (sockets s !! ws) as [sock|] eqn:Hsock; [|by apply sameSockets_eq].
  destruct (readyState sock); try by apply sameSockets_eq.
  destruct (wsSend _ sock) as [sock'|] eqn:Hsend; [|by apply sameSockets_eq].
  eapply (sameSockets_insert s _ ws sock sock'); [done| | |done].
  - by eapply wsSend_key.
  - by eapply wsSend_url.
Qed.

Lemma sameSockets_flushMessageQueue k s : SameSockets s (flushMessageQueue k s).
Proof.
  unfold flushMessageQueue.
  destruct (messageQueues s !! k) as [[|m queue]|]; try apply sameSockets_refl.
  destruct (connections s !! k) as [ws|]; [|apply sameSockets_refl].
  destruct (sockets s !! ws) as [sock|] eqn:Hsock; [|apply sameSockets_refl].
  destruct (readyState sock); try apply sameSockets_refl.
  pose proof (flushLoop_key sock (m :: queue)) as Hkey.
  pose proof (flushLoop_url sock (m :: queue)) as Hurl.
  destruct (flushLoop sock (m :: queue)) as [[sock' remaining] threw].
  cbn [fst] in Hkey, Hurl.
  eapply (sameSockets_insert s _ ws sock sock'); [done|done|done|].
  by destruct threw.
Qed.

Lemma sameSockets_heartbeatTick k uuid now s : SameSockets s (heartbeatTick k uuid now s).
Proof.
  unfold heartbeatTick.
  destruct (connections s !! k) as [ws|]; [|apply sameSockets_stopHeartbeat].
  destruct (sockets s !! ws) as [sock|] eqn:Hsock; [|apply sameSockets_stopHeartbeat].
  destruct (readyState sock); try apply sameSockets_stopHeartbeat.
  destruct (wsSend _ sock) as [sock'|] eqn:Hsend.
  - eapply (sameSockets_insert s _ ws sock sock'); [done| | |done].
    + by eapply wsSend_key.
    + by eapply wsSend_url.
  - eapply sameSockets_trans; [|apply sameSockets_stopHeartbeat]. by apply sameSockets_eq.
Qed.

Lemma sameSockets_closeConnection k s : SameSockets s (closeConnection k s).
Proof.
  unfold closeConnection.
  match goal with |- SameSockets s (cleanup k ?s0) =>
    apply (sameSockets_trans _ s0);
      [|apply sameSockets_eq; by destruct (cleanup_releases k s0) as (_&_&_&_&_&_&_&_& -> &_)]
  end.
  destruct (connections s !! k) as [ws|]; [|apply sameSockets_refl].
  by apply (sameSockets_close _ _ ws).
Qed.

Lemma sameSockets_closeAll (keys : list string) s :
  SameSockets s (foldr closeConnection s keys).
Proof.
  induction keys as [|k keys IH]; [apply sameSockets_refl|].
  eapply sameSockets_trans; [exact IH|apply sameSockets_closeConnection].
Qed.

Lemma sameSockets_onOpen ws k url s : SameSockets s (onOpen ws k url s).
Proof.
  unfold onOpen. set (s1 := startHeartbeat k _).
  apply (sameSockets_trans _ s1); [by apply sameSockets_eq|].
  apply (sameSockets_trans _ (flushMessageQueue k s1));
    [apply sameSockets_flushMessageQueue|by apply sameSockets_eq].
Qed.

Lemma sameSockets_fireTimer handle uuid now listenerThrows s :
  SameSockets s (fireTimer handle uuid now listenerThrows s).
Proof.
  unfold fireTimer. destruct (timers s !! handle) as [t|]; [|apply sameSockets_refl].
  destruct (timerActive t); [|apply sameSockets_refl].
  destruct (timerKind t) as [k attempt|k|k ws].
  - apply sameSockets_eq. unfold reconnectTick. destruct listenerThrows; [|done].
    by rewrite sockets_handleReconnection.
  - apply sameSockets_heartbeatTick.
  - unfold connectionTimeoutTick. case_match; [|by apply sameSockets_eq].
    by apply (sameSockets_close _ _ ws).
Qed.

Lemma sameSockets_step (a : Action) s : connectKey a = None -> SameSockets s (step a s).
Proof.
  intros Hkey.
  destruct a as [sketchName baseUrl behaviour|baseUrl behaviour
                |k type payload uuid now|k| | |ws|ws data|ws code reason|ws error
                |handle uuid now listenerThrows]; try discriminate; cbn [step].
  - apply sameSockets_sendMessage.
  - apply sameSockets_closeConnection.
  - apply sameSockets_closeAll.
  - apply sameSockets_closeAll.
  - destruct (sockets s !! ws) as [sock|] eqn:Hsock; [|apply sameSockets_refl].
    destruct (readyState sock); try apply sameSockets_refl.
    eapply sameSockets_trans; [|apply sameSockets_onOpen].
    by apply (sameSockets_insert s _ ws sock (withReadyState WS_OPEN sock)).
  - destruct (sockets s !! ws) as [sock|]; [|apply sameSockets_refl].
    apply sameSockets_eq. by destruct (onMessage_output (sockKey sock) data s)
      as (_&_&_&_&_&_&_& -> &_).
  - destruct (sockets s !! ws) as [sock|] eqn:Hsock; [|apply sameSockets_refl].
    destruct (readyState sock); try apply sameSockets_refl; unfold onClose.
    all: eapply sameSockets_trans; [|apply sameSockets_handleConnectionClose].
    all: by apply (sameSockets_insert s _ ws sock (withReadyState WS_CLOSED sock)).
  - destruct (sockets s !! ws) as [sock|]; [|apply sameSockets_refl].
    unfold onError.
    eapply sameSockets_trans; [|apply sameSockets_handleConnectionError].
    by apply sameSockets_eq.
  - apply sameSockets_fireTimer.
Qed.

Lemma createConnection_sockets k url behaviour s :
  sockets (createConnection k url behaviour s).2 = sockets s \/
  exists accept,
    sockets (createConnection k url behaviour s).2
    = sockets s ++ [mkSocket k url WS_CONNECTING [] accept].
Proof.
  unfold createConnection. destruct behaviour as [accept|]; [|by left].
  right. by exists accept.
Qed.

(** X20.  Sockets are constructed by the connect calls and by nothing
    else.  A connect call leaves the sockets as they are or adds one
    socket for its key, in state CONNECTING and with nothing sent; every
    other action -- in particular a reconnect timer that fires, which only
    emits 'reconnectRequested' -- keeps the number of sockets, and the key
    and the URL of each.  So a run without connect calls never opens a
    socket, and a lost connection is re-established only if a subscriber
    calls connect again. *)
Theorem sockets_are_made_by_connect_only s (a : Action) :
  match connectKey a with
  | Some k =>
      sockets (step a s) = sockets s \/
      exists url accept,
        sockets (step a s) = sockets s ++ [mkSocket k url WS_CONNECTING [] accept]
  | None => SameSockets s (step a s)
  end /\
  (forall actions,
     Forall (fun a => connectKey a = None) actions ->
     SameSockets s (run actions s)).
Proof.
  split.
  - destruct (connectKey a) as [k|] eqn:Hkey; [|by apply sameSockets_step].
    destruct a as [sketchName baseUrl behaviour|baseUrl behaviour| | | | | | | | |];
      try discriminate; injection Hkey as <-; cbn [step].
    + unfold connectToSketch. case_match; [by left|].
      destruct (createConnection_sockets ("sketch-" +:+ sketchName)
                  (baseUrl +:+ "/ws/sketches/" +:+ encodeURIComponent sketchName)
                  behaviour s) as [Heq|[accept Heq]]; [by left|].
      right. by eexists _, accept.
    + unfold connectToServer. case_match; [by left|].
      destruct (createConnection_sockets "server" (baseUrl +:+ "/ws/server")
                  behaviour s) as [Heq|[accept Heq]]; [by left|].
      right. by eexists _, accept.
  - intros actions. revert s.
    induction actions as [|a0 actions IH]; intros s Hall; [apply sameSockets_refl|].
    apply Forall_cons in Hall as [Ha Hall].
    change (SameSockets s (run actions (step a0 s))).
    eapply sameSockets_trans; [by apply sameSockets_step|by apply IH].
Qed.

(** ** Sketch names in keys and URLs *)

Lemma append_cancel (prefix a b : string) :
  (prefix +:+ a = prefix +:+ b)%string -> a = b.
Proof.
  induction prefix as [|c prefix IH]; [done|]. intros Heq.
  apply IH. by injection Heq.
Qed.

Lemma hexDigit_code (n : nat) :
  (n < 16)%nat ->
  nat_of_ascii (hexDigit n) = (if (n <? 10)%nat then 48 + n else 55 + n)%nat.
Proof.
  intros Hn. unfold hexDigit. apply nat_ascii_embedding.
  destruct (Nat.ltb_spec n 10); lia.
Qed.

Lemma hexDigit_inj (a b : nat) :
  (a < 16)%nat -> (b < 16)%nat -> hexDigit a = hexDigit b -> a = b.
Proof.
  intros Ha Hb Heq. apply (f_equal nat_of_ascii) in Heq.
  rewrite !hexDigit_code in Heq by done.
  destruct (Nat.ltb_spec a 10), (Nat.ltb_spec b 10); lia.
Qed.

Lemma hexDigit_unreserved (n : nat) : (n < 16)%nat -> isUnreserved (hexDigit n) = true.
Proof.
  intros Hn. do 16 (destruct n as [|n]; [reflexivity|]). lia.
Qed.

Lemma escaped_byte_inj (a b : ascii) :
  hexDigit (nat_of_ascii a / 16) = hexDigit (nat_of_ascii b / 16) ->
  hexDigit (nat_of_ascii a mod 16) = hexDigit (nat_of_ascii b mod 16) ->
  a = b.
Proof.
  intros Hhigh Hlow.
  pose proof (nat_ascii_bounded a) as Ha. pose proof (nat_ascii_bounded b) as Hb.
  apply hexDigit_inj in Hhigh;
    [|apply Nat.Div0.div_lt_upper_bound; lia|apply Nat.Div0.div_lt_upper_bound; lia].
  apply hexDigit_inj in Hlow; [|apply Nat.mod_upper_bound; lia..].
  rewrite <-(ascii_nat_embedding a), <-(ascii_nat_embedding b). f_equal.
  rewrite (Nat.div_mod_eq (nat_of_ascii a) 16), (Nat.div_mod_eq (nat_of_ascii b) 16).
  by rewrite Hhigh, Hlow.
Qed.

Lemma encodeURIComponent_inj (name name' : string) :
  encodeURIComponent name = encodeURIComponent name' -> name = name'.
Proof.
  revert name'. induction name as [|a name IH]; intros [|b name']; cbn [encodeURIComponent].
  - done.
  - by case_match.
  - by case_match.
  - destruct (isUnreserved a) eqn:Ha, (isUnreserved b) eqn:Hb.
    + intros [= -> Heq]. f_equal. by apply IH.
    + intros [= -> _]. by vm_compute in Ha.
    + intros [= <- _]. by vm_compute in Hb.
    + intros [= Hhigh Hlow Heq]. f_equal; [by apply escaped_byte_inj|by apply IH].
Qed.

Lemma encodeURIComponent_alphabet (name : string) :
  Forall (fun c => isUnreserved c = true \/ c = "%"%char)
    (list_ascii_of_string (encodeURIComponent name)).
Proof.
  induction name as [|a name IH]; cbn [encodeURIComponent]; [constructor|].
  destruct (isUnreserved a) eqn:Ha; cbn [list_ascii_of_string].
  - constructor; [by left|done].
  - pose proof (nat_ascii_bounded a) as Hlt.
    constructor; [by right|].
    constructor; [left; apply hexDigit_unreserved, Nat.Div0.div_lt_upper_bound; lia|].
    constructor; [left; apply hexDigit_unreserved, Nat.mod_upper_bound; lia|done].
Qed.

Lemma encodeURIComponent_plain (name : string) :
  Forall (fun c => isUnreserved c = true) (list_ascii_of_string name) ->
  encodeURIComponent name = name.
Proof.
  induction name as [|a name IH]; [done|]. cbn [list_ascii_of_string encodeURIComponent].
  intros [Ha Hrest]%Forall_cons. rewrite Ha. f_equal. by apply IH.
Qed.

Lemma connectToSketch_created sketchName baseUrl accept s ws sock :
  (connectToSketch sketchName baseUrl (Some accept) s).1 = Created ws ->
  sockets (connectToSketch sketchName baseUrl (Some accept) s).2 !! ws = Some sock ->
  sockKey sock = ("sketch-" +:+ sketchName)%string /\
  sockUrl sock = (baseUrl +:+ "/ws/sketches/" +:+ encodeURIComponent sketchName)%string /\
  readyState sock = WS_CONNECTING /\ sent sock = [].
Proof.
  unfold connectToSketch. case_match; [done|]. unfold createConnection.
  cbn [fst snd sockets setSockets armTimer setTimers setConnectionStatus emit setStatusMap].
  intros [= <-]. rewrite list_lookup_middle by done. by intros [= <-].
Qed.

(** X21.  [connectToSketch] escapes the sketch name before it puts it into
    the URL: the escaped name consists of unreserved characters and '%'
    only -- so a name cannot add a path segment, a query or a fragment --,
    a name of unreserved characters is left as it is, and different names
    are escaped differently.  Hence the sockets that [connectToSketch]
    constructs for different sketches, from the same base URL, differ in
    their key and in their URL. *)
Theorem sketch_names_are_escaped :
  (forall name,
     Forall (fun c => isUnreserved c = true \/ c = "%"%char)
       (list_ascii_of_string (encodeURIComponent name))) /\
  (forall name,
     Forall (fun c => isUnreserved c = true) (list_ascii_of_string name) ->
     encodeURIComponent name = name) /\
  (forall name name', encodeURIComponent name = encodeURIComponent name' -> name = name') /\
  (forall name name' baseUrl accept accept' s s0 ws ws' sock sock',
     name <> name' ->
     (connectToSketch name baseUrl (Some accept) s).1 = Created ws ->
     (connectToSketch name' baseUrl (Some accept') s0).1 = Created ws' ->
     sockets (connectToSketch name baseUrl (Some accept) s).2 !! ws = Some sock ->
     sockets (connectToSketch name' baseUrl (Some accept') s0).2 !! ws' = Some sock' ->
     sockKey sock <> sockKey sock' /\ sockUrl sock <> sockUrl sock').
Proof.
  split_and!.
  - apply encodeURIComponent_alphabet.
  - apply encodeURIComponent_plain.
  - apply encodeURIComponent_inj.
  - intros name name' baseUrl accept accept' s s0 ws ws' sock sock' Hne Hc Hc' Hs Hs'.
    destruct (connectToSketch_created name baseUrl accept s ws sock Hc Hs)
      as (-> & -> & _).
    destruct (connectToSketch_created name' baseUrl accept' s0 ws' sock' Hc' Hs')
      as (-> & -> & _).
    split.
    + intros Heq. by apply append_cancel in Heq.
    + intros Heq. apply append_cancel, append_cancel in Heq.
      by apply encodeURIComponent_inj in Heq.
Qed.

End WebSocketManagerExtras.
